(** * Hidden-line projection engine: a shallow embedding and its properties

    The development embeds the geometric core of the edge-projection
    repository:

    - [src/utils/triangleLineUtils.js]        (module [TriangleLineUtils])
    - [src/utils/getProjectedLineOverlap.js]  (module [ProjectedOverlap])
    - [src/utils/generateIntersectionEdges.js](module [IntersectionEdges])
    - [src/ProjectionGenerator.js]            (module [ProjectionGenerator])
    - [src/utils/postProcessing.js]           (module [PostProcessing])
    - [EdgeSet.getLineGeometry], [generateAsync] (modules [LineGeometry], [Async])
    - the topology of [postProcessing.js]     (module [Topology])
    - the [onmessage] handler of the worker   (module [Worker])
    - [edgeProjection.js], [updateEdges]      (module [EdgeProjection])

    JavaScript numbers are IEEE-754 binary64 values; they are embedded as
    Rocq's primitive floats, so every definition evaluates exactly as the
    JavaScript does.  The three.js / three-mesh-bvh value classes the code
    computes with ([Vector3], [Line3], [Plane], [Box3], [Ray],
    [ExtendedTriangle]) are embedded method by method; mutable receivers
    become returned values. *)

From Stdlib Require Import Floats ZArith List Bool Lia Sorted.
From Stdlib Require Uint63.
From Stdlib Require String.
Import ListNotations.

(* Decimal literals denote the nearest binary64 value, as in JavaScript. *)
#[global] Set Warnings "-inexact-float".

(** ** JavaScript number primitives *)

Module JS.
Local Open Scope float_scope.

(** [a >= b] and [a > b] on numbers: false as soon as one side is NaN. *)
Definition geb (a b : float) : bool := b <=? a.
Definition gtb (a b : float) : bool := b <? a.

(** [Math.min(a, b)]: NaN when an argument is NaN, and -0 below +0. *)
Definition Math_min (a b : float) : float :=
  if is_nan a || is_nan b then nan
  else if a <? b then a
  else if b <? a then b
  else match classify a with NZero => a | _ => b end.

(** [Math.max(a, b)]: NaN when an argument is NaN, and +0 above -0. *)
Definition Math_max (a b : float) : float :=
  if is_nan a || is_nan b then nan
  else if a <? b then b
  else if b <? a then a
  else match classify a with PZero => a | _ => b end.

Definition Math_min3 (a b c : float) : float := Math_min (Math_min a b) c.
Definition Math_max3 (a b c : float) : float := Math_max (Math_max a b) c.

(** [v || 1] on a number: 0, -0 and NaN are falsy. *)
Definition or_one (v : float) : float :=
  if (v =? 0) || is_nan v then 1 else v.

(** [Math.floor(v)]: the mantissa is shifted right by the (negative)
    exponent; a negative non-integer rounds away from zero.  Zeros,
    infinities, NaN and values without a fractional part are returned as
    they are. *)
Definition Math_floor (v : float) : float :=
  match Prim2SF v with
  | S754_finite s m e =>
      if (0 <=? e)%Z then v
      else
        let q := Z.shiftr (Zpos m) (- e) in
        let exact := Z.eqb (Z.shiftl q (- e)) (Zpos m) in
        if s then - of_uint63 (Uint63.of_Z (if exact then q else q + 1))
        else of_uint63 (Uint63.of_Z q)
  | _ => v
  end.

(** A value a call either returns or throws. *)
Inductive Result (A : Type) : Type :=
| Ok (v : A)
| Threw (e : nat).
Arguments Ok {A} v.
Arguments Threw {A} e.

End JS.

(** ** three.js r136 value classes *)

Module Vector3.
Local Open Scope float_scope.

Record t : Set := mk { x : float; y : float; z : float }.

Definition set (a b c : float) : t := mk a b c.
Definition zero : t := mk 0 0 0.

Definition add (u v : t) : t := mk (x u + x v) (y u + y v) (z u + z v).
Definition subVectors (u v : t) : t := mk (x u - x v) (y u - y v) (z u - z v).
Definition addVectors (u v : t) : t := add u v.
Definition multiplyScalar (u : t) (s : float) : t := mk (x u * s) (y u * s) (z u * s).
Definition divideScalar (u : t) (s : float) : t := multiplyScalar u (1 / s).
Definition dot (u v : t) : float := x u * x v + y u * y v + z u * z v.
Definition cross (u v : t) : t :=
  mk (y u * z v - z u * y v) (z u * x v - x u * z v) (x u * y v - y u * x v).
Definition lengthSq (u : t) : float := x u * x u + y u * y u + z u * z u.
Definition length (u : t) : float := sqrt (x u * x u + y u * y u + z u * z u).
Definition normalize (u : t) : t := divideScalar u (JS.or_one (length u)).
Definition distanceToSquared (u v : t) : float :=
  let dx := x u - x v in
  let dy := y u - y v in
  let dz := z u - z v in
  dx * dx + dy * dy + dz * dz.
Definition distanceTo (u v : t) : float := sqrt (distanceToSquared u v).
Definition equals (u v : t) : bool := (x v =? x u) && (y v =? y u) && (z v =? z u).

End Vector3.

Module Line3.
Local Open Scope float_scope.

Record t : Set := mk { start : Vector3.t; end_ : Vector3.t }.

Definition delta (l : t) : Vector3.t := Vector3.subVectors (end_ l) (start l).
Definition distanceSq (l : t) : float := Vector3.distanceToSquared (start l) (end_ l).
Definition distance (l : t) : float := Vector3.distanceTo (start l) (end_ l).
Definition at_ (l : t) (s : float) : Vector3.t :=
  Vector3.add (Vector3.multiplyScalar (delta l) s) (start l).

End Line3.

Module Plane.
Local Open Scope float_scope.

Record t : Set := mk { normal : Vector3.t; constant : float }.

Definition setFromNormalAndCoplanarPoint (n p : Vector3.t) : t :=
  mk n (- (Vector3.dot p n)).
Definition distanceToPoint (pl : t) (p : Vector3.t) : float :=
  Vector3.dot (normal pl) p + constant pl.

(** [Plane.intersectLine(line, target)]: [None] is JavaScript's [null]. *)
Definition intersectLine (pl : t) (l : Line3.t) : option Vector3.t :=
  let direction := Line3.delta l in
  let denominator := Vector3.dot (normal pl) direction in
  if denominator =? 0 then
    if distanceToPoint pl (Line3.start l) =? 0 then Some (Line3.start l) else None
  else
    let s := - (Vector3.dot (Line3.start l) (normal pl) + constant pl) / denominator in
    if (s <? 0) || (1 <? s) then None
    else Some (Vector3.add (Vector3.multiplyScalar direction s) (Line3.start l)).

End Plane.

Module Box3.
Local Open Scope float_scope.

Record t : Set := mk { min : Vector3.t; max : Vector3.t }.

Definition containsPoint (b : t) (p : Vector3.t) : bool :=
  if (Vector3.x p <? Vector3.x (min b)) || (Vector3.x (max b) <? Vector3.x p)
     || (Vector3.y p <? Vector3.y (min b)) || (Vector3.y (max b) <? Vector3.y p)
     || (Vector3.z p <? Vector3.z (min b)) || (Vector3.z (max b) <? Vector3.z p)
  then false else true.

End Box3.

Module Ray.
Local Open Scope float_scope.

Record t : Set := mk { origin : Vector3.t; direction : Vector3.t }.

Definition at_ (r : t) (s : float) : Vector3.t :=
  Vector3.add (Vector3.multiplyScalar (direction r) s) (origin r).

(** One slab of [Ray.intersectBox]: entry and exit parameters on one axis. *)
Definition slab (lo hi o invd : float) : float * float :=
  if JS.geb invd 0 then ((lo - o) * invd, (hi - o) * invd)
  else ((hi - o) * invd, (lo - o) * invd).

Definition intersectBox (r : t) (b : Box3.t) : option Vector3.t :=
  let invdirx := 1 / Vector3.x (direction r) in
  let invdiry := 1 / Vector3.y (direction r) in
  let invdirz := 1 / Vector3.z (direction r) in
  let o := origin r in
  let '(tmin, tmax) := slab (Vector3.x (Box3.min b)) (Vector3.x (Box3.max b)) (Vector3.x o) invdirx in
  let '(tymin, tymax) := slab (Vector3.y (Box3.min b)) (Vector3.y (Box3.max b)) (Vector3.y o) invdiry in
  if JS.gtb tmin tymax || JS.gtb tymin tmax then None else
  let tmin := if JS.gtb tymin tmin || is_nan tmin then tymin else tmin in
  let tmax := if (tymax <? tmax) || is_nan tmax then tymax else tmax in
  let '(tzmin, tzmax) := slab (Vector3.z (Box3.min b)) (Vector3.z (Box3.max b)) (Vector3.z o) invdirz in
  if JS.gtb tmin tzmax || JS.gtb tzmin tmax then None else
  let tmin := if JS.gtb tzmin tmin || is_nan tmin then tzmin else tmin in
  let tmax := if (tzmax <? tmax) || is_nan tmax then tzmax else tmax in
  if tmax <? 0 then None
  else Some (at_ r (if JS.geb tmin 0 then tmin else tmax)).

End Ray.

(** three-mesh-bvh's [ExtendedTriangle]: the three vertices, the dirty flag
    and the cached supporting plane that [update()] refreshes.  [points] is
    the array [[a, b, c]] aliasing the vertices. *)

Module ExtendedTriangle.
Local Open Scope float_scope.

Record t : Set := mk { a : Vector3.t; b : Vector3.t; c : Vector3.t;
                       needsUpdate : bool; plane : Plane.t }.

Definition points (tr : t) : list Vector3.t := [a tr; b tr; c tr].

Definition getNormal (tr : t) : Vector3.t :=
  let target := Vector3.cross (Vector3.subVectors (c tr) (b tr))
                              (Vector3.subVectors (a tr) (b tr)) in
  let targetLengthSq := Vector3.lengthSq target in
  if JS.gtb targetLengthSq 0
  then Vector3.multiplyScalar target (1 / sqrt targetLengthSq)
  else Vector3.set 0 0 0.

Definition getArea (tr : t) : float :=
  Vector3.length (Vector3.cross (Vector3.subVectors (c tr) (b tr))
                                (Vector3.subVectors (a tr) (b tr))) * 0.5.

Definition update (tr : t) : t :=
  mk (a tr) (b tr) (c tr) false
     (Plane.setFromNormalAndCoplanarPoint (getNormal tr) (a tr)).

(** A triangle freshly written from three vertices, flagged dirty, with the
    plane of a newly constructed object. *)
Definition fromPoints (p q r : Vector3.t) : t :=
  mk p q r true (Plane.mk (Vector3.set 1 0 0) 0).

(** [Triangle.equals]: exact, order-sensitive vertex equality. *)
Definition equals (t1 t2 : t) : bool :=
  Vector3.equals (a t2) (a t1) && Vector3.equals (b t2) (b t1)
  && Vector3.equals (c t2) (c t1).

End ExtendedTriangle.

(** ** src/utils/triangleLineUtils.js *)

Module TriangleLineUtils.
Local Open Scope float_scope.

Definition EPSILON : float := 1e-16.
Definition DEFAULT_UP_VECTOR : Vector3.t := Vector3.set 0 1 0.

(** The module's private state: the scratch vector [_dir]. *)
Record Scratch : Set := mkScratch { _dir : Vector3.t }.

(** [isYProjectedLineDegenerate(line, projectionVector)]: the result and the
    scratch vector it leaves behind. *)
Definition isYProjectedLineDegenerate (line : Line3.t) (projectionVector : Vector3.t)
    (st : Scratch) : bool * Scratch :=
  let d := Vector3.normalize (Line3.delta line) in
  (JS.geb (abs (Vector3.dot d projectionVector)) (1.0 - EPSILON), mkScratch d).

Definition isProjectedLineDegenerate (line : Line3.t) (projectionVector : Vector3.t)
    (st : Scratch) : bool * Scratch :=
  isYProjectedLineDegenerate line projectionVector st.

(** [isYProjectedTriangleDegenerate(tri, projectionVector)]: the result and
    the triangle object as the call leaves it. *)
Definition isYProjectedTriangleDegenerate (tri : ExtendedTriangle.t)
    (projectionVector : Vector3.t) : bool * ExtendedTriangle.t :=
  let tri := if ExtendedTriangle.needsUpdate tri then ExtendedTriangle.update tri else tri in
  (abs (Vector3.dot (Plane.normal (ExtendedTriangle.plane tri)) projectionVector) <=? EPSILON,
   tri).

Definition isProjectedTriangleDegenerate (tri : ExtendedTriangle.t)
    (projectionVector : Vector3.t) : bool * ExtendedTriangle.t :=
  isYProjectedTriangleDegenerate tri projectionVector.

(** The [for] loop of [isLineTriangleEdge] over the remaining points. *)
Fixpoint edgeLoop (triPoints : list Vector3.t) (start end_ : Vector3.t)
    (startMatches endMatches : bool) : bool :=
  match triPoints with
  | [] => startMatches && endMatches
  | tp :: rest =>
      let startMatches :=
        if negb startMatches && (Vector3.distanceToSquared start tp <=? EPSILON)
        then true else startMatches in
      let endMatches :=
        if negb endMatches && (Vector3.distanceToSquared end_ tp <=? EPSILON)
        then true else endMatches in
      if startMatches && endMatches then true
      else edgeLoop rest start end_ startMatches endMatches
  end.

Definition isLineTriangleEdge (tri : ExtendedTriangle.t) (line : Line3.t) : bool :=
  edgeLoop (ExtendedTriangle.points tri) (Line3.start line) (Line3.end_ line) false false.

End TriangleLineUtils.

(** ** The dominant axis of the projection vector

    [generateIntersectionEdges], [getProjectedLineOverlap] and the sort in
    [ProjectionGenerator.generate] each start with the same three lines and
    the same [if / else if / else] chain on [absX], [absY], [absZ]. *)

Module Projection.
Local Open Scope float_scope.

Inductive Axis : Set := AxisX | AxisY | AxisZ.

Definition dominantAxis (projectionVector : Vector3.t) : Axis :=
  let absX := abs (Vector3.x projectionVector) in
  let absY := abs (Vector3.y projectionVector) in
  let absZ := abs (Vector3.z projectionVector) in
  if JS.geb absX absY && JS.geb absX absZ then AxisX
  else if JS.geb absY absX && JS.geb absY absZ then AxisY
  else AxisZ.

Definition component (ax : Axis) (v : Vector3.t) : float :=
  match ax with
  | AxisX => Vector3.x v
  | AxisY => Vector3.y v
  | AxisZ => Vector3.z v
  end.

End Projection.

(** ** src/utils/getProjectedLineOverlap.js *)

Module ProjectedOverlap.
Import Projection.
Local Open Scope float_scope.

Definition AREA_EPSILON : float := 1e-16.
Definition DIST_EPSILON : float := 1e-16.

(** [v.x = 0], [v.y = 0] or [v.z = 0], by the dominant axis. *)
Definition zeroOut (ax : Axis) (v : Vector3.t) : Vector3.t :=
  match ax with
  | AxisX => Vector3.mk 0 (Vector3.y v) (Vector3.z v)
  | AxisY => Vector3.mk (Vector3.x v) 0 (Vector3.z v)
  | AxisZ => Vector3.mk (Vector3.x v) (Vector3.y v) 0
  end.

(** [_tri] after [_tri.copy(triangle)], the zeroing and [_tri.update()]. *)
Definition flattenTriangle (ax : Axis) (triangle : ExtendedTriangle.t) : ExtendedTriangle.t :=
  ExtendedTriangle.update
    (ExtendedTriangle.mk (zeroOut ax (ExtendedTriangle.a triangle))
                         (zeroOut ax (ExtendedTriangle.b triangle))
                         (zeroOut ax (ExtendedTriangle.c triangle))
                         false (ExtendedTriangle.plane triangle)).

(** [_line] after [_line.copy(line)] and the zeroing. *)
Definition flattenLine (ax : Axis) (line : Line3.t) : Line3.t :=
  Line3.mk (zeroOut ax (Line3.start line)) (zeroOut ax (Line3.end_ line)).

(** [_orthoPlane]: orthogonal to the flattened triangle, containing [_line]. *)
Definition orthoPlane (_line : Line3.t) (_tri : ExtendedTriangle.t) : Plane.t :=
  let _dir := Vector3.normalize (Line3.delta _line) in
  let _dir := Vector3.normalize
                (Vector3.cross _dir (Plane.normal (ExtendedTriangle.plane _tri))) in
  Plane.setFromNormalAndCoplanarPoint _dir (Line3.start _line).

(** One iteration of the sweep: the value of [_point] when the edge
    [p1 -> p2] contributes a crossing, [None] when the [if] is not taken. *)
Definition edgeCrossing (pl : Plane.t) (p1 p2 : Vector3.t) : option Vector3.t :=
  let startIntersects := abs (Plane.distanceToPoint pl p1) <? DIST_EPSILON in
  let endIntersects := abs (Plane.distanceToPoint pl p2) <? DIST_EPSILON in
  let edgeIntersects := Plane.intersectLine pl (Line3.mk p1 p2) in
  if (match edgeIntersects with Some _ => true | None => false end && negb endIntersects)
     || startIntersects
  then Some (match edgeIntersects with Some pt => pt | None => p1 end)
  else None.

(** The [for (let i = 0; i < 3; i++)] loop with its [break]: the edges still
    to visit, [intersectCount] and [_triLine]. *)
Fixpoint sweep (pl : Plane.t) (edges : list (Vector3.t * Vector3.t))
    (intersectCount : nat) (_triLine : Line3.t) : nat * Line3.t :=
  match edges with
  | [] => (intersectCount, _triLine)
  | (p1, p2) :: rest =>
      match edgeCrossing pl p1 p2 with
      | Some _point =>
          let _triLine :=
            if Nat.eqb intersectCount 0
            then Line3.mk _point (Line3.end_ _triLine)
            else Line3.mk (Line3.start _triLine) _point in
          let intersectCount := S intersectCount in
          if Nat.eqb intersectCount 2 then (intersectCount, _triLine)
          else sweep pl rest intersectCount _triLine
      | None => sweep pl rest intersectCount _triLine
      end
  end.

(** [points[i]] with [points[(i + 1) % 3]], for i = 0, 1, 2. *)
Definition triangleEdges (_tri : ExtendedTriangle.t) : list (Vector3.t * Vector3.t) :=
  [ (ExtendedTriangle.a _tri, ExtendedTriangle.b _tri);
    (ExtendedTriangle.b _tri, ExtendedTriangle.c _tri);
    (ExtendedTriangle.c _tri, ExtendedTriangle.a _tri) ].

(** The crossing points found: their number and [_triLine].  The scratch
    line is only read when both of its ends were written by this call. *)
Definition crossings (_line : Line3.t) (_tri : ExtendedTriangle.t) : nat * Line3.t :=
  sweep (orthoPlane _line _tri) (triangleEdges _tri) 0
        (Line3.mk Vector3.zero Vector3.zero).

(** The 1D spans along the line direction: [s1, e1] of the segment and
    [s2, e2] of the triangle. *)
Record Spans : Set := mkSpans { s1 : float; e1 : float; s2 : float; e2 : float }.

Definition spans (_line _triLine : Line3.t) : Spans :=
  let _dir := Vector3.normalize (Line3.delta _line) in
  let _triDir := Vector3.normalize (Line3.delta _triLine) in
  let _triLine :=
    if Vector3.dot _dir _triDir <? 0
    then Line3.mk (Line3.end_ _triLine) (Line3.start _triLine)
    else _triLine in
  mkSpans 0
    (Vector3.dot (Vector3.subVectors (Line3.end_ _line) (Line3.start _line)) _dir)
    (Vector3.dot (Vector3.subVectors (Line3.start _triLine) (Line3.start _line)) _dir)
    (Vector3.dot (Vector3.subVectors (Line3.end_ _triLine) (Line3.start _line)) _dir).

(** [separated1 || separated2]. *)
Definition separated (sp : Spans) : bool := (e1 sp <=? s2 sp) || (e2 sp <=? s1 sp).

(** The two [line.at(...)] calls: interpolation on the original line. *)
Definition overlapOf (line _line : Line3.t) (sp : Spans) : Line3.t :=
  Line3.mk (Line3.at_ line (JS.Math_max (s1 sp) (s2 sp) / Line3.distance _line))
           (Line3.at_ line (JS.Math_min (e1 sp) (e2 sp) / Line3.distance _line)).

(** [getProjectedLineOverlap(line, triangle, lineTarget, projectionVector)]:
    the value written to [lineTarget], a line object distinct from [line];
    [None] is [null]. *)
Definition getProjectedLineOverlap (line : Line3.t) (triangle : ExtendedTriangle.t)
    (projectionVector : Vector3.t) : option Line3.t :=
  let ax := dominantAxis projectionVector in
  let _tri := flattenTriangle ax triangle in
  let _line := flattenLine ax line in
  if ExtendedTriangle.getArea _tri <=? AREA_EPSILON then None
  else
    let '(intersectCount, _triLine) := crossings _line _tri in
    if Nat.eqb intersectCount 2 then
      let sp := spans _line _triLine in
      if separated sp then None
      else Some (overlapOf line _line sp)
    else None.

End ProjectedOverlap.

(** ** three-mesh-bvh 0.5.19: the spatial index and its traversal

    The index is used through [geometry] and [shapecast] only.  A node
    stores the bounding boxes of its two children; a leaf is a range of
    triangles.  [shapecast] hands each triangle to the callback in a cached
    triangle object it has just rewritten and flagged [needsUpdate]; a
    callback returning a truthy value ends the whole traversal. *)

Module MeshBVH.
Local Open Scope float_scope.

Record Geometry : Set := mkGeometry { index : option (list nat); position : list Vector3.t }.

Inductive Node : Set :=
| Leaf (offset count : nat)
| Internal (box1 : Box3.t) (c1 : Node) (box2 : Box3.t) (c2 : Node).

Record t : Set := mk { geometry : Geometry; root : Node }.

(** Reading past the end of a typed array gives [undefined], which
    arithmetic and comparisons treat as NaN. *)
Definition undefinedVector : Vector3.t := Vector3.mk nan nan nan.

Definition fromBufferAttribute (posAttr : list Vector3.t) (i : nat) : Vector3.t :=
  nth i posAttr undefinedVector.

(** Vertex number [i] of the triangle soup, through the index when there
    is one. *)
Definition vertexAt (geo : Geometry) (i : nat) : Vector3.t :=
  match index geo with
  | Some ix =>
      match nth_error ix i with
      | Some k => fromBufferAttribute (position geo) k
      | None => undefinedVector
      end
  | None => fromBufferAttribute (position geo) i
  end.

(** [setTriangle(tri, i, index, pos)] followed by [tri.needsUpdate = true]. *)
Definition setTriangle (geo : Geometry) (i : nat) : ExtendedTriangle.t :=
  ExtendedTriangle.fromPoints (vertexAt geo i) (vertexAt geo (i + 1)) (vertexAt geo (i + 2)).

Section Shapecast.
Context {S : Type}.
Variable geo : Geometry.
Variable intersectsBounds : Box3.t -> bool.
Variable intersectsTriangle : ExtendedTriangle.t -> S -> bool * S.

(** The triangles [offset .. offset + count - 1] of a leaf, until the
    callback asks to stop. *)
Fixpoint iterateOverTriangles (tris : list nat) (s : S) : bool * S :=
  match tris with
  | [] => (false, s)
  | i :: rest =>
      let '(stop, s) := intersectsTriangle (setTriangle geo (3 * i)) s in
      if stop then (true, s) else iterateOverTriangles rest s
  end.

Fixpoint shapecastTraverse (node : Node) (s : S) : bool * S :=
  match node with
  | Leaf offset count => iterateOverTriangles (seq offset count) s
  | Internal box1 c1 box2 c2 =>
      let '(c1StopTraversal, s) :=
        if intersectsBounds box1 then shapecastTraverse c1 s else (false, s) in
      if c1StopTraversal then (true, s)
      else if intersectsBounds box2 then shapecastTraverse c2 s else (false, s)
  end.

End Shapecast.

Definition shapecast {S : Type} (bvh : t) (intersectsBounds : Box3.t -> bool)
    (intersectsTriangle : ExtendedTriangle.t -> S -> bool * S) (s : S) : bool * S :=
  shapecastTraverse (geometry bvh) intersectsBounds intersectsTriangle (root bvh) s.

(** The triangles a traversal that is never told to stop hands to the
    callback, in order. *)
Fixpoint admitted (intersectsBounds : Box3.t -> bool) (node : Node) : list nat :=
  match node with
  | Leaf offset count => seq offset count
  | Internal box1 c1 box2 c2 =>
      (if intersectsBounds box1 then admitted intersectsBounds c1 else [])
      ++ (if intersectsBounds box2 then admitted intersectsBounds c2 else [])
  end.

End MeshBVH.

(** ** The functions the embedded modules import from outside the tree *)

Module Env.

(** A hidden sub-range [(t0, t1)] of an edge. *)
Definition Interval : Set := (float * float)%type.

Record t : Type := mk {
  (** three-mesh-bvh: [box.intersectsTriangle(tri)] *)
  box_intersectsTriangle : Box3.t -> ExtendedTriangle.t -> bool;
  (** three-mesh-bvh: [tri.intersectsTriangle(other, target, true)]; [Some]
      carries the segment written to [target] when the call returns true *)
  tri_intersectsTriangle : ExtendedTriangle.t -> ExtendedTriangle.t -> option Line3.t;
  (** [./utils/generateEdges.js] *)
  generateEdges : MeshBVH.Geometry -> Vector3.t -> float -> JS.Result (list Line3.t);
  (** [./utils/trimToBeneathTriPlane.js]; [Some] carries [lineTarget] *)
  trimToBeneathTriPlane : ExtendedTriangle.t -> Line3.t -> Vector3.t -> option Line3.t;
  (** [./utils/getProjectedOverlaps.js]: the returned flag and the array *)
  appendOverlapRange : Line3.t -> Line3.t -> list Interval -> bool * list Interval;
  (** [./utils/overlapUtils.js] *)
  compressEdgeOverlaps : list Interval -> list Interval;
  overlapsToLines : Line3.t -> list Interval -> list Line3.t -> list Line3.t
}.

End Env.

(** ** src/utils/generateIntersectionEdges.js *)

Module IntersectionEdges.
Import Projection.
Local Open Scope float_scope.

Definition OFFSET_EPSILON : float := 1e-6.
Definition _defaultVector : Vector3.t := Vector3.set 0 1 0.

Definition offsetVector (projectionVector : Vector3.t) : Vector3.t :=
  match dominantAxis projectionVector with
  | AxisX => Vector3.set OFFSET_EPSILON 0 0
  | AxisY => Vector3.set 0 OFFSET_EPSILON 0
  | AxisZ => Vector3.set 0 0 OFFSET_EPSILON
  end.

(** [vertCount = index ? index.count : posAttr]: without an index the bound
    is the attribute object itself, [i < posAttr] is false and the loop
    body never runs. *)
Definition vertCount (geo : MeshBVH.Geometry) : nat :=
  match MeshBVH.index geo with
  | Some ix => List.length ix
  | None => 0
  end.

(** The values of [i] in [for (let i = 0; i < vertCount; i += 3)]. *)
Definition outerIndices (n : nat) : list nat :=
  map (fun k => 3 * k)%nat (seq 0 ((n + 2) / 3)).

(** [_tri] after the three [fromBufferAttribute] calls and [_tri.update()]. *)
Definition outerTriangle (geo : MeshBVH.Geometry) (i : nat) : ExtendedTriangle.t :=
  ExtendedTriangle.update (MeshBVH.setTriangle geo i).

(** The segment pushed for the pair, if any: every test of the
    [intersectsTriangle] callback from [_tri.equals(tri2)] on. *)
Definition pairEdge (env : Env.t) (off : Vector3.t) (_tri tri2 : ExtendedTriangle.t)
    : option Line3.t :=
  if ExtendedTriangle.equals _tri tri2 then None
  else
    let tri2 := if ExtendedTriangle.needsUpdate tri2 then ExtendedTriangle.update tri2 else tri2 in
    if JS.gtb (abs (Vector3.dot (Plane.normal (ExtendedTriangle.plane _tri))
                                (Plane.normal (ExtendedTriangle.plane tri2))))
              (1 - 1e-6)
    then None
    else
      match Env.tri_intersectsTriangle env _tri tri2 with
      | Some _line =>
          if negb (TriangleLineUtils.isLineTriangleEdge _tri _line)
             && negb (TriangleLineUtils.isLineTriangleEdge tri2 _line)
          then Some (Line3.mk (Vector3.add (Line3.start _line) off)
                              (Vector3.add (Line3.end_ _line) off))
          else None
      | None => None
      end.

(** The [intersectsTriangle] callback: it pushes onto [edges] and never
    returns a truthy value. *)
Definition intersectsTriangle (env : Env.t) (off : Vector3.t) (_tri tri2 : ExtendedTriangle.t)
    (edges : list Line3.t) : bool * list Line3.t :=
  match pairEdge env off _tri tri2 with
  | Some e => (false, edges ++ [e])
  | None => (false, edges)
  end.

(** The body of the outer loop for one value of [i]. *)
Definition outerStep (env : Env.t) (bvh : MeshBVH.t) (off : Vector3.t)
    (edges : list Line3.t) (i : nat) : list Line3.t :=
  let _tri := outerTriangle (MeshBVH.geometry bvh) i in
  snd (MeshBVH.shapecast bvh
         (fun box => Env.box_intersectsTriangle env box _tri)
         (intersectsTriangle env off _tri) edges).

(** [generateIntersectionEdges(bvh, iterationTime, projectionVector)]: the
    value the generator returns.  Its [yield]s depend on the clock only and
    carry no value. *)
Definition generateIntersectionEdges (env : Env.t) (bvh : MeshBVH.t)
    (projectionVector : Vector3.t) : list Line3.t :=
  fold_left (outerStep env bvh (offsetVector projectionVector))
            (outerIndices (vertCount (MeshBVH.geometry bvh))) [].

End IntersectionEdges.

(** ** The overlap interval algebra (src/utils/overlapUtils.js and
    src/utils/getProjectedOverlaps.js, both outside the tree) *)

Module OverlapUtils.
Local Open Scope float_scope.

(** Insertion of one interval in front of a list ordered by [t0]: it goes
    past the intervals that start strictly earlier, so intervals with an
    equal [t0] keep their order. *)
Fixpoint insertByStart (i : Env.Interval) (l : list Env.Interval) : list Env.Interval :=
  match l with
  | [] => [i]
  | j :: rest => if fst j <? fst i then j :: insertByStart i rest else i :: j :: rest
  end.

Definition sortByStart (l : list Env.Interval) : list Env.Interval :=
  fold_right insertByStart [] l.

(** One pass over a list ordered by [t0]: [cur] absorbs every following
    interval that starts at or before its end. *)
Fixpoint mergeFrom (cur : Env.Interval) (rest : list Env.Interval) : list Env.Interval :=
  match rest with
  | [] => [cur]
  | nxt :: rest' =>
      if fst nxt <=? snd cur
      then mergeFrom (fst cur, JS.Math_max (snd cur) (snd nxt)) rest'
      else cur :: mergeFrom nxt rest'
  end.

(** Modelled from the spec: [compressEdgeOverlaps] of overlapUtils.js is not
    in the tree.  Section 4.5: it "sorts intervals by t0 and merges any that
    overlap or touch, producing the minimal disjoint cover". *)
Definition compressEdgeOverlaps (overlaps : list Env.Interval) : list Env.Interval :=
  match sortByStart overlaps with
  | [] => []
  | first :: rest => mergeFrom first rest
  end.

(** Modelled from the spec: [appendOverlapRange] of getProjectedOverlaps.js
    is not in the tree.  Section 4.5: it "converts the overlap sub-segment to
    a (t0,t1) interval relative to edge's own parametrization and inserts it
    into intervalSet (returns whether the set changed)".  The parameter of a
    point is its distance from the edge's start over the edge's length. *)
Definition appendOverlapRange (line overlapLine : Line3.t) (overlaps : list Env.Interval)
    : bool * list Env.Interval :=
  let len := Line3.distance line in
  let d0 := Vector3.distanceTo (Line3.start overlapLine) (Line3.start line) / len in
  let d1 := Vector3.distanceTo (Line3.end_ overlapLine) (Line3.start line) / len in
  (true, overlaps ++ [(d0, d1)]).

(** The gaps left by sorted disjoint intervals, from [cursor] up to 1. *)
Fixpoint gapsFrom (cursor : float) (overlaps : list Env.Interval) : list Env.Interval :=
  match overlaps with
  | [] => if cursor <? 1 then [(cursor, 1)] else []
  | (t0, t1) :: rest =>
      if cursor <? t0 then (cursor, t0) :: gapsFrom t1 rest else gapsFrom t1 rest
  end.

(** Modelled from the spec: [overlapsToLines] of overlapUtils.js is not in
    the tree.  Section 4.5: it "emits the complementary visible sub-segments
    of edge (the gaps between 0, the intervals, and 1) as Visible Segments
    into outputList; an interval set covering exactly [0,1] yields no
    output".  An emitted segment is shown as the line between its two ends. *)
Definition overlapsToLines (line : Line3.t) (overlaps : list Env.Interval)
    (target : list Line3.t) : list Line3.t :=
  target ++ map (fun g => Line3.mk (Line3.at_ line (fst g)) (Line3.at_ line (snd g)))
                (gapsFrom 0 overlaps).

End OverlapUtils.

(** ** src/ProjectionGenerator.js *)

Module ProjectionGenerator.
Import Projection.
Local Open Scope float_scope.

Definition DIST_THRESHOLD : float := 1e-10.

Record EdgeSet : Set := mkEdgeSet { edges : list Line3.t }.

(** The fields the constructor sets. *)
Record t : Set := mk {
  sortEdges : bool;
  iterationTime : float;
  angleThreshold : float;
  includeIntersectionEdges : bool;
  projectionVector : Vector3.t
}.

Definition new : t := mk true 30 50 true (Vector3.set 0 1 0).

(** [edges.sort((a, b) => key(a) - key(b))]: for a comparator that orders
    the keys, the stable sorted order. *)
Fixpoint insertByKey (key : Line3.t -> float) (e : Line3.t) (l : list Line3.t) : list Line3.t :=
  match l with
  | [] => [e]
  | h :: rest => if key h <? key e then h :: insertByKey key e rest else e :: h :: rest
  end.

Definition sortByKey (key : Line3.t -> float) (l : list Line3.t) : list Line3.t :=
  fold_right (insertByKey key) [] l.

(** The key of the sort: the lower end of the edge on the dominant axis. *)
Definition sortKey (projectionVector : Vector3.t) (e : Line3.t) : float :=
  let ax := dominantAxis projectionVector in
  JS.Math_min (component ax (Line3.start e)) (component ax (Line3.end_ e)).

(** [lowestLineY] and [highestLineY]. *)
Definition lowestLineY (line : Line3.t) : float :=
  JS.Math_min (Vector3.y (Line3.start line)) (Vector3.y (Line3.end_ line)).
Definition highestLineY (line : Line3.t) : float :=
  JS.Math_max (Vector3.y (Line3.start line)) (Vector3.y (Line3.end_ line)).

(** The [intersectsBounds] callback of the occlusion query. *)
Definition intersectsBounds (line : Line3.t) (box : Box3.t) : bool :=
  let box :=
    Box3.mk (Vector3.mk (Vector3.x (Box3.min box))
                        (JS.Math_min (lowestLineY line - 1e-6) (Vector3.y (Box3.min box)))
                        (Vector3.z (Box3.min box)))
            (Box3.max box) in
  let _ray := Ray.mk (Line3.start line) (Vector3.normalize (Line3.delta line)) in
  if Box3.containsPoint box (Ray.origin _ray) then true
  else
    match Ray.intersectBox _ray box with
    | Some _vec => Vector3.distanceToSquared (Ray.origin _ray) _vec <? Line3.distanceSq line
    | None => false
    end.

(** [const [d0, d1] = hiddenOverlaps[hiddenOverlaps.length - 1];
     return d0 === 0.0 && d1 === 1.0], and [false] on an empty array. *)
Definition fullyHidden (hiddenOverlaps : list Env.Interval) : bool :=
  match hiddenOverlaps with
  | [] => false
  | _ =>
      let '(d0, d1) := last hiddenOverlaps (0, 0) in
      (d0 =? 0.0) && (d1 =? 1.0)
  end.

(** The first test of the [intersectsTriangle] callback. *)
Definition triangleBelowLine (line : Line3.t) (tri : ExtendedTriangle.t) : bool :=
  let highestTriangleY :=
    JS.Math_max3 (Vector3.y (ExtendedTriangle.a tri)) (Vector3.y (ExtendedTriangle.b tri))
                 (Vector3.y (ExtendedTriangle.c tri)) in
  highestTriangleY <=? lowestLineY line.

(** [_beneathLine] when the callback gets past the trimming step. *)
Definition beneathLine (env : Env.t) (projectionVector : Vector3.t) (line : Line3.t)
    (tri : ExtendedTriangle.t) : option Line3.t :=
  let lowestTriangleY :=
    JS.Math_min3 (Vector3.y (ExtendedTriangle.a tri)) (Vector3.y (ExtendedTriangle.b tri))
                 (Vector3.y (ExtendedTriangle.c tri)) in
  if highestLineY line <? lowestTriangleY then Some line
  else Env.trimToBeneathTriPlane env tri line projectionVector.

(** The [intersectsTriangle] callback of the occlusion query: its return
    value and [hiddenOverlaps] as it leaves it. *)
Definition intersectsTriangle (env : Env.t) (projectionVector : Vector3.t) (line : Line3.t)
    (tri : ExtendedTriangle.t) (hiddenOverlaps : list Env.Interval)
    : bool * list Env.Interval :=
  if triangleBelowLine line tri then (false, hiddenOverlaps)
  else
    let '(degenerate, tri) :=
      TriangleLineUtils.isProjectedTriangleDegenerate tri projectionVector in
    if degenerate then (false, hiddenOverlaps)
    else if TriangleLineUtils.isLineTriangleEdge tri line then (false, hiddenOverlaps)
    else
      match beneathLine env projectionVector line tri with
      | None => (false, hiddenOverlaps)
      | Some _beneathLine =>
          if Line3.distance _beneathLine <? DIST_THRESHOLD then (false, hiddenOverlaps)
          else
            let hiddenOverlaps :=
              match ProjectedOverlap.getProjectedLineOverlap _beneathLine tri projectionVector with
              | Some _overlapLine =>
                  let '(changed, hiddenOverlaps) :=
                    Env.appendOverlapRange env line _overlapLine hiddenOverlaps in
                  if changed then Env.compressEdgeOverlaps env hiddenOverlaps
                  else hiddenOverlaps
              | None => hiddenOverlaps
              end in
            (fullyHidden hiddenOverlaps, hiddenOverlaps)
      end.

(** The occlusion query of one candidate edge: [bvh.shapecast] started on an
    empty [hiddenOverlaps]. *)
Definition occlusionQuery (env : Env.t) (bvh : MeshBVH.t) (projectionVector : Vector3.t)
    (line : Line3.t) : bool * list Env.Interval :=
  MeshBVH.shapecast bvh (intersectsBounds line)
                    (intersectsTriangle env projectionVector line) [].

(** The body of the trimming loop for one candidate edge.  The scratch
    vector of triangleLineUtils.js is written before it is read, so the
    call is given a fresh one. *)
Definition trimStep (env : Env.t) (bvh : MeshBVH.t) (projectionVector : Vector3.t)
    (finalEdges : list Line3.t) (line : Line3.t) : list Line3.t :=
  if fst (TriangleLineUtils.isProjectedLineDegenerate line projectionVector
            (TriangleLineUtils.mkScratch Vector3.zero))
  then finalEdges
  else
    let hiddenOverlaps := snd (occlusionQuery env bvh projectionVector line) in
    Env.overlapsToLines env line hiddenOverlaps finalEdges.

(** Everything after candidate extraction: the optional sort and the
    trimming loop. *)
Definition resolveEdges (env : Env.t) (g : t) (bvh : MeshBVH.t) (edges : list Line3.t)
    : EdgeSet :=
  let edges :=
    if sortEdges g then sortByKey (sortKey (projectionVector g)) edges else edges in
  mkEdgeSet (fold_left (trimStep env bvh (projectionVector g)) edges []).

(** [*generate(bvh, options)] on an index already built: the value the
    generator returns, or what [generateEdges] threw.  The [yield]s and the
    progress callback depend on the clock only. *)
Definition generate (env : Env.t) (g : t) (bvh : MeshBVH.t) : JS.Result EdgeSet :=
  let geometry := MeshBVH.geometry bvh in
  match Env.generateEdges env geometry (projectionVector g) (angleThreshold g) with
  | JS.Threw e => JS.Threw e
  | JS.Ok edges =>
      let edges :=
        if includeIntersectionEdges g
        then edges ++ IntersectionEdges.generateIntersectionEdges env bvh (projectionVector g)
        else edges in
      JS.Ok (resolveEdges env g bvh edges)
  end.

End ProjectionGenerator.

(** ** src/utils/postProcessing.js

    A [LineSegment] object is known by its position in the array
    [buildTopology] returns; [connections] and the arrays of lines hold such
    positions, so that the writes to [componentId] are seen through every
    reference. *)

Module PostProcessing.
Local Open Scope float_scope.

Definition POINT_TOLERANCE : float := 0.0001.
Definition MIN_LINE_LENGTH : float := 0.03.
Definition MAX_PARALLEL_DISTANCE : float := 0.01.
Definition MIN_CONNECTED_LINES : nat := 2.
Definition MIN_COMPONENT_SIZE : nat := 3.
Definition DENSITY_CELL_SIZE : float := 0.05.
Definition C1_ANGLE_THRESHOLD : float := 0.15.

Record LineSegment : Set := mkLineSegment {
  start : Vector3.t;
  end_ : Vector3.t;
  length : float;
  direction : Vector3.t;
  isValid : bool;
  connections : list nat;
  componentId : Z;
  hasC1Continuity : bool
}.

(** [new LineSegment(start, end)]. *)
Definition newLineSegment (s e : Vector3.t) : LineSegment :=
  mkLineSegment s e (Vector3.distanceTo s e)
                (Vector3.normalize (Vector3.subVectors e s))
                true [] (-1) false.

Definition isAxisAligned (l : LineSegment) : bool :=
  let AXIS_THRESHOLD := 0.1 in
  JS.gtb (abs (Vector3.x (direction l))) (1 - AXIS_THRESHOLD)
  || JS.gtb (abs (Vector3.y (direction l))) (1 - AXIS_THRESHOLD)
  || JS.gtb (abs (Vector3.z (direction l))) (1 - AXIS_THRESHOLD).

(** The heap of line objects, and a line read through a reference.  A
    reference outside the heap does not occur; it reads as a labelled line
    without connections. *)
Definition Heap : Set := list LineSegment.

Definition danglingLine : LineSegment :=
  mkLineSegment Vector3.zero Vector3.zero 0 Vector3.zero false [] 0 false.

Definition deref (h : Heap) (r : nat) : LineSegment := nth r h danglingLine.

Definition setComponentId (l : LineSegment) (cid : Z) : LineSegment :=
  mkLineSegment (start l) (end_ l) (length l) (direction l) (isValid l)
                (connections l) cid (hasC1Continuity l).

(** [line.componentId = cid] through the reference [r]. *)
Fixpoint writeComponentId (h : Heap) (r : nat) (cid : Z) : Heap :=
  match h, r with
  | [], _ => []
  | l :: rest, O => setComponentId l cid :: rest
  | l :: rest, S r' => l :: writeComponentId rest r' cid
  end.

(** [components]: a [Map] from component number to the [Set] of its lines,
    both in insertion order. *)
Definition Components : Set := list (Z * list nat).

Fixpoint componentsGet (components : Components) (cid : Z) : option (list nat) :=
  match components with
  | [] => None
  | (k, members) :: rest => if Z.eqb k cid then Some members else componentsGet rest cid
  end.

(** [components.get(cid).add(r)], after the [components.set(cid, new Set())]
    of a component seen for the first time. *)
Fixpoint componentsAdd (components : Components) (cid : Z) (r : nat) : Components :=
  match components with
  | [] => [(cid, [r])]
  | (k, members) :: rest =>
      if Z.eqb k cid
      then (k, if existsb (Nat.eqb r) members then members else members ++ [r]) :: rest
      else (k, members) :: componentsAdd rest cid r
  end.

(** The state [findConnectedComponents] and its closure [dfs] share. *)
Record Labelling : Set := mkLabelling {
  heap : Heap;
  components : Components;
  currentComponent : Z
}.

Definition unlabelled (st : Labelling) (r : nat) : bool :=
  Z.eqb (componentId (deref (heap st) r)) (-1).

(** The two writes that open [dfs]. *)
Definition label (st : Labelling) (r : nat) : Labelling :=
  mkLabelling (writeComponentId (heap st) r (currentComponent st))
              (componentsAdd (components st) (currentComponent st) r)
              (currentComponent st).

(** [for (const connected of line.connections)], the recursive call being
    [visit]; [None] when a call ran out of depth. *)
Fixpoint forConnections (visit : nat -> Labelling -> option Labelling)
    (conns : list nat) (st : Labelling) : option Labelling :=
  match conns with
  | [] => Some st
  | connected :: rest =>
      if unlabelled st connected
      then match visit connected st with
           | Some st => forConnections visit rest st
           | None => None
           end
      else forConnections visit rest st
  end.

(** [dfs(line)], with a bound on the depth of the recursion. *)
Fixpoint dfs (depth : nat) (line : nat) (st : Labelling) : option Labelling :=
  match depth with
  | O => None
  | S depth =>
      if negb (unlabelled st line) then Some st
      else
        let st := label st line in
        forConnections (dfs depth) (connections (deref (heap st) line)) st
  end.

(** The loop [for (const line of lines)] of [findConnectedComponents]. *)
Fixpoint labelAll (lines : list nat) (st : Labelling) : option Labelling :=
  match lines with
  | [] => Some st
  | line :: rest =>
      if unlabelled st line
      then match dfs (List.length (heap st)) line st with
           | Some st =>
               labelAll rest (mkLabelling (heap st) (components st) (currentComponent st + 1))
           | None => None
           end
      else labelAll rest st
  end.

(** [findConnectedComponents(lines)]: the heap as the labelling leaves it
    and the map it returns.  No chain of calls is deeper than the number of
    line objects. *)
Definition findConnectedComponents (h : Heap) (lines : list nat) : option (Heap * Components) :=
  match labelAll lines (mkLabelling h [] 0) with
  | Some st => Some (heap st, components st)
  | None => None
  end.

(** First pass of [filterLines]: the predicate of the first [filter]. *)
Definition firstPassKeeps (l : LineSegment) : bool :=
  if isAxisAligned l then JS.geb (length l) (MIN_LINE_LENGTH * 0.5)
  else
    let hasGoodConnections := Nat.leb MIN_CONNECTED_LINES (List.length (connections l)) in
    let isLongEnough := JS.geb (length l) MIN_LINE_LENGTH in
    (isLongEnough && hasGoodConnections) || hasC1Continuity l.

Definition firstPass (h : Heap) (lines : list nat) : list nat :=
  filter (fun r => firstPassKeeps (deref h r)) lines.

(** Second pass: the test that puts a component into [validComponents]. *)
Definition componentIsValid (h : Heap) (componentLines : list nat) : bool :=
  let hasC1Lines := existsb (fun r => hasC1Continuity (deref h r)) componentLines in
  let hasAxisAlignedLines := existsb (fun r => isAxisAligned (deref h r)) componentLines in
  Nat.leb MIN_COMPONENT_SIZE (List.length componentLines) || hasC1Lines || hasAxisAlignedLines.

Definition validComponents (h : Heap) (components : Components) : list Z :=
  map fst (filter (fun entry => componentIsValid h (snd entry)) components).

(** Second pass: labelling, [validComponents] and the second [filter]. *)
Definition secondPass (h : Heap) (lines : list nat) : option (Heap * Components * list nat) :=
  match findConnectedComponents h lines with
  | Some (h, components) =>
      let valid := validComponents h components in
      Some (h, components,
            filter (fun r => existsb (Z.eqb (componentId (deref h r))) valid) lines)
  | None => None
  end.

(** Third pass: the bucket of a midpoint.  The key is a string of three
    numbers; two keys are the same string when the numbers are equal, NaN
    printing as itself and both zeros as 0. *)
Definition densityKey (l : LineSegment) : float * float * float :=
  let midpoint := Vector3.multiplyScalar (Vector3.addVectors (start l) (end_ l)) 0.5 in
  (JS.Math_floor (Vector3.x midpoint / DENSITY_CELL_SIZE),
   JS.Math_floor (Vector3.y midpoint / DENSITY_CELL_SIZE),
   JS.Math_floor (Vector3.z midpoint / DENSITY_CELL_SIZE)).

Definition sameNumeral (u v : float) : bool := (u =? v) || (is_nan u && is_nan v).

Definition sameKey (k1 k2 : float * float * float) : bool :=
  let '(x1, y1, z1) := k1 in
  let '(x2, y2, z2) := k2 in
  sameNumeral x1 x2 && sameNumeral y1 y2 && sameNumeral z1 z2.




End PostProcessing.

(** ** The order of binary64 numbers

    Every number, NaN apart, is given an integer code that grows with it;
    the comparison operators are then read off the codes. *)

Module FloatOrder.

Definition isNumber (f : spec_float) : bool :=
  match f with S754_nan => false | _ => true end.

Definition nanFlag (f : spec_float) : Z := if isNumber f then 0%Z else 1%Z.

(** Class, exponent and mantissa, each signed so that the lexicographic
    order of the triples is the order of the numbers. *)
Definition rank (f : spec_float) : Z * Z * Z :=
  match f with
  | S754_nan => (0, 0, 0)%Z
  | S754_infinity true => (-2, 0, 0)%Z
  | S754_infinity false => (2, 0, 0)%Z
  | S754_zero _ => (0, 0, 0)%Z
  | S754_finite true m e => (-1, - e, - Zpos m)%Z
  | S754_finite false m e => (1, e, Zpos m)%Z
  end.

Definition lexlt (p q : Z * Z * Z) : Prop :=
  let '(p1, p2, p3) := p in
  let '(q1, q2, q3) := q in
  (p1 < q1 \/ (p1 = q1 /\ (p2 < q2 \/ (p2 = q2 /\ p3 < q3))))%Z.

(** 2^53, above every mantissa. *)
Definition mantissaBound : Z := 9007199254740992%Z.

Definition code (f : spec_float) : Z :=
  let '(cls, e, m) := rank f in
  (cls * (4000 * mantissaBound) + e * mantissaBound + m)%Z.

(** The code of a JavaScript number, and 1 when it is NaN. *)
Definition codeOf (a : float) : Z := code (Prim2SF a).
Definition nanOf (a : float) : Z := nanFlag (Prim2SF a).

End FloatOrder.

(** ** What the labelling of connected components maintains *)

Module Labelled.
Import PostProcessing.

(** The number of lines of the heap that carry no label yet. *)
Definition pending (h : Heap) : nat :=
  List.length (filter (fun l => Z.eqb (componentId l) (-1)) h).

(** The map and the labels agree: no component number occurs twice in the
    map or is -1, the members of a component carry its number, and a
    labelled line is a member of the component whose number it carries. *)
Record Consistent (st : Labelling) : Prop := mkConsistent {
  current_nonneg : (0 <= currentComponent st)%Z;
  keys_distinct : NoDup (map fst (components st));
  members_labelled :
    forall k members,
      componentsGet (components st) k = Some members ->
      k <> (-1)%Z /\ forall j, In j members -> componentId (deref (heap st) j) = k;
  labelled_member :
    forall j,
      (j < List.length (heap st))%nat ->
      componentId (deref (heap st) j) <> (-1)%Z ->
      exists members,
        componentsGet (components st) (componentId (deref (heap st) j)) = Some members
        /\ In j members
}.

(** From [st] to [st']: the same line objects, [componentId] apart, and no
    label taken back. *)
Record Grows (st st' : Labelling) : Prop := mkGrows {
  same_length : List.length (heap st') = List.length (heap st);
  fewer_pending : (pending (heap st') <= pending (heap st))%nat;
  labels_kept : forall j, unlabelled st j = false -> unlabelled st' j = false;
  fields_kept :
    forall j, setComponentId (deref (heap st') j) 0 = setComponentId (deref (heap st) j) 0
}.

(** What a call of [dfs], or the loop over the connections, returns when
    started in [st]. *)
Definition Labels (st : Labelling) (res : option Labelling) : Prop :=
  exists st',
    res = Some st' /\ Consistent st' /\ Grows st st'
    /\ currentComponent st' = currentComponent st.


(** The line objects as [buildTopology] leaves them: none labelled. *)
Definition fresh (h : Heap) : Prop := Forall (fun l => componentId l = (-1)%Z) h.

End Labelled.

(** ** The properties as the specification words them

    Each definition below follows a sentence of the specification rather
    than the code; the theorems compare the code with them. *)

Module SpecWords.
Import Projection.
Local Open Scope float_scope.

(** "E's vertical extent along the projection axis": the lowest and the
    highest coordinate of the edge on that axis. *)
Definition extentAlong (ax : Axis) (line : Line3.t) : float * float :=
  (JS.Math_min (component ax (Line3.start line)) (component ax (Line3.end_ line)),
   JS.Math_max (component ax (Line3.start line)) (component ax (Line3.end_ line))).

(** "the triangle is entirely on the far (non-occluding) side of E",
    measured along the axis [ax]. *)
Definition triangleFarSideAlong (ax : Axis) (line : Line3.t) (tri : ExtendedTriangle.t) : bool :=
  JS.Math_max3 (component ax (ExtendedTriangle.a tri)) (component ax (ExtendedTriangle.b tri))
               (component ax (ExtendedTriangle.c tri))
  <=? fst (extentAlong ax line).

(** "coincide (within squared-distance tolerance)". *)
Definition coincide (p q : Vector3.t) : bool :=
  Vector3.distanceToSquared p q <=? TriangleLineUtils.EPSILON.

(** "both endpoints of edge coincide with two of the triangle's three
    vertices, in either order": two different vertices of the triangle. *)
Definition matchesTwoVertices (tri : ExtendedTriangle.t) (line : Line3.t) : bool :=
  let s := Line3.start line in
  let e := Line3.end_ line in
  let a := ExtendedTriangle.a tri in
  let b := ExtendedTriangle.b tri in
  let c := ExtendedTriangle.c tri in
  (coincide s a && (coincide e b || coincide e c))
  || (coincide s b && (coincide e a || coincide e c))
  || (coincide s c && (coincide e a || coincide e b)).

(** Each endpoint coincides with some vertex, possibly the same one. *)
Definition matchesSomeVertex (tri : ExtendedTriangle.t) (p : Vector3.t) : bool :=
  coincide p (ExtendedTriangle.a tri) || coincide p (ExtendedTriangle.b tri)
  || coincide p (ExtendedTriangle.c tri).

(** "the absolute dot product ... is within epsilon of 1". *)
Definition withinEpsilonOfOne (d : float) : bool :=
  abs (abs d - 1) <=? TriangleLineUtils.EPSILON.

(** "intervals (t0,t1) with 0 <= t0 <= t1 <= 1". *)
Definition validInterval (i : Env.Interval) : Prop :=
  (0 <=? fst i) = true /\ (fst i <=? snd i) = true /\ (snd i <=? 1) = true.

(** An interval with its ends in order. *)
Definition wellFormed (i : Env.Interval) : Prop := (fst i <=? snd i) = true.

(** The point [x] lies in the closed interval, and in the union of a list
    of intervals. *)
Definition inInterval (i : Env.Interval) (x : float) : Prop :=
  (fst i <=? x) = true /\ (x <=? snd i) = true.
Definition covered (l : list Env.Interval) (x : float) : Prop :=
  exists i, In i l /\ inInterval i x.

(** "sorted by t0": every interval starts no later than those after it. *)
Definition startsBefore (u v : Env.Interval) : Prop := (fst u <=? fst v) = true.
Definition sortedByStart (l : list Env.Interval) : Prop := StronglySorted startsBefore l.

(** "pairwise disjoint": every interval ends strictly before each of those
    after it starts, so no point lies in two of them. *)
Definition endsBefore (u v : Env.Interval) : Prop := (snd u <? fst v) = true.
Definition pairwiseDisjoint (l : list Env.Interval) : Prop := ForallOrdPairs endsBefore l.

(** A triangle object after [if (tri.needsUpdate) tri.update()]. *)
Definition refreshed (tri : ExtendedTriangle.t) : ExtendedTriangle.t :=
  if ExtendedTriangle.needsUpdate tri then ExtendedTriangle.update tri else tri.

(** "the segment's and triangle's 1D spans along the line direction are
    disjoint", the triangle's span being the one its crossing points define:
    empty without a crossing point, a single point with one. *)
Definition spansDisjoint (line : Line3.t) (triangle : ExtendedTriangle.t)
    (projectionVector : Vector3.t) : bool :=
  let ax := dominantAxis projectionVector in
  let _tri := ProjectedOverlap.flattenTriangle ax triangle in
  let _line := ProjectedOverlap.flattenLine ax line in
  match ProjectedOverlap.crossings _line _tri with
  | (O, _) => true
  | (S O, _triLine) =>
      ProjectedOverlap.separated
        (ProjectedOverlap.spans _line (Line3.mk (Line3.start _triLine) (Line3.start _triLine)))
  | (_, _triLine) => ProjectedOverlap.separated (ProjectedOverlap.spans _line _triLine)
  end.

(** The triangles the traversal for the outer triangle at [i] admits, and
    the segments the detector pushes for that outer triangle: one test per
    admitted triangle. *)
Definition admittedFor (env : Env.t) (bvh : MeshBVH.t) (i : nat) : list nat :=
  MeshBVH.admitted
    (fun box => Env.box_intersectsTriangle env box
                  (IntersectionEdges.outerTriangle (MeshBVH.geometry bvh) i))
    (MeshBVH.root bvh).

Definition pairEdges (env : Env.t) (bvh : MeshBVH.t) (off : Vector3.t) (i j : nat)
    : list Line3.t :=
  match IntersectionEdges.pairEdge env off
          (IntersectionEdges.outerTriangle (MeshBVH.geometry bvh) i)
          (MeshBVH.setTriangle (MeshBVH.geometry bvh) (3 * j)) with
  | Some e => [e]
  | None => []
  end.

Definition edgesOfOuter (env : Env.t) (bvh : MeshBVH.t) (off : Vector3.t) (i : nat)
    : list Line3.t :=
  flat_map (pairEdges env bvh off i) (admittedFor env bvh i).

(** A segment moved by the offset vector. *)
Definition translated (seg : Line3.t) (off : Vector3.t) : Line3.t :=
  Line3.mk (Vector3.add (Line3.start seg) off) (Vector3.add (Line3.end_ seg) off).







(** No component of the vector is NaN. *)
Definition allNumbers (v : Vector3.t) : Prop :=
  is_nan (Vector3.x v) = false /\ is_nan (Vector3.y v) = false
  /\ is_nan (Vector3.z v) = false.

End SpecWords.

(** ** Concrete inputs *)

Module Examples.
Local Open Scope float_scope.

Definition vec (a b c : float) : Vector3.t := Vector3.mk a b c.

Definition xAxis : Vector3.t := vec 1 0 0.
Definition yAxis : Vector3.t := vec 0 1 0.

(** An edge at x = 0 and a triangle at x = 2 that reaches no higher in y
    than the edge. *)
Definition edgeBehind : Line3.t := Line3.mk (vec 0 1 0) (vec 0 1 1).
Definition triangleInFront : ExtendedTriangle.t :=
  ExtendedTriangle.fromPoints (vec 2 (-1) (-1)) (vec 2 (-1) 2) (vec 2 1 0.5).

(** An edge at x = 5 and a triangle at x = 0 that reaches higher in y. *)
Definition edgeInFront : Line3.t := Line3.mk (vec 5 0 0) (vec 5 0 1).
Definition triangleBehind : ExtendedTriangle.t :=
  ExtendedTriangle.fromPoints (vec 0 (-1) (-1)) (vec 0 (-1) 2) (vec 0 1 0.5).

(** A right triangle in the plane z = 0 and the zero-length line at its
    first vertex. *)
Definition rightTriangle : ExtendedTriangle.t :=
  ExtendedTriangle.update
    (ExtendedTriangle.fromPoints (vec 0 0 0) (vec 1 0 0) (vec 0 1 0)).
Definition pointAtVertex : Line3.t := Line3.mk (vec 0 0 0) (vec 0 0 0).

(** An edge along y and a projection vector along y of length 2. *)
Definition verticalEdge : Line3.t := Line3.mk (vec 0 0 0) (vec 0 1 0).
Definition longUp : Vector3.t := vec 0 2 0.

(** A triangle as the index hands it over: flagged, its plane not yet
    computed. *)
Definition dirtyTriangle : ExtendedTriangle.t :=
  ExtendedTriangle.fromPoints (vec 0 0 0) (vec 1 0 0) (vec 0 0 1).

(** A triangle above an edge whose vertical plane touches the triangle's
    projection in one vertex only. *)
Definition triangleAbove : ExtendedTriangle.t :=
  ExtendedTriangle.fromPoints (vec 0 7 0) (vec 1 8 0) (vec 0 9 1).
Definition grazingEdge : Line3.t := Line3.mk (vec (-1) 3 1) (vec 1 3 (-1)).

(** Two triangular plates that cross: one in the plane z = 0, one in the
    plane y = 1, indexed by a single leaf. *)
Definition plates : MeshBVH.t :=
  MeshBVH.mk
    (MeshBVH.mkGeometry (Some [0; 1; 2; 3; 4; 5]%nat)
       [ vec 0 0 0; vec 4 0 0; vec 0 4 0; vec 1 1 (-1); vec 3 1 (-1); vec 2 1 1 ])
    (MeshBVH.Leaf 0 2).

(** The segment in which the two plates cross. *)
Definition crossing : Line3.t := Line3.mk (vec 1.5 1 0) (vec 2.5 1 0).

(** The triangle intersection routine on the plates: it reports [crossing]
    for a horizontal plate against a vertical one, in either order. *)
Definition platesIntersect (t1 t2 : ExtendedTriangle.t) : option Line3.t :=
  let horizontal (t : ExtendedTriangle.t) :=
    (Vector3.z (ExtendedTriangle.a t) =? Vector3.z (ExtendedTriangle.b t))
    && (Vector3.z (ExtendedTriangle.b t) =? Vector3.z (ExtendedTriangle.c t)) in
  if negb (Bool.eqb (horizontal t1) (horizontal t2)) then Some crossing else None.

(** The functions from outside the tree for the runs below: an extractor
    that finds no feature edge, a trimmer that finds nothing beneath, and
    the interval algebra of [OverlapUtils]. *)
Definition platesEnv : Env.t :=
  Env.mk (fun _ _ => true) platesIntersect
         (fun _ _ _ => JS.Ok [])
         (fun _ _ _ => None)
         OverlapUtils.appendOverlapRange
         OverlapUtils.compressEdgeOverlaps
         OverlapUtils.overlapsToLines.



(** A line object with its connections and its continuity flag set, as
    [buildTopology] sets them. *)
Definition segment (s e : Vector3.t) (conns : list nat) (c1 : bool)
    : PostProcessing.LineSegment :=
  let l := PostProcessing.newLineSegment s e in
  PostProcessing.mkLineSegment
    (PostProcessing.start l) (PostProcessing.end_ l) (PostProcessing.length l)
    (PostProcessing.direction l) (PostProcessing.isValid l) conns
    (PostProcessing.componentId l) c1.

(** A chain of four lines, the last one too short to pass the first
    filter, and an isolated fifth line. *)
Definition drawing : PostProcessing.Heap :=
  [ segment (vec 0 0 0) (vec 1 0 0) [1%nat] false;
    segment (vec 1 0 0) (vec 1.05 0.05 0) [0%nat; 2%nat] false;
    segment (vec 1.05 0.05 0) (vec 1.1 0.1 0) [1%nat; 3%nat] false;
    segment (vec 1.1 0.1 0) (vec 1.105 0.105 0) [2%nat] false;
    segment (vec 5 5 5) (vec 5.2 5.1 5) [] false ].

(** Three hidden ranges of one edge, out of order, two of them touching. *)
Definition threeOverlaps : list Env.Interval :=
  [ (0.5, 1); (0, 0.25); (0.25, 0.375) ].

End Examples.

(** ** Typed arrays *)

Module Float32Array.

(** The value a [Float32Array] element holds after [array[i] = v]: [v]
    rounded to the nearest binary32 number, ties to even. *)
Definition store (v : float) : float :=
  match Prim2SF v with
  | S754_finite s m e => SF2Prim (SpecFloat.binary_round 24 128 s m e)
  | _ => v
  end.

End Float32Array.

(** ** Predicates the properties below are stated with *)

Module Properties.
Local Open Scope float_scope.

(** [Number.isFinite(v)]: neither NaN nor an infinity. *)
Definition isFinite (v : float) : bool := abs v <? infinity.

Definition finiteVector (v : Vector3.t) : Prop :=
  isFinite (Vector3.x v) = true /\ isFinite (Vector3.y v) = true
  /\ isFinite (Vector3.z v) = true.

Definition finiteTriangle (tri : ExtendedTriangle.t) : Prop :=
  finiteVector (ExtendedTriangle.a tri) /\ finiteVector (ExtendedTriangle.b tri)
  /\ finiteVector (ExtendedTriangle.c tri).

(** The six directed edges of a triangle. *)
Definition edgesOf (tri : ExtendedTriangle.t) : list Line3.t :=
  let a := ExtendedTriangle.a tri in
  let b := ExtendedTriangle.b tri in
  let c := ExtendedTriangle.c tri in
  [ Line3.mk a b; Line3.mk b c; Line3.mk c a;
    Line3.mk b a; Line3.mk c b; Line3.mk a c ].

(** A number that is a zero of either sign, or NaN. *)
Definition zeroOrNaN (v : float) : Prop :=
  Prim2SF v = S754_nan \/ exists s, Prim2SF v = S754_zero s.

(** A zero of either sign. *)
Definition isZero (v : float) : Prop := exists s, Prim2SF v = S754_zero s.

End Properties.


(** ** src/ProjectionGenerator.js: [EdgeSet.getLineGeometry]

    The entries of [edges] are pushed by [overlapsToLines], outside the
    tree, and read here by index: [line[0]] ... [line[5]].  An entry is
    embedded as the array of its numbers; an index past its end reads
    [undefined], which a [Float32Array] stores as NaN. *)

Module LineGeometry.
Local Open Scope float_scope.
Import String.StringSyntax.
Local Open Scope string_scope.

Definition element (line : list float) (k : nat) : float := nth k line nan.

(** The six numbers written for one entry: the [switch] on the label. *)
Definition entry (projectionValue : float) (projectionAxis : String.string)
    (line : list float) : list float :=
  if String.eqb projectionAxis "X" then
    [ projectionValue; element line 1; element line 2;
      projectionValue; element line 4; element line 5 ]
  else if String.eqb projectionAxis "Z" then
    [ element line 0; element line 1; projectionValue;
      element line 3; element line 4; projectionValue ]
  else
    [ element line 0; projectionValue; element line 2;
      element line 3; projectionValue; element line 5 ].

(** [getLineGeometry(projectionValue = 0, projectionAxis = 'Y')]: the array
    of the position attribute of the geometry it returns.  [None] is an
    argument left out. *)
Definition getLineGeometry (edges : list (list float)) (projectionValue : option float)
    (projectionAxis : option String.string) : list float :=
  let projectionValue := match projectionValue with Some v => v | None => 0%float end in
  let projectionAxis := match projectionAxis with Some a => a | None => "Y" end in
  map Float32Array.store (flat_map (entry projectionValue projectionAxis) edges).

(** A segment of the edge set as the array of its six coordinates. *)
Definition coordinates (l : Line3.t) : list float :=
  [ Vector3.x (Line3.start l); Vector3.y (Line3.start l); Vector3.z (Line3.start l);
    Vector3.x (Line3.end_ l); Vector3.y (Line3.end_ l); Vector3.z (Line3.end_ l) ].

(** The position of the collapsed coordinate within a point, by label. *)
Definition collapsedSlot (projectionAxis : String.string) : nat :=
  if String.eqb projectionAxis "X" then 0
  else if String.eqb projectionAxis "Z" then 2
  else 1.

Definition slotOf (ax : Projection.Axis) : nat :=
  match ax with
  | Projection.AxisX => 0
  | Projection.AxisY => 1
  | Projection.AxisZ => 2
  end.

End LineGeometry.

(** ** src/edgeProjection.js: [updateEdges], the path without a worker *)

Module EdgeProjection.
Local Open Scope float_scope.
Import String.StringSyntax.
Local Open Scope string_scope.

Definition ANGLE_THRESHOLD : float := 50.

(** [new Vector3()] followed by the [switch] on [params.projectionAxis],
    which has no [default]. *)
Definition axisVector (projectionAxis : String.string) : Vector3.t :=
  if String.eqb projectionAxis "X" then Vector3.set 1 0 0
  else if String.eqb projectionAxis "Y" then Vector3.set 0 1 0
  else if String.eqb projectionAxis "Z" then Vector3.set 0 0 1
  else Vector3.mk 0 0 0.

Record Params : Set := mkParams {
  sortEdges : bool;
  includeIntersectionEdges : bool;
  projectionAxis : String.string
}.

Definition generatorFor (params : Params) (runTime : float) : ProjectionGenerator.t :=
  ProjectionGenerator.mk (sortEdges params) runTime ANGLE_THRESHOLD
    (includeIntersectionEdges params) (axisVector (projectionAxis params)).

(** The position array [updateEdges] leaves in [projection.geometry], [bvh]
    being the index [generate] builds over the merged geometry. *)
Definition updateEdges (env : Env.t) (params : Params) (runTime : float) (bvh : MeshBVH.t)
    : JS.Result (list float) :=
  match ProjectionGenerator.generate env (generatorFor params runTime) bvh with
  | JS.Ok geometry =>
      JS.Ok (LineGeometry.getLineGeometry
               (map LineGeometry.coordinates (ProjectionGenerator.edges geometry))
               (Some 0%float) (Some (projectionAxis params)))
  | JS.Threw e => JS.Threw e
  end.

End EdgeProjection.

(** ** src/ProjectionGenerator.js: [generateAsync]

    A generator object is the sequence of its suspensions, ended by the
    value it returns or by what it throws.  [generateAsync] drives it from
    [requestAnimationFrame]: one call of [run] per frame. *)

Module Async.

Inductive Task (A : Type) : Type :=
| Return (v : A)
| Throw (e : nat)
| Yield (rest : Task A).
Arguments Return {A} v.
Arguments Throw {A} e.
Arguments Yield {A} rest.

(** Why a promise was rejected: the error of the abort check, or what the
    generator threw. *)
Inductive Reason : Set :=
| Aborted
| Thrown (e : nat).

(** The state the promise ends in.  An exception in [run] rejects the
    promise while the executor is still running, which is frame 0; thrown
    from a later frame it escapes the animation-frame callback and the
    promise stays pending. *)
Inductive Promise (A : Type) : Type :=
| Resolved (v : A)
| Rejected (r : Reason)
| Pending.
Arguments Resolved {A} v.
Arguments Rejected {A} r.
Arguments Pending {A}.

(** [signal && signal.aborted] when frame number [frame] runs; [None] is an
    options object without [signal]. *)
Definition aborted (signal : option (nat -> bool)) (frame : nat) : bool :=
  match signal with
  | Some isAborted => isAborted frame
  | None => false
  end.

(** [run()] in frame [frame], and the frames it schedules. *)
Fixpoint run {A : Type} (signal : option (nat -> bool)) (frame : nat) (task : Task A)
    : Promise A :=
  if aborted signal frame then Rejected Aborted
  else
    match task with
    | Return v => Resolved v
    | Throw e => if Nat.eqb frame 0 then Rejected (Thrown e) else Pending
    | Yield rest => run signal (S frame) rest
    end.




(** The number of suspensions of a task and the way it ends. *)
Fixpoint suspensions {A : Type} (task : Task A) : nat :=
  match task with
  | Yield rest => S (suspensions rest)
  | _ => 0
  end.

Fixpoint ending {A : Type} (task : Task A) : JS.Result A :=
  match task with
  | Return v => JS.Ok v
  | Throw e => JS.Threw e
  | Yield rest => ending rest
  end.

(** The abort check is positive in one of the frames [from .. from + n]. *)
Definition abortedWithin (signal : option (nat -> bool)) (from n : nat) : bool :=
  existsb (aborted signal) (seq from (S n)).

End Async.

(** ** The worker: its [onmessage] handler *)

Module Worker.
Local Open Scope float_scope.
Import String.StringSyntax.
Local Open Scope string_scope.

(** JavaScript values as far as the handler reads them. *)
#[local] Set Warnings "-register-all".
Inductive Value : Set :=
| VUndefined
| VFunction
| VNumbers (a : list float)
| VArray (items : list Value)
| VObject (fields : list (String.string * Value)).

(** What the [catch] clause receives. *)
Inductive Caught : Set :=
| TypeError
| Thrown (e : nat).

Inductive Completion (A : Type) : Type :=
| Normal (v : A)
| Abrupt (e : Caught).
Arguments Normal {A} v.
Arguments Abrupt {A} e.

Definition bind {A B : Type} (m : Completion A) (k : A -> Completion B) : Completion B :=
  match m with
  | Normal v => k v
  | Abrupt e => Abrupt e
  end.

Notation "x <- m ;; k" := (bind m (fun x => k))
  (at level 61, m at next level, right associativity).

Fixpoint lookup (fields : list (String.string * Value)) (name : String.string) : Value :=
  match fields with
  | [] => VUndefined
  | (n, v) :: rest => if String.eqb n name then v else lookup rest name
  end.

(** [v.name]: a [TypeError] on [undefined], [undefined] for a property the
    object does not have. *)
Definition get (v : Value) (name : String.string) : Completion Value :=
  match v with
  | VUndefined => Abrupt TypeError
  | VObject fields => Normal (lookup fields name)
  | _ => Normal VUndefined
  end.

(** An [EdgeSet] object: the field the constructor sets and the method of
    the class. *)
Definition edgeSetObject (s : ProjectionGenerator.EdgeSet) : Value :=
  VObject [ ("edges",
             VArray (map (fun l => VNumbers (LineGeometry.coordinates l))
                         (ProjectionGenerator.edges s)));
            ("getLineGeometry", VFunction) ].

(** [options] of the request. *)
Record Options : Set := mkOptions {
  sortEdges : option bool;
  angleThreshold : option float;
  includeIntersectionEdges : option bool;
  projectionVector : option (list float)
}.

Record Data : Set := mkData {
  index : list nat;
  position : list float;
  options : option Options
}.

Inductive Message : Set :=
| Progress (progress : float)
| Result (result : list float)
| Error (error : Caught).

(** [a ?? b]. *)
Definition orElse {A : Type} (a : option A) (b : A) : A :=
  match a with
  | Some v => v
  | None => b
  end.

(** The generator after the assignments from [options]; [new Vector3(x, y,
    z)] takes 0 for a missing component. *)
Definition generatorFor (o : Options) : ProjectionGenerator.t :=
  let generator := ProjectionGenerator.new in
  ProjectionGenerator.mk
    (orElse (sortEdges o) (ProjectionGenerator.sortEdges generator))
    (ProjectionGenerator.iterationTime generator)
    (orElse (angleThreshold o) (ProjectionGenerator.angleThreshold generator))
    (orElse (includeIntersectionEdges o) (ProjectionGenerator.includeIntersectionEdges generator))
    (match projectionVector o with
     | Some v => Vector3.mk (nth 0 v 0%float) (nth 1 v 0%float) (nth 2 v 0%float)
     | None => ProjectionGenerator.projectionVector generator
     end).

Definition ofResult {A : Type} (r : JS.Result A) : Completion A :=
  match r with
  | JS.Ok v => Normal v
  | JS.Threw e => Abrupt (Thrown e)
  end.

(** The [try] block up to [resultLines]; [buildIndex] is the constructor of
    the spatial index [generate] calls on the geometry. *)
Definition tryBlock (env : Env.t) (buildIndex : list nat -> list float -> JS.Result MeshBVH.t)
    (data : Data) : Completion Value :=
  o <- match options data with Some o => Normal o | None => Abrupt TypeError end ;;
  bvh <- ofResult (buildIndex (index data) (position data)) ;;
  value <- ofResult (ProjectionGenerator.generate env (generatorFor o) bvh) ;;
  attributes <- get (edgeSetObject value) "attributes" ;;
  position <- get attributes "position" ;;
  get position "array".

(** [onProgressCallback] over the calls [generate] makes of it, each with
    the clock reading at the call: the messages posted. *)
Fixpoint onProgressCalls (prevTime : float) (calls : list (float * float)) : list Message :=
  match calls with
  | [] => []
  | (currTime, progress) :: rest =>
      if JS.geb (currTime - prevTime) 10 || (progress =? 1.0)%float
      then Progress progress :: onProgressCalls currTime rest
      else onProgressCalls prevTime rest
  end.

(** [onmessage({ data })]: every message the handler posts, in order.  When
    the [try] block fails before [generate] runs there is no call of the
    progress callback. *)
Definition onmessage (env : Env.t) (buildIndex : list nat -> list float -> JS.Result MeshBVH.t)
    (startTime : float) (calls : list (float * float)) (data : Data) : list Message :=
  onProgressCalls startTime calls
  ++ [ match tryBlock env buildIndex data with
       | Normal (VNumbers resultLines) => Result resultLines
       | Normal _ => Error TypeError
       | Abrupt error => Error error
       end ].

End Worker.

(** ** src/utils/postProcessing.js: the topology of the drawing *)

Module Topology.
Import PostProcessing.
Local Open Scope float_scope.

(** [getDistanceTo(point)]: the distance from the point to the segment. *)
Definition getDistanceTo (l : LineSegment) (point : Vector3.t) : float :=
  let v := Vector3.subVectors (end_ l) (start l) in
  let w := Vector3.subVectors point (start l) in
  let c1 := Vector3.dot w v in
  if c1 <=? 0 then Vector3.distanceTo point (start l)
  else
    let c2 := Vector3.dot v v in
    if c2 <=? c1 then Vector3.distanceTo point (end_ l)
    else Vector3.distanceTo point
           (Vector3.add (start l) (Vector3.multiplyScalar v (c1 / c2))).

Definition hasC1ContinuityWith (this other : LineSegment) : bool :=
  let startDist :=
    JS.Math_min (getDistanceTo this (start other)) (getDistanceTo this (end_ other)) in
  let endDist :=
    JS.Math_min (getDistanceTo other (start this)) (getDistanceTo other (end_ this)) in
  let thisDir := direction this in
  let otherDir :=
    if ((startDist <? POINT_TOLERANCE)
        && (Vector3.distanceTo (start this) (end_ other) <? POINT_TOLERANCE))
       || ((endDist <? POINT_TOLERANCE)
           && (Vector3.distanceTo (end_ this) (start other) <? POINT_TOLERANCE))
    then Vector3.multiplyScalar (direction other) (-1)
    else direction other in
  let angle := abs (Vector3.dot thisDir otherDir) in
  JS.gtb angle (1 - C1_ANGLE_THRESHOLD).

(** *** [SpatialGrid]

    The [Map] from cell keys to arrays of lines, in insertion order.  A key
    is the string of three numbers; it is kept as the three numbers and
    compared with [sameKey]. *)

Definition Key : Set := (float * float * float)%type.
Definition Cells : Set := list (Key * list nat).

Definition getGridKey (cellSize : float) (point : Vector3.t) : Key :=
  (JS.Math_floor (Vector3.x point / cellSize),
   JS.Math_floor (Vector3.y point / cellSize),
   JS.Math_floor (Vector3.z point / cellSize)).

(** [grid.has(key)] and [grid.get(key)]; the latter is only called on a key
    the map has. *)
Definition gridHas (cells : Cells) (key : Key) : bool :=
  existsb (fun entry => sameKey (fst entry) key) cells.

Fixpoint gridGet (cells : Cells) (key : Key) : list nat :=
  match cells with
  | [] => []
  | (k, lines) :: rest => if sameKey k key then lines else gridGet rest key
  end.

(** [if (!grid.has(key)) grid.set(key, [])]. *)
Definition gridEnsure (cells : Cells) (key : Key) : Cells :=
  if gridHas cells key then cells else cells ++ [ (key, []) ].

(** [grid.get(key).push(line)]. *)
Fixpoint gridPush (cells : Cells) (key : Key) (line : nat) : Cells :=
  match cells with
  | [] => []
  | (k, lines) :: rest =>
      if sameKey k key then (k, lines ++ [ line ]) :: rest
      else (k, lines) :: gridPush rest key line
  end.

(** [addLine(line)], the line object being the one behind [r]. *)
Definition addLine (cellSize : float) (cells : Cells) (line : LineSegment) (r : nat) : Cells :=
  let startKey := getGridKey cellSize (start line) in
  let endKey := getGridKey cellSize (end_ line) in
  let cells := gridEnsure cells startKey in
  let cells := gridEnsure cells endKey in
  let cells := gridPush cells startKey r in
  if negb (sameKey startKey endKey) then gridPush cells endKey r else cells.

(** The values of [dx], [dy] and [dz]. *)
Definition offsets : list float := [ -1; 0; 1 ].

(** [getNearbyLines(point)]: the lines of the 27 cells around the point,
    with repetitions. *)
Definition getNearbyLines (cellSize : float) (cells : Cells) (point : Vector3.t) : list nat :=
  flat_map (fun dx =>
    flat_map (fun dy =>
      flat_map (fun dz =>
        let adjacentKey :=
          (JS.Math_floor (Vector3.x point / cellSize) + dx,
           JS.Math_floor (Vector3.y point / cellSize) + dy,
           JS.Math_floor (Vector3.z point / cellSize) + dz) in
        if gridHas cells adjacentKey then gridGet cells adjacentKey else [])
      offsets) offsets) offsets.

(** *** [buildTopology] *)

(** The values of [i] in [for (let i = 0; i < positions.length; i += 6)]. *)
Definition lineStarts (n : nat) : list nat :=
  map (fun k => 6 * k)%nat (seq 0 ((n + 5) / 6)).

(** The line made from [positions[i]] ... [positions[i + 5]]; [new
    Vector3(x, y, z)] takes 0 for an argument that is [undefined]. *)
Definition lineAt (positions : list float) (i : nat) : LineSegment :=
  newLineSegment
    (Vector3.mk (nth i positions 0) (nth (i + 1) positions 0) (nth (i + 2) positions 0))
    (Vector3.mk (nth (i + 3) positions 0) (nth (i + 4) positions 0) (nth (i + 5) positions 0)).

Definition createLines (positions : list float) : Heap :=
  map (lineAt positions) (lineStarts (List.length positions)).

(** The grid once every line has been added. *)
Definition fillGrid (cellSize : float) (lines : Heap) : Cells :=
  fold_left (fun cells r => addLine cellSize cells (deref lines r) r)
            (seq 0 (List.length lines)) [].

(** A write to the line object behind [r]. *)
Fixpoint update (h : Heap) (r : nat) (f : LineSegment -> LineSegment) : Heap :=
  match h, r with
  | [], _ => []
  | l :: rest, O => f l :: rest
  | l :: rest, S r' => l :: update rest r' f
  end.

(** [connections.add(c)] and [hasC1Continuity = true]. *)
Definition addConnection (c : nat) (l : LineSegment) : LineSegment :=
  mkLineSegment (start l) (end_ l) (length l) (direction l) (isValid l)
                (if existsb (Nat.eqb c) (connections l) then connections l
                 else connections l ++ [ c ])
                (componentId l) (hasC1Continuity l).

Definition setC1 (l : LineSegment) : LineSegment :=
  mkLineSegment (start l) (end_ l) (length l) (direction l) (isValid l)
                (connections l) (componentId l) true.

(** The test under which two lines are connected. *)
Definition touches (line nearby : LineSegment) : bool :=
  let startDist :=
    JS.Math_min (getDistanceTo line (start nearby)) (getDistanceTo line (end_ nearby)) in
  let endDist :=
    JS.Math_min (getDistanceTo nearby (start line)) (getDistanceTo nearby (end_ line)) in
  (startDist <? POINT_TOLERANCE) || (endDist <? POINT_TOLERANCE).

(** The body of [for (const nearby of new Set(nearbyLines))]. *)
Definition connect (line : nat) (h : Heap) (nearby : nat) : Heap :=
  if Nat.eqb nearby line then h
  else if touches (deref h line) (deref h nearby) then
    let h := update h line (addConnection nearby) in
    let h := update h nearby (addConnection line) in
    if hasC1ContinuityWith (deref h line) (deref h nearby)
    then update (update h line setC1) nearby setC1
    else h
  else h.

(** [new Set(array)]: the first occurrence of each element, in order. *)
Fixpoint dedupe (seen : list nat) (l : list nat) : list nat :=
  match l with
  | [] => []
  | r :: rest =>
      if existsb (Nat.eqb r) seen then dedupe seen rest
      else r :: dedupe (r :: seen) rest
  end.

(** The body of [for (const line of lines)]. *)
Definition linkLine (cellSize : float) (cells : Cells) (h : Heap) (line : nat) : Heap :=
  let nearbyLines :=
    getNearbyLines cellSize cells (start (deref h line))
    ++ getNearbyLines cellSize cells (end_ (deref h line)) in
  fold_left (connect line) (dedupe [] nearbyLines) h.

Definition buildTopology (positions : list float) : Heap :=
  let lines := createLines positions in
  let cellSize := MAX_PARALLEL_DISTANCE * 2 in
  let cells := fillGrid cellSize lines in
  fold_left (linkLine cellSize cells) (seq 0 (List.length lines)) lines.

(** *** [postProcessProjection] *)



End Topology.

(** ** What [buildTopology] establishes *)

Module Linked.
Import PostProcessing Topology.

(** The connections of a heap of lines form a graph on the heap: every
    connection is a line of the heap other than the line itself, is
    recorded once, and is recorded on both sides. *)
Record Graph (h : Heap) : Prop := mkGraph {
  in_range :
    forall i c, (i < List.length h)%nat -> In c (connections (deref h i)) ->
                (c < List.length h)%nat;
  no_loop : forall i, (i < List.length h)%nat -> ~ In i (connections (deref h i));
  both_sides :
    forall i c, (i < List.length h)%nat -> In c (connections (deref h i)) ->
                In i (connections (deref h c));
  listed_once : forall i, (i < List.length h)%nat -> NoDup (connections (deref h i))
}.

(** The fields of a line that neither [buildTopology]'s second loop nor the
    labelling writes. *)
Definition segment (l : LineSegment) : Vector3.t * Vector3.t * float * Vector3.t * bool :=
  (start l, end_ l, length l, direction l, isValid l).

(** Two lines have an endpoint in common. *)
Definition shareEndpoint (l n : LineSegment) : Prop :=
  start l = start n \/ start l = end_ n \/ end_ l = start n \/ end_ l = end_ n.

(** The heap [h] in the second loop of [buildTopology], the lines having
    been created as [lines]: the same segments, none labelled, connected in
    a graph, only where the connection test holds, and flagged only where
    the continuity test held for a connection. *)
Record Links (lines h : Heap) : Prop := mkLinks {
  links_length : List.length h = List.length lines;
  links_segment : forall i, segment (deref h i) = segment (deref lines i);
  links_unlabelled : forall i, componentId (deref h i) = componentId (deref lines i);
  links_graph : Graph h;
  links_touch :
    forall i c, (i < List.length h)%nat -> In c (connections (deref h i)) ->
                touches (deref lines i) (deref lines c) = true;
  links_flag :
    forall i, (i < List.length h)%nat -> hasC1Continuity (deref h i) = true ->
              exists c, In c (connections (deref h i))
                        /\ (hasC1ContinuityWith (deref lines i) (deref lines c) = true
                            \/ hasC1ContinuityWith (deref lines c) (deref lines i) = true)
}.

(** Every connection of [h] is a connection of [h']. *)
Definition Extends (h h' : Heap) : Prop :=
  forall i c, In c (connections (deref h i)) -> In c (connections (deref h' i)).

(** The labelling in the middle of a search over the graph of [h0], [stack]
    being the lines whose call of [dfs] has not returned: the lines are
    those of [h0] with their connections; a labelled line that is not on
    the stack has all its connections in its own component; the lines on
    the stack are in the current component. *)
Record Search (h0 : Heap) (stack : list nat) (st : Labelling) : Prop := mkSearch {
  search_length : List.length (heap st) = List.length h0;
  search_connections :
    forall j, connections (deref (heap st) j) = connections (deref h0 j);
  search_current : (0 <= currentComponent st)%Z;
  search_closed :
    forall j c,
      (j < List.length h0)%nat -> componentId (deref (heap st) j) <> (-1)%Z ->
      ~ In j stack -> In c (connections (deref h0 j)) ->
      componentId (deref (heap st) c) = componentId (deref (heap st) j);
  search_stack :
    forall s, In s stack -> componentId (deref (heap st) s) = currentComponent st
}.

(** No label is changed from [st] to [st']. *)
Definition Keeps (st st' : Labelling) : Prop :=
  forall j, componentId (deref (heap st) j) <> (-1)%Z ->
            componentId (deref (heap st') j) = componentId (deref (heap st) j).


End Linked.

(** ** More concrete inputs *)

Module MoreExamples.
Import Examples.
Import String.StringSyntax.
Local Open Scope string_scope.
Local Open Scope float_scope.

Definition zAxis : Vector3.t := vec 0 0 1.

(** An edge that passes under [triangleAbove], and that triangle with its
    vertices moved along y. *)
Definition longEdgeBelow : Line3.t := Line3.mk (vec (-1) 3 0.25) (vec 2 3 0.25).
Definition triangleLifted : ExtendedTriangle.t :=
  ExtendedTriangle.fromPoints (vec 0 100 0) (vec 1 (-5) 0) (vec 0 0 1).

(** The unit box and an edge that starts inside it. *)
Definition unitBox : Box3.t := Box3.mk (vec 0 0 0) (vec 1 1 1).
Definition edgeFromInside : Line3.t := Line3.mk (vec 0.5 0.5 0.5) (vec 3 4 5).

(** The position array of a drawing: the four sides of a unit square, a
    short stray line, a line that ends on a side of the square, and one
    number left over. *)
Definition square : list float :=
  [ 0; 0; 0; 1; 0; 0;   1; 0; 0; 1; 0; 1;   1; 0; 1; 0; 0; 1;   0; 0; 1; 0; 0; 0;
    5; 0; 5; 5.01; 0; 5.01;   0.5; 0; 0; 0.52; 0; 0.3;   7 ].

(** The parameters of [updateEdges] for a drawing along y. *)
Definition alongY : EdgeProjection.Params :=
  EdgeProjection.mkParams true true "Y".

End MoreExamples.

(** * Theorems *)

(** ** The order of binary64 numbers *)

Section FloatOrderFacts.
Import FloatOrder.

Lemma SFcompare_rank :
  forall f1 f2,
    isNumber f1 = true -> isNumber f2 = true ->
    exists c, SFcompare f1 f2 = Some c /\
      match c with
      | Lt => lexlt (rank f1) (rank f2)
      | Eq => rank f1 = rank f2
      | Gt => lexlt (rank f2) (rank f1)
      end.
Proof.
  intros f1 f2.
  destruct f1 as [s1 | s1 | | s1 m1 e1], f2 as [s2 | s2 | | s2 m2 e2];
    try discriminate; intros _ _;
    try destruct s1; try destruct s2; simpl;
    try (eexists; split; [ reflexivity | ]; simpl; try reflexivity; lia).
  - destruct (Z.compare_spec e1 e2) as [He | He | He].
    + rewrite Pos.compare_cont_spec. simpl.
      destruct (Pos.compare_spec m1 m2) as [Hm | Hm | Hm];
        eexists; (split; [ reflexivity | ]); simpl; subst; try reflexivity; lia.
    + eexists; (split; [ reflexivity | ]); simpl; lia.
    + eexists; (split; [ reflexivity | ]); simpl; lia.
  - destruct (Z.compare_spec e1 e2) as [He | He | He].
    + rewrite Pos.compare_cont_spec. simpl.
      destruct (Pos.compare_spec m1 m2) as [Hm | Hm | Hm];
        eexists; (split; [ reflexivity | ]); simpl; subst; try reflexivity; lia.
    + eexists; (split; [ reflexivity | ]); simpl; lia.
    + eexists; (split; [ reflexivity | ]); simpl; lia.
Qed.

Lemma SFcompare_nan :
  forall f1 f2, isNumber f1 && isNumber f2 = false -> SFcompare f1 f2 = None.
Proof.
  intros f1 f2. destruct f1, f2; simpl; try discriminate; reflexivity.
Qed.

Lemma digits2_pos_above : forall m, (Zpos m < 2 ^ Zpos (digits2_pos m))%Z.
Proof.
  induction m as [m IH | m IH | ]; simpl digits2_pos.
  - rewrite Pos2Z.inj_succ, Z.pow_succ_r by lia. lia.
  - rewrite Pos2Z.inj_succ, Z.pow_succ_r by lia. lia.
  - reflexivity.
Qed.

(** The class, exponent and mantissa of a valid binary64 value are bounded. *)
Lemma rank_bounded :
  forall f,
    SpecFloat.valid_binary prec emax f = true ->
    let '(cls, e, m) := rank f in
    ((cls = 1 /\ -1075 <= e <= 1075 /\ 0 < m < mantissaBound)
     \/ (cls = -1 /\ -1075 <= e <= 1075 /\ - mantissaBound < m < 0)
     \/ ((cls = -2 \/ cls = 0 \/ cls = 2) /\ e = 0 /\ m = 0))%Z.
Proof.
  intros f Hvalid.
  assert (Hfin : forall m e, SpecFloat.bounded prec emax m e = true ->
                             (-1075 <= e <= 1075 /\ Zpos m < mantissaBound)%Z).
  { intros m e Hb. unfold SpecFloat.bounded, SpecFloat.canonical_mantissa, SpecFloat.fexp, SpecFloat.emin in Hb.
    apply andb_true_iff in Hb. destruct Hb as [Hc He].
    apply Z.eqb_eq in Hc. apply Z.leb_le in He.
    change prec with 53%Z in *. change emax with 1024%Z in *.
    assert (Hd : (Zpos (digits2_pos m) <= 53)%Z) by lia.
    split; [ lia | ].
    apply Z.lt_le_trans with (1 := digits2_pos_above m).
    change mantissaBound with (2 ^ 53)%Z.
    apply Z.pow_le_mono_r; lia. }
  destruct f as [s | s | | s m e]; simpl in *;
    try destruct s; unfold mantissaBound; try lia;
    destruct (Hfin m e Hvalid); unfold mantissaBound in *; lia.
Qed.

Lemma lexlt_code :
  forall f1 f2,
    SpecFloat.valid_binary prec emax f1 = true -> SpecFloat.valid_binary prec emax f2 = true ->
    (lexlt (rank f1) (rank f2) <-> (code f1 < code f2)%Z)
    /\ (rank f1 = rank f2 <-> code f1 = code f2).
Proof.
  intros f1 f2 H1 H2.
  pose proof (rank_bounded f1 H1) as B1. pose proof (rank_bounded f2 H2) as B2.
  unfold code, lexlt.
  destruct (rank f1) as [[c1 e1] m1], (rank f2) as [[c2 e2] m2].
  unfold mantissaBound in *.
  split; split; intros H; try (inversion H; subst; reflexivity); try lia.
  assert (c1 = c2 /\ e1 = e2 /\ m1 = m2) as [-> [-> ->]] by lia. reflexivity.
Qed.

Lemma compare_code :
  forall a b : float,
    nanOf a = 0%Z -> nanOf b = 0%Z ->
    SFcompare (Prim2SF a) (Prim2SF b) = Some (Z.compare (codeOf a) (codeOf b)).
Proof.
  intros a b Ha Hb. unfold nanOf, nanFlag, codeOf in *.
  destruct (isNumber (Prim2SF a)) eqn:Na; [ | discriminate ].
  destruct (isNumber (Prim2SF b)) eqn:Nb; [ | discriminate ].
  destruct (SFcompare_rank _ _ Na Nb) as [c [Hc Hr]]. rewrite Hc. f_equal.
  destruct (lexlt_code _ _ (Prim2SF_valid a) (Prim2SF_valid b)) as [L E].
  destruct (lexlt_code _ _ (Prim2SF_valid b) (Prim2SF_valid a)) as [L' _].
  symmetry. destruct c.
  - apply Z.compare_eq_iff. apply E. exact Hr.
  - apply Z.compare_lt_iff. apply L. exact Hr.
  - apply Z.compare_gt_iff. apply L'. exact Hr.
Qed.

Lemma compare_nan :
  forall a b : float,
    ~ (nanOf a = 0%Z /\ nanOf b = 0%Z) -> SFcompare (Prim2SF a) (Prim2SF b) = None.
Proof.
  intros a b H. apply SFcompare_nan. unfold nanOf, nanFlag in H.
  destruct (isNumber (Prim2SF a)), (isNumber (Prim2SF b)); try reflexivity.
  exfalso. apply H. split; reflexivity.
Qed.

Lemma nanOf_cases : forall a : float, nanOf a = 0%Z \/ nanOf a = 1%Z.
Proof.
  intros a. unfold nanOf, nanFlag. destruct (isNumber (Prim2SF a)); auto.
Qed.

Lemma leb_code :
  forall a b : float,
    (a <=? b)%float = true <-> (nanOf a = 0 /\ nanOf b = 0 /\ codeOf a <= codeOf b)%Z.
Proof.
  intros a b. rewrite FloatAxioms.leb_spec. unfold SFleb.
  destruct (nanOf_cases a) as [Ha | Ha], (nanOf_cases b) as [Hb | Hb];
    try (rewrite compare_nan by lia; split; [ discriminate | lia ]).
  rewrite (compare_code a b Ha Hb).
  destruct (Z.compare_spec (codeOf a) (codeOf b)); split; intros; try discriminate;
    try reflexivity; lia.
Qed.

Lemma ltb_code :
  forall a b : float,
    (a <? b)%float = true <-> (nanOf a = 0 /\ nanOf b = 0 /\ codeOf a < codeOf b)%Z.
Proof.
  intros a b. rewrite FloatAxioms.ltb_spec. unfold SFltb.
  destruct (nanOf_cases a) as [Ha | Ha], (nanOf_cases b) as [Hb | Hb];
    try (rewrite compare_nan by lia; split; [ discriminate | lia ]).
  rewrite (compare_code a b Ha Hb).
  destruct (Z.compare_spec (codeOf a) (codeOf b)); split; intros; try discriminate;
    try reflexivity; lia.
Qed.

Lemma eqb_code :
  forall a b : float,
    (a =? b)%float = true <-> (nanOf a = 0 /\ nanOf b = 0 /\ codeOf a = codeOf b)%Z.
Proof.
  intros a b. rewrite FloatAxioms.eqb_spec. unfold SFeqb.
  destruct (nanOf_cases a) as [Ha | Ha], (nanOf_cases b) as [Hb | Hb];
    try (rewrite compare_nan by lia; split; [ discriminate | lia ]).
  rewrite (compare_code a b Ha Hb).
  destruct (Z.compare_spec (codeOf a) (codeOf b)); split; intros; try discriminate;
    try reflexivity; lia.
Qed.

End FloatOrderFacts.

(** [float_order] decides a goal that follows from the comparisons in the
    context by the order of the codes alone. *)
Import FloatOrder.

Ltac float_order_hyps :=
  repeat match goal with
  | H : (_ <=? _)%float = true |- _ => apply leb_code in H
  | H : (_ <? _)%float = true |- _ => apply ltb_code in H
  | H : (_ =? _)%float = true |- _ => apply eqb_code in H
  | H : (?a <=? ?b)%float = false |- _ =>
      let H' := fresh in
      assert (H' : ~ (nanOf a = 0 /\ nanOf b = 0 /\ codeOf a <= codeOf b)%Z)
        by (rewrite <- leb_code, H; discriminate); clear H
  | H : (?a <? ?b)%float = false |- _ =>
      let H' := fresh in
      assert (H' : ~ (nanOf a = 0 /\ nanOf b = 0 /\ codeOf a < codeOf b)%Z)
        by (rewrite <- ltb_code, H; discriminate); clear H
  | H : (?a =? ?b)%float = false |- _ =>
      let H' := fresh in
      assert (H' : ~ (nanOf a = 0 /\ nanOf b = 0 /\ codeOf a = codeOf b)%Z)
        by (rewrite <- eqb_code, H; discriminate); clear H
  end.

Ltac float_order_goal :=
  match goal with
  | |- (_ <=? _)%float = true => apply leb_code
  | |- (_ <? _)%float = true => apply ltb_code
  | |- (_ =? _)%float = true => apply eqb_code
  | |- (?a <=? ?b)%float = false =>
      destruct (a <=? b)%float eqn:?; [ exfalso | reflexivity ]
  | |- (?a <? ?b)%float = false =>
      destruct (a <? b)%float eqn:?; [ exfalso | reflexivity ]
  | |- (?a =? ?b)%float = false =>
      destruct (a =? b)%float eqn:?; [ exfalso | reflexivity ]
  | |- _ => idtac
  end.

Ltac float_order :=
  float_order_goal; float_order_hyps;
  repeat match goal with
  | |- context [nanOf ?a] => pose proof (nanOf_cases a); generalize dependent (nanOf a); intros
  | H : context [nanOf ?a] |- _ =>
      pose proof (nanOf_cases a); generalize dependent (nanOf a); intros
  end;
  repeat match goal with
  | |- context [codeOf ?a] => generalize dependent (codeOf a); intros
  | H : context [codeOf ?a] |- _ => generalize dependent (codeOf a); intros
  end;
  lia.


(** ** [Math.max] and [Math.min] on numbers *)

Section MathFacts.
Local Open Scope float_scope.

Lemma is_nan_number : forall a : float, (a <=? a) = true -> is_nan a = false.
Proof.
  intros a H. unfold is_nan.
  assert (E : (a =? a) = true) by float_order.
  rewrite E. reflexivity.
Qed.

Lemma Math_max_cases :
  forall a b : float,
    (a <=? a) = true -> (b <=? b) = true ->
    (JS.Math_max a b = a /\ (b <=? a) = true)
    \/ (JS.Math_max a b = b /\ (a <=? b) = true).
Proof.
  intros a b Ha Hb. unfold JS.Math_max.
  rewrite (is_nan_number a Ha), (is_nan_number b Hb). cbn [orb].
  destruct (a <? b) eqn:Hab.
  - right. split; [ reflexivity | float_order ].
  - destruct (b <? a) eqn:Hba.
    + left. split; [ reflexivity | float_order ].
    + destruct (classify a);
        (left; split; [ reflexivity | float_order ])
        || (right; split; [ reflexivity | float_order ]).
Qed.

End MathFacts.

(** ** The overlap interval algebra *)

Section IntervalFacts.
Import OverlapUtils SpecWords.
Local Open Scope float_scope.

Lemma insertByStart_In :
  forall i j l, In i (insertByStart j l) <-> i = j \/ In i l.
Proof.
  intros i j l. induction l as [| h rest IH]; simpl.
  - intuition.
  - destruct (fst h <? fst j); simpl; rewrite ?IH; intuition.
Qed.

Lemma sortByStart_In : forall i l, In i (sortByStart l) <-> In i l.
Proof.
  intros i l. induction l as [| h rest IH]; simpl.
  - tauto.
  - rewrite insertByStart_In, IH. intuition.
Qed.

Lemma insertByStart_sorted :
  forall j l,
    wellFormed j -> Forall wellFormed l ->
    sortedByStart l -> sortedByStart (insertByStart j l).
Proof.
  intros j l Hj Hl Hs. unfold sortedByStart in *.
  induction l as [| h rest IH]; simpl.
  - constructor; constructor.
  - inversion Hl as [| ? ? Hh Hrest]; subst.
    inversion Hs as [| ? ? Hs' Hall]; subst.
    unfold wellFormed in *.
    destruct (fst h <? fst j) eqn:Hlt.
    + constructor; [ apply IH; assumption | ].
      apply Forall_forall. intros r Hr. rewrite insertByStart_In in Hr.
      destruct Hr as [-> | Hr].
      * unfold startsBefore. float_order.
      * rewrite Forall_forall in Hall. apply Hall, Hr.
    + constructor; [ exact Hs | ].
      constructor.
      * unfold startsBefore. float_order.
      * apply Forall_forall. intros r Hr.
        rewrite Forall_forall in Hall. specialize (Hall r Hr).
        unfold startsBefore in *. float_order.
Qed.

Lemma sortByStart_sorted :
  forall l, Forall wellFormed l -> sortedByStart (sortByStart l).
Proof.
  intros l Hl. induction l as [| h rest IH]; simpl.
  - constructor.
  - inversion Hl as [| ? ? Hh Hrest]; subst.
    apply insertByStart_sorted; [ exact Hh | | apply IH; exact Hrest ].
    apply Forall_forall. intros r Hr. rewrite sortByStart_In in Hr.
    rewrite Forall_forall in Hrest. apply Hrest, Hr.
Qed.

Lemma covered_cons :
  forall i l x, covered (i :: l) x <-> inInterval i x \/ covered l x.
Proof.
  intros i l x. unfold covered. split.
  - intros [k [[-> | Hk] Hx]]; [ left; exact Hx | right; exists k; auto ].
  - intros [Hx | [k [Hk Hx]]]; [ exists i | exists k ]; simpl; auto.
Qed.

Lemma absorb_covers :
  forall cur nxt x,
    wellFormed cur -> wellFormed nxt -> startsBefore cur nxt ->
    (fst nxt <=? snd cur) = true ->
    (inInterval (fst cur, JS.Math_max (snd cur) (snd nxt)) x
     <-> inInterval cur x \/ inInterval nxt x).
Proof.
  intros [a b] [c d] x Hcur Hnxt Hord Htouch.
  unfold wellFormed, startsBefore, inInterval in *. cbn [fst snd] in *.
  assert (Hb : (b <=? b) = true) by float_order.
  assert (Hd : (d <=? d) = true) by float_order.
  destruct (Math_max_cases b d Hb Hd) as [[-> Hle] | [-> Hle]].
  - split.
    + intros [H1 H2]. left. split; assumption.
    + intros [[H1 H2] | [H1 H2]]; split; float_order.
  - split.
    + intros [H1 H2].
      destruct (x <=? b) eqn:Hxb.
      * left. split; [ exact H1 | reflexivity ].
      * right. split; float_order.
    + intros [[H1 H2] | [H1 H2]]; split; float_order.
Qed.

Lemma mergeFrom_spec :
  forall rest cur,
    sortedByStart (cur :: rest) -> Forall wellFormed (cur :: rest) ->
    Forall wellFormed (mergeFrom cur rest)
    /\ Forall (startsBefore cur) (mergeFrom cur rest)
    /\ pairwiseDisjoint (mergeFrom cur rest)
    /\ (forall x, covered (mergeFrom cur rest) x <-> covered (cur :: rest) x).
Proof.
  unfold sortedByStart, pairwiseDisjoint.
  induction rest as [| nxt rest' IH]; intros cur Hs Hwf.
  - simpl. inversion Hwf; subst. unfold wellFormed in *.
    repeat split; auto.
    + constructor; [ unfold startsBefore; float_order | constructor ].
    + constructor; constructor.
  - inversion Hs as [| ? ? Hs' Hall]; subst.
    inversion Hs' as [| ? ? Hs'' Hall']; subst.
    inversion Hwf as [| ? ? Hcur Hwf']; subst.
    inversion Hwf' as [| ? ? Hnxt Hwf'']; subst.
    inversion Hall as [| ? ? Hcn Hall'']; subst.
    cbn [mergeFrom].
    destruct (fst nxt <=? snd cur) eqn:Htouch.
    + set (cur' := (fst cur, JS.Math_max (snd cur) (snd nxt))).
      assert (Hcur' : wellFormed cur').
      { unfold wellFormed, cur' in *. cbn [fst snd].
        assert (Hb : (snd cur <=? snd cur) = true) by float_order.
        assert (Hd : (snd nxt <=? snd nxt) = true) by float_order.
        destruct (Math_max_cases _ _ Hb Hd) as [[-> Hle] | [-> Hle]]; float_order. }
      destruct (IH cur') as [W [B [D C]]].
      { constructor; [ exact Hs'' | ].
        apply Forall_forall. intros r Hr. rewrite Forall_forall in Hall''.
        apply Hall'', Hr. }
      { constructor; assumption. }
      repeat split; auto.
      * intros Hx. apply C in Hx. apply covered_cons in Hx.
        apply covered_cons. rewrite covered_cons.
        destruct Hx as [Hx | Hx]; [ | tauto ].
        apply absorb_covers in Hx; auto. tauto.
      * intros Hx. apply C. apply covered_cons.
        apply covered_cons in Hx. rewrite covered_cons in Hx.
        destruct Hx as [Hx | [Hx | Hx]]; [ left | left | right; exact Hx ];
          apply absorb_covers; auto.
    + destruct (IH nxt Hs' Hwf') as [W [B [D C]]].
      repeat split.
      * constructor; assumption.
      * constructor; [ unfold startsBefore, wellFormed in *; float_order | ].
        apply Forall_forall. intros o Ho. rewrite Forall_forall in B.
        specialize (B o Ho). unfold startsBefore in *. float_order.
      * constructor; [ | exact D ].
        apply Forall_forall. intros o Ho. rewrite Forall_forall in B.
        specialize (B o Ho). unfold startsBefore, endsBefore, wellFormed in *. float_order.
      * intros Hx. apply covered_cons in Hx. apply covered_cons.
        rewrite C in Hx. exact Hx.
      * intros Hx. apply covered_cons in Hx. apply covered_cons.
        rewrite C. exact Hx.
Qed.

Lemma disjoint_sorted :
  forall l, Forall wellFormed l -> pairwiseDisjoint l -> sortedByStart l.
Proof.
  unfold pairwiseDisjoint, sortedByStart.
  induction l as [| h rest IH]; intros Hwf Hd.
  - constructor.
  - inversion Hwf; subst. inversion Hd; subst.
    constructor; [ auto | ].
    apply Forall_forall. intros o Ho.
    match goal with H : Forall (endsBefore h) rest |- _ => rewrite Forall_forall in H; specialize (H o Ho) end.
    unfold endsBefore, startsBefore, wellFormed in *. float_order.
Qed.

(** C3.  For intervals with 0 <= t0 <= t1 <= 1, [compressEdgeOverlaps]
    returns a list that is sorted by t0, whose intervals are pairwise
    disjoint, and that covers exactly the points the input covers. *)
Theorem compressEdgeOverlaps_sorted_disjoint_cover :
  forall overlaps,
    Forall validInterval overlaps ->
    sortedByStart (compressEdgeOverlaps overlaps)
    /\ pairwiseDisjoint (compressEdgeOverlaps overlaps)
    /\ (forall x, covered (compressEdgeOverlaps overlaps) x <-> covered overlaps x).
Proof.
  intros overlaps Hvalid.
  assert (Hwf : Forall wellFormed (sortByStart overlaps)).
  { apply Forall_forall. intros i Hi. rewrite sortByStart_In in Hi.
    rewrite Forall_forall in Hvalid. destruct (Hvalid i Hi) as [_ [H _]]. exact H. }
  assert (Hs : sortedByStart (sortByStart overlaps)).
  { apply sortByStart_sorted. apply Forall_forall. intros i Hi.
    rewrite Forall_forall in Hvalid. destruct (Hvalid i Hi) as [_ [H _]]. exact H. }
  assert (Hc : forall x, covered (sortByStart overlaps) x <-> covered overlaps x).
  { intros x. unfold covered. split; intros [i [Hi Hx]]; exists i; split; auto;
      apply sortByStart_In; exact Hi. }
  unfold compressEdgeOverlaps.
  destruct (sortByStart overlaps) as [| first rest] eqn:Hsorted.
  - repeat split; try constructor; apply Hc.
  - destruct (mergeFrom_spec rest first Hs Hwf) as [W [B [D C]]].
    split; [ apply disjoint_sorted; assumption | ].
    split; [ exact D | ].
    intros x. rewrite C. apply Hc.
Qed.
Lemma compressEdgeOverlaps_three_overlaps :
  Forall validInterval Examples.threeOverlaps
  /\ OverlapUtils.compressEdgeOverlaps Examples.threeOverlaps = [ (0, 0.375); (0.5, 1) ]
  /\ (sortedByStart (compressEdgeOverlaps Examples.threeOverlaps)
      /\ pairwiseDisjoint (compressEdgeOverlaps Examples.threeOverlaps)
      /\ (forall x, covered (compressEdgeOverlaps Examples.threeOverlaps) x
                    <-> covered Examples.threeOverlaps x)).
Proof.
  assert (Hvalid : Forall validInterval Examples.threeOverlaps).
  { repeat constructor; vm_compute; reflexivity. }
  split; [ exact Hvalid | ].
  split; [ vm_compute; reflexivity | ].
  exact (compressEdgeOverlaps_sorted_disjoint_cover Examples.threeOverlaps Hvalid).
Defined.

End IntervalFacts.


(** ** Geometric predicates *)

Section TriangleLineUtilsFacts.
Import TriangleLineUtils.
Local Open Scope float_scope.

(** [isLineTriangleEdge] tests each endpoint against the vertices on its
    own: it is true exactly when the start coincides with some vertex and
    the end coincides with some vertex. *)
Lemma isLineTriangleEdge_each_endpoint :
  forall tri line,
    isLineTriangleEdge tri line
    = SpecWords.matchesSomeVertex tri (Line3.start line)
      && SpecWords.matchesSomeVertex tri (Line3.end_ line).
Proof.
  intros tri line.
  unfold isLineTriangleEdge, SpecWords.matchesSomeVertex, SpecWords.coincide,
    ExtendedTriangle.points.
  cbn [edgeLoop].
  destruct (Vector3.distanceToSquared (Line3.start line) (ExtendedTriangle.a tri) <=? EPSILON);
  destruct (Vector3.distanceToSquared (Line3.end_ line) (ExtendedTriangle.a tri) <=? EPSILON);
  destruct (Vector3.distanceToSquared (Line3.start line) (ExtendedTriangle.b tri) <=? EPSILON);
  destruct (Vector3.distanceToSquared (Line3.end_ line) (ExtendedTriangle.b tri) <=? EPSILON);
  destruct (Vector3.distanceToSquared (Line3.start line) (ExtendedTriangle.c tri) <=? EPSILON);
  destruct (Vector3.distanceToSquared (Line3.end_ line) (ExtendedTriangle.c tri) <=? EPSILON);
  reflexivity.
Qed.

(** Whenever two different vertices are matched the predicate is true. *)
Lemma isLineTriangleEdge_two_vertices :
  forall tri line,
    SpecWords.matchesTwoVertices tri line = true -> isLineTriangleEdge tri line = true.
Proof.
  intros tri line H.
  rewrite isLineTriangleEdge_each_endpoint.
  unfold SpecWords.matchesTwoVertices, SpecWords.matchesSomeVertex in *.
  repeat match goal with
         | |- context [SpecWords.coincide ?p ?q] => destruct (SpecWords.coincide p q)
         end; simpl in *; congruence.
Qed.

(** C6. The zero-length line at one vertex of a right triangle touches one
    vertex only, yet [isLineTriangleEdge] answers true: both endpoints are
    matched by that same vertex. *)
Theorem isLineTriangleEdge_same_vertex_twice :
  isLineTriangleEdge Examples.rightTriangle Examples.pointAtVertex = true
  /\ SpecWords.matchesTwoVertices Examples.rightTriangle Examples.pointAtVertex = false
  /\ SpecWords.matchesSomeVertex Examples.rightTriangle
       (Line3.start Examples.pointAtVertex) = true
  /\ Line3.start Examples.pointAtVertex = Line3.end_ Examples.pointAtVertex.
Proof.
  rewrite isLineTriangleEdge_each_endpoint.
  repeat split; vm_compute; reflexivity.
Qed.

(** C7, as the code has it.  The edge test is one-sided: true exactly when
    the absolute dot product of the normalized direction with the projection
    vector is at least 1 - epsilon; its answer does not depend on the
    scratch vector it overwrites.  The triangle test is true exactly when
    the absolute dot product of the plane normal with the projection vector
    is at most epsilon, the normal being read after the triangle's cached
    plane has been refreshed if the triangle was flagged; the call leaves
    the vertices alone and leaves an unflagged triangle as it was. *)
Theorem degeneracy_predicates_characterised :
  forall line tri projectionVector st,
    (fst (isProjectedLineDegenerate line projectionVector st) = true <->
     (1.0 - EPSILON
      <=? abs (Vector3.dot (Vector3.normalize (Line3.delta line)) projectionVector)) = true)
    /\ (forall st', fst (isProjectedLineDegenerate line projectionVector st')
                    = fst (isProjectedLineDegenerate line projectionVector st))
    /\ (fst (isProjectedTriangleDegenerate tri projectionVector) = true <->
        (abs (Vector3.dot (Plane.normal (ExtendedTriangle.plane (SpecWords.refreshed tri)))
                          projectionVector) <=? EPSILON) = true)
    /\ snd (isProjectedTriangleDegenerate tri projectionVector) = SpecWords.refreshed tri
    /\ ExtendedTriangle.points (snd (isProjectedTriangleDegenerate tri projectionVector))
       = ExtendedTriangle.points tri
    /\ (ExtendedTriangle.needsUpdate tri = false ->
        snd (isProjectedTriangleDegenerate tri projectionVector) = tri).
Proof.
  intros line tri pv st.
  unfold isProjectedLineDegenerate, isYProjectedLineDegenerate,
    isProjectedTriangleDegenerate, isYProjectedTriangleDegenerate, SpecWords.refreshed, JS.geb.
  cbn [fst snd].
  repeat split; try tauto.
  - destruct (ExtendedTriangle.needsUpdate tri); reflexivity.
  - intros Hclean. rewrite Hclean. reflexivity.
Qed.

(** C7, against the claim.  For an edge along y and the projection vector
    (0, 2, 0) the edge test is true although the absolute dot product, 2, is
    not within epsilon of 1; and the triangle test clears the flag and
    rewrites the plane of a flagged triangle it is given. *)
Lemma degeneracy_predicates_not_as_claimed :
  (fst (isProjectedLineDegenerate Examples.verticalEdge Examples.longUp
          (mkScratch Vector3.zero)) = true
   /\ SpecWords.withinEpsilonOfOne
        (Vector3.dot (Vector3.normalize (Line3.delta Examples.verticalEdge)) Examples.longUp)
      = false)
  /\ (ExtendedTriangle.needsUpdate Examples.dirtyTriangle = true
      /\ ExtendedTriangle.needsUpdate
           (snd (isProjectedTriangleDegenerate Examples.dirtyTriangle Examples.yAxis)) = false
      /\ Plane.normal (ExtendedTriangle.plane Examples.dirtyTriangle) = Examples.vec 1 0 0
      /\ Plane.normal (ExtendedTriangle.plane
           (snd (isProjectedTriangleDegenerate Examples.dirtyTriangle Examples.yAxis)))
         = Examples.vec 0 (-1) 0).
Proof.
  repeat split; vm_compute; reflexivity.
Qed.

End TriangleLineUtilsFacts.

(** ** The projected overlap solver *)

Section ProjectedOverlapFacts.
Import Projection ProjectedOverlap.
Local Open Scope float_scope.

(** C8, as the code has it.  There are three ways to "no overlap": the
    flattened triangle has an area of at most [AREA_EPSILON], the sweep of
    its three edges does not find two crossing points, or the two spans are
    separated.  In every other case the result is the part of the original
    line between the parameters [max(s1, s2)] and [min(e1, e2)], each
    divided by the length of the flattened line. *)
Theorem getProjectedLineOverlap_characterised :
  forall line triangle projectionVector,
    let ax := dominantAxis projectionVector in
    let _tri := flattenTriangle ax triangle in
    let _line := flattenLine ax line in
    let sp := spans _line (snd (crossings _line _tri)) in
    (getProjectedLineOverlap line triangle projectionVector = None <->
     (ExtendedTriangle.getArea _tri <=? AREA_EPSILON) = true
     \/ fst (crossings _line _tri) <> 2%nat
     \/ separated sp = true)
    /\ (forall r, getProjectedLineOverlap line triangle projectionVector = Some r ->
                  r = Line3.mk
                        (Line3.at_ line (JS.Math_max (s1 sp) (s2 sp) / Line3.distance _line))
                        (Line3.at_ line (JS.Math_min (e1 sp) (e2 sp) / Line3.distance _line))).
Proof.
  intros line triangle pv ax _tri _line sp.
  unfold getProjectedLineOverlap.
  fold ax. fold _tri. fold _line.
  subst sp.
  destruct (ExtendedTriangle.getArea _tri <=? AREA_EPSILON) eqn:Harea.
  { split; [ split; auto | intros r Hr; discriminate ]. }
  destruct (crossings _line _tri) as [intersectCount _triLine] eqn:Hcross.
  cbn [fst snd].
  destruct (Nat.eqb intersectCount 2) eqn:Hcount.
  - apply Nat.eqb_eq in Hcount.
    destruct (separated (spans _line _triLine)) eqn:Hsep.
    + split; [ split; auto | intros r Hr; discriminate ].
    + split.
      * split; [ discriminate | ].
        intros [H | [H | H]]; [ discriminate | contradiction | discriminate ].
      * intros r Hr. inversion Hr. reflexivity.
  - apply Nat.eqb_neq in Hcount.
    split; [ split; auto | intros r Hr; discriminate ].
Qed.

(** C8, against the claim.  The vertical plane through the grazing edge
    touches the projection of the triangle above it in one vertex: the area
    is 0.5, the vertex lies strictly inside the span of the edge, so the
    spans are not disjoint, and the result is still "no overlap", since only
    one crossing point is found. *)
Lemma getProjectedLineOverlap_single_crossing :
  getProjectedLineOverlap Examples.grazingEdge Examples.triangleAbove Examples.yAxis = None
  /\ (ExtendedTriangle.getArea (flattenTriangle AxisY Examples.triangleAbove) <=? AREA_EPSILON)
     = false
  /\ SpecWords.spansDisjoint Examples.grazingEdge Examples.triangleAbove Examples.yAxis = false
  /\ fst (crossings (flattenLine AxisY Examples.grazingEdge)
                    (flattenTriangle AxisY Examples.triangleAbove)) = 1%nat.
Proof.
  repeat split; vm_compute; reflexivity.
Qed.

End ProjectedOverlapFacts.

(** ** The occlusion test of one triangle *)

Section ExtentFacts.
Import Projection ProjectionGenerator.
Local Open Scope float_scope.

(** The extent test of the occlusion callback is the far-side test along
    the y axis, whatever the projection vector. *)
Lemma triangleBelowLine_is_along_Y :
  forall line tri, triangleBelowLine line tri = SpecWords.triangleFarSideAlong AxisY line tri.
Proof.
  intros line tri. reflexivity.
Qed.

(** A triangle that passes the extent test is skipped with the hidden
    intervals untouched. *)
Lemma intersectsTriangle_below_line :
  forall env projectionVector line tri hiddenOverlaps,
    triangleBelowLine line tri = true ->
    intersectsTriangle env projectionVector line tri hiddenOverlaps = (false, hiddenOverlaps).
Proof.
  intros env pv line tri hidden Hbelow.
  unfold intersectsTriangle. rewrite Hbelow. reflexivity.
Qed.

(** C1.  With the projection vector (1, 0, 0) the dominant axis is x, but
    the extent test still compares y coordinates.  A triangle in front of an
    edge along x, hence not on its far side, is skipped because it reaches
    no higher in y; and a triangle behind an edge along x, hence on its far
    side, passes the extent test because it reaches higher in y. *)
Theorem extent_test_ignores_projection_axis :
  dominantAxis Examples.xAxis = AxisX
  /\ (SpecWords.triangleFarSideAlong AxisX Examples.edgeBehind Examples.triangleInFront = false
      /\ triangleBelowLine Examples.edgeBehind Examples.triangleInFront = true
      /\ forall env hiddenOverlaps,
           intersectsTriangle env Examples.xAxis Examples.edgeBehind Examples.triangleInFront
                              hiddenOverlaps
           = (false, hiddenOverlaps))
  /\ (SpecWords.triangleFarSideAlong AxisX Examples.edgeInFront Examples.triangleBehind = true
      /\ triangleBelowLine Examples.edgeInFront Examples.triangleBehind = false).
Proof.
  split; [ vm_compute; reflexivity | ].
  split; [ | split; vm_compute; reflexivity ].
  split; [ vm_compute; reflexivity | ].
  assert (Hbelow : triangleBelowLine Examples.edgeBehind Examples.triangleInFront = true)
    by (vm_compute; reflexivity).
  split; [ exact Hbelow | ].
  intros env hidden. apply intersectsTriangle_below_line. exact Hbelow.
Qed.

End ExtentFacts.

(** ** The traversal of the spatial index *)

Section TraversalFacts.
Import MeshBVH.
Context {S : Type}.
Variable geo : Geometry.
Variable intersectsBounds : Box3.t -> bool.
Variable intersectsTriangle : ExtendedTriangle.t -> S -> bool * S.

Lemma iterateOverTriangles_app :
  forall l1 l2 s,
    iterateOverTriangles geo intersectsTriangle (l1 ++ l2) s
    = if fst (iterateOverTriangles geo intersectsTriangle l1 s)
      then (true, snd (iterateOverTriangles geo intersectsTriangle l1 s))
      else iterateOverTriangles geo intersectsTriangle l2
             (snd (iterateOverTriangles geo intersectsTriangle l1 s)).
Proof.
  induction l1 as [| i rest IH]; intros l2 s; cbn [app iterateOverTriangles].
  - reflexivity.
  - destruct (intersectsTriangle (setTriangle geo (3 * i)) s) as [stop s1].
    destruct stop; cbn [fst snd]; [ reflexivity | apply IH ].
Qed.

(** A traversal hands the callback the admitted triangles, in order, until
    the callback asks to stop. *)
Lemma shapecastTraverse_admitted :
  forall node s,
    shapecastTraverse geo intersectsBounds intersectsTriangle node s
    = iterateOverTriangles geo intersectsTriangle (admitted intersectsBounds node) s.
Proof.
  induction node as [offset count | box1 c1 IH1 box2 c2 IH2]; intros s; simpl.
  - reflexivity.
  - rewrite iterateOverTriangles_app.
    destruct (intersectsBounds box1).
    + rewrite IH1.
      destruct (iterateOverTriangles geo intersectsTriangle (admitted intersectsBounds c1) s)
        as [stop s1]; simpl.
      destruct stop; [ reflexivity | ].
      destruct (intersectsBounds box2); [ apply IH2 | reflexivity ].
    + simpl. destruct (intersectsBounds box2); [ apply IH2 | reflexivity ].
Qed.

End TraversalFacts.

(** ** The self-intersection detector *)

Section IntersectionEdgesFacts.
Import Projection IntersectionEdges.
Local Open Scope float_scope.

Variable env : Env.t.
Variable bvh : MeshBVH.t.

Lemma iterate_pushes_pair_edges :
  forall off i js edges,
    MeshBVH.iterateOverTriangles (MeshBVH.geometry bvh)
      (intersectsTriangle env off (outerTriangle (MeshBVH.geometry bvh) i)) js edges
    = (false, edges ++ flat_map (SpecWords.pairEdges env bvh off i) js).
Proof.
  intros off i js. induction js as [| j rest IH]; intros edges;
    cbn [MeshBVH.iterateOverTriangles flat_map].
  - rewrite app_nil_r. reflexivity.
  - unfold intersectsTriangle at 1, SpecWords.pairEdges at 1.
    destruct (pairEdge env off (outerTriangle (MeshBVH.geometry bvh) i)
                (MeshBVH.setTriangle (MeshBVH.geometry bvh) (3 * j))) as [e |].
    + rewrite IH, <- app_assoc. reflexivity.
    + rewrite IH. reflexivity.
Qed.

Lemma outerStep_appends :
  forall off edges i,
    outerStep env bvh off edges i = edges ++ SpecWords.edgesOfOuter env bvh off i.
Proof.
  intros off edges i. unfold outerStep, MeshBVH.shapecast.
  rewrite shapecastTraverse_admitted, iterate_pushes_pair_edges. reflexivity.
Qed.

Lemma fold_outerStep :
  forall off indices edges,
    fold_left (outerStep env bvh off) indices edges
    = edges ++ flat_map (SpecWords.edgesOfOuter env bvh off) indices.
Proof.
  intros off indices. induction indices as [| i rest IH]; intros edges; simpl.
  - rewrite app_nil_r. reflexivity.
  - rewrite IH, outerStep_appends, <- app_assoc. reflexivity.
Qed.

(** The detector pushes, for each outer triangle in turn and each triangle
    the traversal admits for it in turn, the segment of that ordered pair. *)
Lemma generateIntersectionEdges_by_pairs :
  forall projectionVector,
    generateIntersectionEdges env bvh projectionVector
    = flat_map (SpecWords.edgesOfOuter env bvh (offsetVector projectionVector))
               (outerIndices (vertCount (MeshBVH.geometry bvh))).
Proof.
  intros pv. unfold generateIntersectionEdges. rewrite fold_outerStep. reflexivity.
Qed.


End IntersectionEdgesFacts.

Section OffsetFacts.
Import Projection IntersectionEdges.
Local Open Scope float_scope.




End OffsetFacts.

Section DetectorClaims.
Import Projection IntersectionEdges.
Local Open Scope float_scope.






End DetectorClaims.

(** ** The occlusion query of one candidate edge *)

Section OcclusionQueryFacts.
Import ProjectionGenerator SpecWords.
Local Open Scope float_scope.

Variable env : Env.t.
Variable projectionVector : Vector3.t.
Variable line : Line3.t.


Variable geo : MeshBVH.Geometry.


End OcclusionQueryFacts.

Section OcclusionQueryClaim.
Import ProjectionGenerator SpecWords.
Local Open Scope float_scope.


End OcclusionQueryClaim.

(** ** The generator *)

Section GeneratorClaims.
Import ProjectionGenerator.
Local Open Scope float_scope.



End GeneratorClaims.

(** ** The topology filter *)

Section ComponentsFacts.
Import PostProcessing.

Lemma componentsGet_add :
  forall comps cid r k,
    componentsGet (componentsAdd comps cid r) k
    = if Z.eqb cid k
      then Some (match componentsGet comps cid with
                 | Some members =>
                     if existsb (Nat.eqb r) members then members else members ++ [r]
                 | None => [r]
                 end)
      else componentsGet comps k.
Proof.
  induction comps as [| [k0 members] rest IH]; intros cid r k;
    cbn [componentsAdd componentsGet].
  - destruct (Z.eqb cid k); reflexivity.
  - destruct (Z.eqb k0 cid) eqn:Hk0.
    + apply Z.eqb_eq in Hk0. subst k0. cbn [componentsGet].
      destruct (Z.eqb cid k); reflexivity.
    + cbn [componentsGet]. rewrite IH.
      destruct (Z.eqb cid k) eqn:Hck; [ | reflexivity ].
      apply Z.eqb_eq in Hck. subst k. rewrite Hk0. reflexivity.
Qed.

Lemma componentsAdd_keys :
  forall comps cid r k,
    In k (map fst (componentsAdd comps cid r)) <-> k = cid \/ In k (map fst comps).
Proof.
  induction comps as [| [k0 members] rest IH]; intros cid r k;
    cbn [componentsAdd map fst In].
  - intuition.
  - destruct (Z.eqb k0 cid) eqn:Hk0; cbn [map fst In].
    + apply Z.eqb_eq in Hk0. subst. intuition.
    + rewrite IH. intuition.
Qed.

Lemma componentsAdd_NoDup :
  forall comps cid r,
    NoDup (map fst comps) -> NoDup (map fst (componentsAdd comps cid r)).
Proof.
  induction comps as [| [k0 members] rest IH]; intros cid r Hnd;
    cbn [componentsAdd map fst].
  - constructor; [ simpl; tauto | constructor ].
  - inversion Hnd as [| ? ? Hnotin Hrest]; subst.
    destruct (Z.eqb k0 cid) eqn:Hk0; cbn [map fst].
    + constructor; assumption.
    + constructor; [ | apply IH; exact Hrest ].
      rewrite componentsAdd_keys. intros [-> | Hin]; [ | contradiction ].
      rewrite Z.eqb_refl in Hk0. discriminate.
Qed.

Lemma componentsGet_In :
  forall comps k members,
    componentsGet comps k = Some members -> In (k, members) comps.
Proof.
  induction comps as [| [k0 ms] rest IH]; intros k members H; cbn [componentsGet] in H.
  - discriminate.
  - destruct (Z.eqb k0 k) eqn:Hk.
    + apply Z.eqb_eq in Hk. inversion H. subst. left. reflexivity.
    + right. apply IH, H.
Qed.

Lemma In_componentsGet :
  forall comps k members,
    NoDup (map fst comps) -> In (k, members) comps ->
    componentsGet comps k = Some members.
Proof.
  induction comps as [| [k0 ms] rest IH]; intros k members Hnd Hin.
  - destruct Hin.
  - cbn [map fst] in Hnd. inversion Hnd as [| ? ? Hnotin Hrest]; subst.
    cbn [componentsGet]. destruct Hin as [Heq | Hin].
    + inversion Heq. subst. rewrite Z.eqb_refl. reflexivity.
    + destruct (Z.eqb k0 k) eqn:Hk.
      * apply Z.eqb_eq in Hk. subst. exfalso. apply Hnotin.
        apply in_map_iff. exists (k, members). split; [ reflexivity | exact Hin ].
      * apply IH; assumption.
Qed.

End ComponentsFacts.

Section HeapFacts.
Import PostProcessing Labelled.

Lemma writeComponentId_length :
  forall h r cid, List.length (writeComponentId h r cid) = List.length h.
Proof.
  induction h as [| l rest IH]; intros r cid; [ reflexivity | ].
  destruct r; cbn [writeComponentId List.length]; [ reflexivity | rewrite IH; reflexivity ].
Qed.

Lemma deref_write_same :
  forall h r cid, (r < List.length h)%nat ->
                  deref (writeComponentId h r cid) r = setComponentId (deref h r) cid.
Proof.
  unfold deref. induction h as [| l rest IH]; intros r cid Hr; cbn [List.length] in Hr.
  - lia.
  - destruct r; cbn [writeComponentId nth]; [ reflexivity | apply IH; lia ].
Qed.

Lemma deref_write_other :
  forall h r cid j, j <> r -> deref (writeComponentId h r cid) j = deref h j.
Proof.
  unfold deref. induction h as [| l rest IH]; intros r cid j Hj.
  - reflexivity.
  - destruct r, j; cbn [writeComponentId nth]; try reflexivity; try congruence.
    apply IH. congruence.
Qed.

Lemma deref_out_of_range :
  forall h r, (List.length h <= r)%nat -> deref h r = danglingLine.
Proof.
  intros h r Hr. unfold deref. apply nth_overflow. exact Hr.
Qed.

Lemma pending_le_length : forall h, (pending h <= List.length h)%nat.
Proof.
  intros h. unfold pending. apply filter_length_le.
Qed.

Lemma pending_write :
  forall h r cid,
    (r < List.length h)%nat -> componentId (deref h r) = (-1)%Z -> cid <> (-1)%Z ->
    S (pending (writeComponentId h r cid)) = pending h.
Proof.
  unfold pending, deref.
  induction h as [| l rest IH]; intros r cid Hr Hun Hcid; cbn [List.length] in Hr.
  - lia.
  - destruct r; cbn [writeComponentId nth filter] in *.
    + rewrite Hun. cbn [componentId setComponentId].
      destruct (Z.eqb cid (-1)) eqn:E; [ apply Z.eqb_eq in E; contradiction | ].
      reflexivity.
    + destruct (Z.eqb (componentId l) (-1)); cbn [List.length];
        rewrite <- (IH r cid); try lia; auto.
Qed.

End HeapFacts.

Section LabellingFacts.
Import PostProcessing Labelled.

Lemma unlabelled_in_range :
  forall st r, unlabelled st r = true ->
               (r < List.length (heap st))%nat /\ componentId (deref (heap st) r) = (-1)%Z.
Proof.
  intros st r H. unfold unlabelled in H. apply Z.eqb_eq in H.
  split; [ | exact H ].
  destruct (Nat.lt_ge_cases r (List.length (heap st))) as [Hlt | Hge]; [ exact Hlt | ].
  rewrite (deref_out_of_range _ _ Hge) in H. discriminate.
Qed.

Lemma labelled_iff :
  forall st r, unlabelled st r = false <-> componentId (deref (heap st) r) <> (-1)%Z.
Proof.
  intros st r. unfold unlabelled. rewrite Z.eqb_neq. tauto.
Qed.

Lemma Grows_refl : forall st, Grows st st.
Proof.
  intros st. constructor; auto.
Qed.

Lemma Grows_trans : forall st1 st2 st3, Grows st1 st2 -> Grows st2 st3 -> Grows st1 st3.
Proof.
  intros st1 st2 st3 [L1 P1 K1 F1] [L2 P2 K2 F2].
  constructor.
  - rewrite L2. exact L1.
  - lia.
  - intros j Hj. apply K2, K1, Hj.
  - intros j. rewrite F2. apply F1.
Qed.

Lemma pending_positive :
  forall h r, (r < List.length h)%nat -> componentId (deref h r) = (-1)%Z ->
              (1 <= pending h)%nat.
Proof.
  unfold pending, deref.
  induction h as [| l rest IH]; intros r Hr Hun; cbn [List.length] in Hr; [ lia | ].
  cbn [filter]. destruct r; cbn [nth] in Hun.
  - rewrite Hun. cbn. lia.
  - destruct (Z.eqb (componentId l) (-1)); cbn [List.length];
      specialize (IH r ltac:(lia) Hun); lia.
Qed.

(** The two writes that open [dfs] keep the map and the labels in
    agreement and label one more line. *)
Lemma label_consistent :
  forall st r,
    Consistent st -> unlabelled st r = true ->
    Consistent (label st r)
    /\ Grows st (label st r)
    /\ currentComponent (label st r) = currentComponent st
    /\ unlabelled (label st r) r = false
    /\ S (pending (heap (label st r))) = pending (heap st).
Proof.
  intros st r [Hcur Hkeys Hmem Hlab] Hun.
  destruct (unlabelled_in_range st r Hun) as [Hr Hcid].
  assert (Hne : currentComponent st <> (-1)%Z) by lia.
  assert (Hother : forall j, j <> r ->
            deref (writeComponentId (heap st) r (currentComponent st)) j = deref (heap st) j).
  { intros j Hj. apply deref_write_other. exact Hj. }
  assert (Hsame : deref (writeComponentId (heap st) r (currentComponent st)) r
                  = setComponentId (deref (heap st) r) (currentComponent st)).
  { apply deref_write_same. exact Hr. }
  split; [ | split; [ | split; [ reflexivity | split ] ] ].
  - constructor; cbn [label heap components currentComponent].
    + exact Hcur.
    + apply componentsAdd_NoDup. exact Hkeys.
    + intros k members Hget. rewrite componentsGet_add in Hget.
      destruct (Z.eqb (currentComponent st) k) eqn:Hk.
      * apply Z.eqb_eq in Hk. subst k. split; [ exact Hne | ].
        intros j Hj.
        assert (Hcases : j = r \/ exists old, componentsGet (components st) (currentComponent st)
                                              = Some old /\ In j old).
        { inversion Hget as [Hm]. clear Hget.
          destruct (componentsGet (components st) (currentComponent st)) as [old |] eqn:Hold.
          - destruct (existsb (Nat.eqb r) old); subst members.
            + right. exists old. split; [ reflexivity | exact Hj ].
            + apply in_app_or in Hj. destruct Hj as [Hj | [Hj | []]].
              * right. exists old. split; [ reflexivity | exact Hj ].
              * left. symmetry. exact Hj.
          - subst members. destruct Hj as [Hj | []]. left. symmetry. exact Hj. }
        destruct Hcases as [-> | [old [Hold Hj']]].
        -- rewrite Hsame. reflexivity.
        -- destruct (Hmem _ _ Hold) as [_ Hall]. specialize (Hall j Hj').
           rewrite Hother; [ exact Hall | ]. intros ->. congruence.
      * destruct (Hmem _ _ Hget) as [Hk1 Hall]. split; [ exact Hk1 | ].
        intros j Hj. specialize (Hall j Hj).
        rewrite Hother; [ exact Hall | ]. intros ->. congruence.
    + intros j Hj Hlabelled. rewrite writeComponentId_length in Hj.
      rewrite componentsGet_add.
      destruct (Nat.eq_dec j r) as [-> | Hjr].
      * rewrite Hsame. cbn [componentId setComponentId]. rewrite Z.eqb_refl.
        eexists. split; [ reflexivity | ].
        destruct (componentsGet (components st) (currentComponent st)) as [old |].
        -- destruct (existsb (Nat.eqb r) old) eqn:Hex.
           ++ apply existsb_exists in Hex. destruct Hex as [x [Hx Hrx]].
              apply Nat.eqb_eq in Hrx. subst x. exact Hx.
           ++ apply in_or_app. right. left. reflexivity.
        -- left. reflexivity.
      * rewrite (Hother j Hjr) in *.
        destruct (Hlab j Hj Hlabelled) as [old [Hold Hin]].
        destruct (Z.eqb (currentComponent st) (componentId (deref (heap st) j))) eqn:Hk.
        -- apply Z.eqb_eq in Hk. rewrite <- Hk in Hold. rewrite Hold.
           eexists. split; [ reflexivity | ].
           destruct (existsb (Nat.eqb r) old); [ exact Hin | ].
           apply in_or_app. left. exact Hin.
        -- exists old. split; assumption.
  - constructor; cbn [label heap].
    + apply writeComponentId_length.
    + pose proof (pending_write (heap st) r (currentComponent st) Hr Hcid Hne). lia.
    + intros j Hj. unfold unlabelled in *. cbn [label heap].
      rewrite Hother; [ exact Hj | ].
      intros ->. rewrite Hun in Hj. discriminate.
    + intros j. destruct (Nat.eq_dec j r) as [-> | Hjr].
      * rewrite Hsame. reflexivity.
      * rewrite Hother by exact Hjr. reflexivity.
  - unfold unlabelled. cbn [label heap]. rewrite Hsame. cbn [componentId setComponentId].
    apply Z.eqb_neq. exact Hne.
  - cbn [label heap]. apply pending_write; assumption.
Qed.

Lemma forConnections_labels :
  forall visit depth,
    (forall r st, Consistent st -> unlabelled st r = true ->
                  (pending (heap st) <= depth)%nat -> Labels st (visit r st)) ->
    forall conns st,
      Consistent st -> (pending (heap st) <= depth)%nat ->
      Labels st (forConnections visit conns st).
Proof.
  intros visit depth Hvisit.
  induction conns as [| c rest IH]; intros st Hst Hdepth; cbn [forConnections].
  - exists st. split; [ reflexivity | ]. split; [ exact Hst | ].
    split; [ apply Grows_refl | reflexivity ].
  - destruct (unlabelled st c) eqn:Hc.
    + destruct (Hvisit c st Hst Hc Hdepth) as [st1 [-> [Hst1 [Hg1 Hc1]]]].
      destruct (IH st1 Hst1) as [st2 [Hres [Hst2 [Hg2 Hc2]]]].
      { pose proof (fewer_pending _ _ Hg1). lia. }
      exists st2. split; [ exact Hres | ]. split; [ exact Hst2 | ].
      split; [ eapply Grows_trans; eassumption | congruence ].
    + apply IH; assumption.
Qed.

(** A call of [dfs] on an unlabelled line returns when given a depth of at
    least the number of unlabelled lines, and labels the line. *)
Lemma dfs_labels :
  forall depth r st,
    Consistent st -> unlabelled st r = true -> (pending (heap st) <= depth)%nat ->
    Labels st (dfs depth r st).
Proof.
  induction depth as [| depth IH]; intros r st Hst Hun Hdepth.
  - destruct (unlabelled_in_range st r Hun) as [Hr Hcid].
    pose proof (pending_positive _ _ Hr Hcid). lia.
  - cbn [dfs]. rewrite Hun. cbn [negb].
    destruct (label_consistent st r Hst Hun) as [Hst1 [Hg1 [Hc1 [Hlab1 Hpend]]]].
    destruct (forConnections_labels (dfs depth) depth IH
                (connections (deref (heap (label st r)) r)) (label st r) Hst1)
      as [st2 [Hres [Hst2 [Hg2 Hc2]]]].
    { lia. }
    exists st2. split; [ exact Hres | ]. split; [ exact Hst2 | ].
    split; [ eapply Grows_trans; eassumption | congruence ].
Qed.

Lemma dfs_labels_line :
  forall depth r st st',
    Consistent st -> unlabelled st r = true -> dfs (S depth) r st = Some st' ->
    (pending (heap (label st r)) <= depth)%nat ->
    unlabelled st' r = false.
Proof.
  intros depth r st st' Hst Hun Hdfs Hdepth.
  cbn [dfs] in Hdfs. rewrite Hun in Hdfs. cbn [negb] in Hdfs.
  destruct (label_consistent st r Hst Hun) as [Hst1 [Hg1 [Hc1 [Hlab1 Hpend]]]].
  destruct (forConnections_labels (dfs depth) depth (dfs_labels depth)
              (connections (deref (heap (label st r)) r)) (label st r) Hst1 Hdepth)
    as [st2 [Hres [Hst2 [Hg2 Hc2]]]].
  rewrite Hres in Hdfs. inversion Hdfs. subst st2.
  apply (labels_kept _ _ Hg2). exact Hlab1.
Qed.

(** The loop of [findConnectedComponents] returns, keeps the map and the
    labels in agreement and leaves every line of the array labelled. *)
Lemma labelAll_labels :
  forall lines st,
    Consistent st ->
    exists st',
      labelAll lines st = Some st' /\ Consistent st' /\ Grows st st'
      /\ forall r, In r lines -> unlabelled st' r = false.
Proof.
  induction lines as [| line rest IH]; intros st Hst; cbn [labelAll].
  - exists st. split; [ reflexivity | ]. split; [ exact Hst | ].
    split; [ apply Grows_refl | intros r [] ].
  - destruct (unlabelled st line) eqn:Hun.
    + destruct (unlabelled_in_range st line Hun) as [Hr Hcid].
      pose proof (pending_positive _ _ Hr Hcid) as Hpos.
      pose proof (pending_le_length (heap st)) as Hle.
      destruct (List.length (heap st)) as [| depth] eqn:Hlen; [ lia | ].
      destruct (dfs_labels (S depth) line st Hst Hun Hle) as [st1 [Hres [Hst1 [Hg1 Hc1]]]].
      rewrite Hres.
      assert (Hline : unlabelled st1 line = false).
      { apply (dfs_labels_line depth line st st1 Hst Hun Hres).
        destruct (label_consistent st line Hst Hun) as [_ [_ [_ [_ Hpend]]]]. lia. }
      set (st2 := mkLabelling (heap st1) (components st1) (currentComponent st1 + 1)).
      assert (Hst2 : Consistent st2).
      { destruct Hst1 as [C K M L]. constructor; cbn; auto. lia. }
      destruct (IH st2 Hst2) as [st3 [Hres3 [Hst3 [Hg3 Hall]]]].
      exists st3. split; [ exact Hres3 | ]. split; [ exact Hst3 | ].
      assert (Hg12 : Grows st st2).
      { destruct Hg1 as [L P K F]. constructor; auto. }
      split; [ eapply Grows_trans; eassumption | ].
      intros r [<- | Hr']; [ | apply Hall, Hr' ].
      apply (labels_kept _ _ Hg3). exact Hline.
    + destruct (IH st Hst) as [st3 [Hres3 [Hst3 [Hg3 Hall]]]].
      exists st3. split; [ exact Hres3 | ]. split; [ exact Hst3 | ].
      split; [ exact Hg3 | ].
      intros r [<- | Hr']; [ | apply Hall, Hr' ].
      apply (labels_kept _ _ Hg3). exact Hun.
Qed.

Lemma fresh_consistent :
  forall h, fresh h -> Consistent (mkLabelling h [] 0).
Proof.
  intros h Hfresh. constructor; cbn.
  - lia.
  - constructor.
  - intros k members H. discriminate.
  - intros j Hj Hlab. exfalso. apply Hlab.
    unfold fresh in Hfresh. rewrite Forall_forall in Hfresh.
    apply Hfresh. unfold deref. apply nth_In. exact Hj.
Qed.



Lemma validComponents_has :
  forall h comps k,
    NoDup (map fst comps) ->
    (existsb (Z.eqb k) (validComponents h comps) = true <->
     exists members, componentsGet comps k = Some members /\ componentIsValid h members = true).
Proof.
  intros h comps k Hnd. unfold validComponents.
  rewrite existsb_exists. split.
  - intros [k' [Hin Hk]]. apply Z.eqb_eq in Hk. subst k'.
    apply in_map_iff in Hin. destruct Hin as [[k0 members] [Hk0 Hin]].
    cbn [fst] in Hk0. subst k0.
    apply filter_In in Hin. destruct Hin as [Hin Hvalid]. cbn [snd] in Hvalid.
    exists members. split; [ apply In_componentsGet; assumption | exact Hvalid ].
  - intros [members [Hget Hvalid]].
    exists k. split; [ | apply Z.eqb_refl ].
    apply in_map_iff. exists (k, members). split; [ reflexivity | ].
    apply filter_In. split; [ apply componentsGet_In; exact Hget | exact Hvalid ].
Qed.

End LabellingFacts.

Section TopologyFilterClaim.
Import PostProcessing Labelled.

Lemma firstPass_in_range :
  forall h r, In r (firstPass h (seq 0 (List.length h))) -> (r < List.length h)%nat.
Proof.
  intros h r Hr. unfold firstPass in Hr. apply filter_In in Hr.
  destruct Hr as [Hr _]. apply in_seq in Hr. lia.
Qed.




End TopologyFilterClaim.
(** * Further properties of the code *)

(** ** Arithmetic on finite numbers and on zeros *)

Section ArithmeticFacts.
Import Properties.
Local Open Scope float_scope.

Lemma isFinite_cases :
  forall v, isFinite v = true ->
            (exists s, Prim2SF v = S754_zero s) \/ (exists s m e, Prim2SF v = S754_finite s m e).
Proof.
  intros v H. unfold isFinite in H.
  rewrite FloatAxioms.ltb_spec, abs_spec in H.
  destruct (Prim2SF v) as [s | s | | s m e] eqn:Hv.
  - left. exists s. reflexivity.
  - exfalso. vm_compute in H. discriminate.
  - exfalso. vm_compute in H. discriminate.
  - right. exists s, m, e. reflexivity.
Qed.

(** [v - v] is +0 for every finite [v]. *)
Lemma sub_self : forall v, isFinite v = true -> v - v = 0.
Proof.
  intros v H.
  rewrite <- (SF2Prim_Prim2SF (v - v)). rewrite sub_spec.
  destruct (isFinite_cases v H) as [[s Hv] | [s [m [e Hv]]]]; rewrite Hv.
  - destruct s; reflexivity.
  - unfold SF64sub, SFsub. cbv zeta.
    match goal with
    | |- context [binary_normalize _ _ ?k] =>
        replace k with 0%Z by (symmetry; apply Z.sub_diag)
    end.
    reflexivity.
Qed.

Lemma distanceToSquared_self :
  forall p, finiteVector p -> Vector3.distanceToSquared p p = 0.
Proof.
  intros [px py pz] [Hx [Hy Hz]]. cbn [Vector3.x Vector3.y Vector3.z] in *.
  unfold Vector3.distanceToSquared. cbn [Vector3.x Vector3.y Vector3.z].
  rewrite (sub_self px Hx), (sub_self py Hy), (sub_self pz Hz).
  reflexivity.
Qed.

Lemma zero_mul : forall u v, zeroOrNaN u -> zeroOrNaN (u * v).
Proof.
  intros u v Hu. unfold zeroOrNaN in *. rewrite mul_spec. unfold SF64mul.
  destruct Hu as [-> | [s ->]].
  - left. destruct (Prim2SF v); reflexivity.
  - destruct (Prim2SF v) as [s' | s' | | s' m e]; simpl; eauto.
Qed.

Lemma zero_add : forall u v, zeroOrNaN u -> zeroOrNaN v -> zeroOrNaN (u + v).
Proof.
  intros u v Hu Hv. unfold zeroOrNaN in *. rewrite add_spec. unfold SF64add.
  destruct Hu as [-> | [s ->]], Hv as [-> | [s' ->]]; simpl; eauto.
  destruct s, s'; simpl; eauto.
Qed.

Lemma zero_abs : forall u, zeroOrNaN u -> zeroOrNaN (abs u).
Proof.
  intros u Hu. unfold zeroOrNaN in *. rewrite abs_spec.
  destruct Hu as [-> | [s ->]]; simpl; eauto.
Qed.

Lemma zero_is_zeroOrNaN : zeroOrNaN 0.
Proof.
  right. exists false. reflexivity.
Qed.

(** A zero or NaN is not at or above a positive number. *)
Lemma zero_below :
  forall u bound, zeroOrNaN u -> (0 <? bound) = true -> (bound <=? u) = false.
Proof.
  intros u bound Hu Hb.
  rewrite FloatAxioms.ltb_spec in Hb. rewrite FloatAxioms.leb_spec.
  change (Prim2SF 0) with (S754_zero false) in Hb.
  destruct Hu as [-> | [s ->]];
    destruct (Prim2SF bound) as [[] | [] | | [] m e];
    try discriminate; try reflexivity; destruct s; reflexivity.
Qed.

End ArithmeticFacts.

Section ZeroFacts.
Import Properties.
Local Open Scope float_scope.

Lemma isZero_zeroOrNaN : forall u, isZero u -> zeroOrNaN u.
Proof.
  intros u Hu. right. exact Hu.
Qed.

Lemma mul_zero : forall u v, zeroOrNaN v -> zeroOrNaN (u * v).
Proof.
  intros u v Hv. unfold zeroOrNaN in *. rewrite mul_spec. unfold SF64mul.
  destruct Hv as [-> | [s ->]].
  - left. destruct (Prim2SF u); reflexivity.
  - destruct (Prim2SF u) as [s' | s' | | s' m e]; simpl; eauto.
Qed.

Lemma zero_sub : forall u v, zeroOrNaN u -> zeroOrNaN v -> zeroOrNaN (u - v).
Proof.
  intros u v Hu Hv. unfold zeroOrNaN in *. rewrite sub_spec. unfold SF64sub.
  destruct Hu as [-> | [s ->]], Hv as [-> | [s' ->]]; simpl; eauto.
  destruct s, s'; simpl; eauto.
Qed.

(** [t - t] is a zero or NaN whatever [t] is. *)
Lemma sub_same : forall t, zeroOrNaN (t - t).
Proof.
  intros t. unfold zeroOrNaN. rewrite sub_spec. unfold SF64sub.
  destruct (Prim2SF t) as [s | s | | s m e].
  - right. destruct s; eexists; reflexivity.
  - left. destruct s; reflexivity.
  - left. reflexivity.
  - right. exists false. unfold SFsub. cbv zeta.
    match goal with
    | |- context [binary_normalize _ _ ?k] =>
        replace k with 0%Z by (symmetry; apply Z.sub_diag)
    end.
    reflexivity.
Qed.

Lemma mul_comm : forall u v : float, u * v = v * u.
Proof.
  intros u v.
  rewrite <- (SF2Prim_Prim2SF (u * v)), <- (SF2Prim_Prim2SF (v * u)).
  rewrite !mul_spec. unfold SF64mul. f_equal.
  destruct (Prim2SF u) as [s | s | | s m e], (Prim2SF v) as [s' | s' | | s' m' e'];
    simpl; rewrite ?(xorb_comm s s'); try reflexivity.
  rewrite (Pos.mul_comm m m'), (Z.add_comm e e'). reflexivity.
Qed.

Lemma zero_not_above : forall u, zeroOrNaN u -> (0 <? u) = false.
Proof.
  intros u Hu. rewrite FloatAxioms.ltb_spec.
  change (Prim2SF 0) with (S754_zero false).
  destruct Hu as [-> | [s ->]]; reflexivity.
Qed.

Lemma isZero_mul_finite : forall u v, isZero u -> isFinite v = true -> isZero (u * v).
Proof.
  intros u v [s Hu] Hv. unfold isZero. rewrite mul_spec. unfold SF64mul. rewrite Hu.
  destruct (isFinite_cases v Hv) as [[s' ->] | [s' [m [e ->]]]]; simpl; eauto.
Qed.

Lemma isZero_add : forall u v, isZero u -> isZero v -> isZero (u + v).
Proof.
  intros u v [s Hu] [s' Hv]. unfold isZero. rewrite add_spec. unfold SF64add.
  rewrite Hu, Hv. destruct s, s'; simpl; eauto.
Qed.

Lemma isZero_abs_below :
  forall u bound, isZero u -> (0 <? bound) = true -> (abs u <=? bound) = true.
Proof.
  intros u bound [s Hu] Hb.
  rewrite FloatAxioms.ltb_spec in Hb. rewrite FloatAxioms.leb_spec, abs_spec, Hu.
  change (Prim2SF 0) with (S754_zero false) in Hb.
  destruct (Prim2SF bound) as [[] | [] | | [] m e]; try discriminate; reflexivity.
Qed.

Lemma isZero_0 : isZero 0.
Proof.
  exists false. reflexivity.
Qed.

(** The dot product of the zero vector with any vector is a zero or NaN,
    and a zero when the vector is finite. *)
Lemma dot_zero_vector :
  forall v, zeroOrNaN (Vector3.dot (Vector3.mk 0 0 0) v).
Proof.
  intros [vx vy vz]. unfold Vector3.dot. cbn [Vector3.x Vector3.y Vector3.z].
  repeat apply zero_add; apply zero_mul; apply zero_is_zeroOrNaN.
Qed.

Lemma dot_zero_vector_finite :
  forall v, finiteVector v -> isZero (Vector3.dot (Vector3.mk 0 0 0) v).
Proof.
  intros [vx vy vz] [Hx [Hy Hz]]. unfold Vector3.dot.
  cbn [Vector3.x Vector3.y Vector3.z] in *.
  repeat apply isZero_add; apply isZero_mul_finite; assumption || apply isZero_0.
Qed.

(** A cross product whose components are zeros or NaN is replaced by the
    zero vector in [getNormal]. *)
Lemma getNormal_collapsed :
  forall tr,
    (let n := Vector3.cross (Vector3.subVectors (ExtendedTriangle.c tr) (ExtendedTriangle.b tr))
                            (Vector3.subVectors (ExtendedTriangle.a tr) (ExtendedTriangle.b tr)) in
     zeroOrNaN (Vector3.x n) /\ zeroOrNaN (Vector3.y n) /\ zeroOrNaN (Vector3.z n)) ->
    ExtendedTriangle.getNormal tr = Vector3.mk 0 0 0.
Proof.
  intros tr [Hx [Hy Hz]]. unfold ExtendedTriangle.getNormal, JS.gtb.
  rewrite zero_not_above; [ reflexivity | ].
  unfold Vector3.lengthSq.
  repeat apply zero_add; apply zero_mul; assumption.
Qed.

End ZeroFacts.

(** ** Geometric predicates, continued *)

Section TriangleLineUtilsMore.
Import TriangleLineUtils Properties.
Local Open Scope float_scope.

Lemma coincide_self : forall p, finiteVector p -> SpecWords.coincide p p = true.
Proof.
  intros p Hp. unfold SpecWords.coincide.
  rewrite (distanceToSquared_self p Hp). reflexivity.
Qed.

Lemma isLineTriangleEdge_points :
  forall t1 t2 line,
    ExtendedTriangle.points t1 = ExtendedTriangle.points t2 ->
    isLineTriangleEdge t1 line = isLineTriangleEdge t2 line.
Proof.
  intros t1 t2 line H. unfold isLineTriangleEdge. rewrite H. reflexivity.
Qed.

(** X1.  The answer of [isLineTriangleEdge] does not depend on the order of
    the two endpoints of the line, nor on the order of the three vertices
    of the triangle, nor on the triangle's dirty flag and cached plane. *)
Theorem isLineTriangleEdge_order_insensitive :
  forall a b c flag plane flag' plane' s e,
    isLineTriangleEdge (ExtendedTriangle.mk a b c flag plane) (Line3.mk e s)
    = isLineTriangleEdge (ExtendedTriangle.mk a b c flag plane) (Line3.mk s e)
    /\ isLineTriangleEdge (ExtendedTriangle.mk b c a flag' plane') (Line3.mk s e)
       = isLineTriangleEdge (ExtendedTriangle.mk a b c flag plane) (Line3.mk s e)
    /\ isLineTriangleEdge (ExtendedTriangle.mk b a c flag' plane') (Line3.mk s e)
       = isLineTriangleEdge (ExtendedTriangle.mk a b c flag plane) (Line3.mk s e).
Proof.
  intros a b c flag plane flag' plane' s e.
  rewrite !isLineTriangleEdge_each_endpoint.
  unfold SpecWords.matchesSomeVertex.
  cbn [ExtendedTriangle.a ExtendedTriangle.b ExtendedTriangle.c Line3.start Line3.end_].
  repeat match goal with
         | |- context [SpecWords.coincide ?p ?q] => destruct (SpecWords.coincide p q)
         end; repeat split; reflexivity.
Qed.

Lemma own_edge_is_recognised :
  forall tri line,
    finiteTriangle tri -> In line (edgesOf tri) -> isLineTriangleEdge tri line = true.
Proof.
  intros tri line [Ha [Hb Hc]] Hin.
  rewrite isLineTriangleEdge_each_endpoint. unfold SpecWords.matchesSomeVertex.
  pose proof (coincide_self _ Ha) as Ca.
  pose proof (coincide_self _ Hb) as Cb.
  pose proof (coincide_self _ Hc) as Cc.
  unfold edgesOf in Hin. cbn [In] in Hin.
  repeat destruct Hin as [<- | Hin]; try contradiction;
    cbn [Line3.start Line3.end_]; rewrite ?Ca, ?Cb, ?Cc, ?orb_true_r; reflexivity.
Qed.

(** X2.  Each of the three edges of a triangle whose vertex coordinates are
    finite numbers, taken in either direction, is recognised by
    [isLineTriangleEdge] as an edge of that triangle. *)
Theorem triangle_edges_are_recognised :
  forall tri line,
    finiteTriangle tri -> In line (edgesOf tri) -> isLineTriangleEdge tri line = true.
Proof.
  intros tri line [Ha [Hb Hc]] Hin.
  rewrite isLineTriangleEdge_each_endpoint. unfold SpecWords.matchesSomeVertex.
  unfold SpecWords.coincide.
  unfold edgesOf in Hin. cbn [In] in Hin.
  repeat destruct Hin as [<- | Hin]; try contradiction;
    cbn [Line3.start Line3.end_];
    rewrite ?(distanceToSquared_self _ Ha), ?(distanceToSquared_self _ Hb),
      ?(distanceToSquared_self _ Hc);
    change (0 <=? TriangleLineUtils.EPSILON)%float with true;
    rewrite ?orb_true_r; reflexivity.
Qed.

Lemma right_triangle_hypotenuse_recognised :
  finiteTriangle Examples.rightTriangle
  /\ In (Line3.mk (Examples.vec 0 1 0) (Examples.vec 1 0 0)) (edgesOf Examples.rightTriangle)
  /\ isLineTriangleEdge Examples.rightTriangle
       (Line3.mk (Examples.vec 0 1 0) (Examples.vec 1 0 0)) = true.
Proof.
  assert (Hfin : finiteTriangle Examples.rightTriangle).
  { repeat split; vm_compute; reflexivity. }
  assert (Hin : In (Line3.mk (Examples.vec 0 1 0) (Examples.vec 1 0 0))
                   (edgesOf Examples.rightTriangle)).
  { vm_compute. right. right. right. right. left. reflexivity. }
  split; [ exact Hfin | ]. split; [ exact Hin | ].
  exact (triangle_edges_are_recognised _ _ Hfin Hin).
Defined.

(** X3.  A line of length zero at a point with finite coordinates is never
    classified as degenerate, whatever the projection vector and the
    scratch vector. *)
Theorem zero_length_line_is_not_degenerate :
  forall p projectionVector st,
    finiteVector p ->
    fst (isProjectedLineDegenerate (Line3.mk p p) projectionVector st) = false.
Proof.
  intros [px py pz] pv st [Hx [Hy Hz]]. cbn [Vector3.x Vector3.y Vector3.z] in *.
  unfold isProjectedLineDegenerate, isYProjectedLineDegenerate, JS.geb. cbn [fst].
  unfold Line3.delta, Vector3.subVectors.
  cbn [Line3.start Line3.end_ Vector3.x Vector3.y Vector3.z].
  rewrite (sub_self px Hx), (sub_self py Hy), (sub_self pz Hz).
  change (Vector3.normalize (Vector3.mk 0 0 0)) with (Vector3.mk 0 0 0).
  apply zero_below; [ | reflexivity ].
  apply zero_abs, dot_zero_vector.
Qed.

Lemma zero_length_line_at_origin :
  finiteVector (Examples.vec 0 0 0)
  /\ fst (isProjectedLineDegenerate Examples.pointAtVertex Examples.yAxis
            (mkScratch Vector3.zero)) = false.
Proof.
  assert (Hfin : finiteVector (Examples.vec 0 0 0)).
  { repeat split; vm_compute; reflexivity. }
  split; [ exact Hfin | ].
  exact (zero_length_line_is_not_degenerate (Examples.vec 0 0 0) Examples.yAxis
           (mkScratch Vector3.zero) Hfin).
Defined.

Lemma collapsed_normal_degenerate :
  forall tri projectionVector,
    finiteVector projectionVector ->
    ExtendedTriangle.needsUpdate tri = true ->
    ExtendedTriangle.getNormal tri = Vector3.mk 0 0 0 ->
    fst (isProjectedTriangleDegenerate tri projectionVector) = true.
Proof.
  intros tri pv Hpv Hflag Hn.
  unfold isProjectedTriangleDegenerate, isYProjectedTriangleDegenerate. cbn [fst].
  rewrite Hflag.
  cbn [ExtendedTriangle.update ExtendedTriangle.plane Plane.setFromNormalAndCoplanarPoint
       Plane.normal].
  rewrite Hn.
  apply isZero_abs_below; [ | reflexivity ].
  apply dot_zero_vector_finite. exact Hpv.
Qed.

(** X4.  A triangle the index hands over with two of its three vertices at
    the same point, of finite coordinates, is classified as degenerate for
    every projection vector with finite components, whichever two vertices
    coincide and wherever the third one is: its normal is the zero
    vector. *)
Theorem collapsed_triangle_is_degenerate :
  forall p q projectionVector,
    finiteVector p -> finiteVector projectionVector ->
    fst (isProjectedTriangleDegenerate (ExtendedTriangle.fromPoints p p q) projectionVector)
    = true
    /\ fst (isProjectedTriangleDegenerate (ExtendedTriangle.fromPoints q p p) projectionVector)
       = true
    /\ fst (isProjectedTriangleDegenerate (ExtendedTriangle.fromPoints p q p) projectionVector)
       = true.
Proof.
  intros [px py pz] [qx qy qz] pv [Hx [Hy Hz]] Hpv.
  cbn [Vector3.x Vector3.y Vector3.z] in *.
  split; [ | split ];
    (apply collapsed_normal_degenerate; [ exact Hpv | reflexivity | ]);
    apply getNormal_collapsed;
    unfold ExtendedTriangle.fromPoints, Vector3.cross, Vector3.subVectors;
    cbn [ExtendedTriangle.a ExtendedTriangle.b ExtendedTriangle.c
         Vector3.x Vector3.y Vector3.z].
  - rewrite ?(sub_self px Hx), ?(sub_self py Hy), ?(sub_self pz Hz).
    repeat split; apply zero_sub; apply mul_zero; apply zero_is_zeroOrNaN.
  - rewrite ?(sub_self px Hx), ?(sub_self py Hy), ?(sub_self pz Hz).
    repeat split; apply zero_sub; apply zero_mul; apply zero_is_zeroOrNaN.
  - repeat split;
      match goal with
      | |- zeroOrNaN (?u * ?v - ?v * ?u) => rewrite (mul_comm v u); apply sub_same
      end.
Qed.

Lemma needle_triangle_is_degenerate :
  finiteVector (Examples.vec 1 2 3) /\ finiteVector Examples.yAxis
  /\ (fst (isProjectedTriangleDegenerate
             (ExtendedTriangle.fromPoints (Examples.vec 1 2 3) (Examples.vec 1 2 3)
                (Examples.vec 4 5 6)) Examples.yAxis) = true
      /\ fst (isProjectedTriangleDegenerate
                (ExtendedTriangle.fromPoints (Examples.vec 4 5 6) (Examples.vec 1 2 3)
                   (Examples.vec 1 2 3)) Examples.yAxis) = true
      /\ fst (isProjectedTriangleDegenerate
                (ExtendedTriangle.fromPoints (Examples.vec 1 2 3) (Examples.vec 4 5 6)
                   (Examples.vec 1 2 3)) Examples.yAxis) = true).
Proof.
  assert (Hp : finiteVector (Examples.vec 1 2 3)).
  { repeat split; vm_compute; reflexivity. }
  assert (Hfin : finiteVector Examples.yAxis).
  { repeat split; vm_compute; reflexivity. }
  split; [ exact Hp | ]. split; [ exact Hfin | ].
  exact (collapsed_triangle_is_degenerate (Examples.vec 1 2 3) (Examples.vec 4 5 6)
           Examples.yAxis Hp Hfin).
Defined.

End TriangleLineUtilsMore.

(** ** The projected overlap solver, continued *)

Section ProjectedOverlapMore.
Import Projection ProjectedOverlap.
Local Open Scope float_scope.

(** X5.  The overlap of a line with a triangle depends on the triangle
    through its three vertices with the coordinate on the dominant axis
    zeroed, and on nothing else: not on where along the dominant axis the
    vertices lie, not on the dirty flag and not on the cached plane. *)
Theorem getProjectedLineOverlap_sees_flattened_triangle :
  forall line t1 t2 projectionVector,
    zeroOut (dominantAxis projectionVector) (ExtendedTriangle.a t1)
    = zeroOut (dominantAxis projectionVector) (ExtendedTriangle.a t2) ->
    zeroOut (dominantAxis projectionVector) (ExtendedTriangle.b t1)
    = zeroOut (dominantAxis projectionVector) (ExtendedTriangle.b t2) ->
    zeroOut (dominantAxis projectionVector) (ExtendedTriangle.c t1)
    = zeroOut (dominantAxis projectionVector) (ExtendedTriangle.c t2) ->
    getProjectedLineOverlap line t1 projectionVector
    = getProjectedLineOverlap line t2 projectionVector.
Proof.
  intros line t1 t2 pv Ha Hb Hc.
  unfold getProjectedLineOverlap.
  assert (Hflat : flattenTriangle (dominantAxis pv) t1 = flattenTriangle (dominantAxis pv) t2).
  { unfold flattenTriangle, ExtendedTriangle.update, ExtendedTriangle.getNormal.
    cbn [ExtendedTriangle.a ExtendedTriangle.b ExtendedTriangle.c].
    rewrite Ha, Hb, Hc. reflexivity. }
  rewrite Hflat. reflexivity.
Qed.

Lemma overlap_of_lifted_triangle :
  getProjectedLineOverlap MoreExamples.longEdgeBelow Examples.triangleAbove Examples.yAxis
  = getProjectedLineOverlap MoreExamples.longEdgeBelow MoreExamples.triangleLifted Examples.yAxis
  /\ getProjectedLineOverlap MoreExamples.longEdgeBelow Examples.triangleAbove Examples.yAxis
     <> None.
Proof.
  split.
  - apply (getProjectedLineOverlap_sees_flattened_triangle MoreExamples.longEdgeBelow
             Examples.triangleAbove MoreExamples.triangleLifted Examples.yAxis);
      vm_compute; reflexivity.
  - vm_compute. discriminate.
Defined.

End ProjectedOverlapMore.

(** ** The self-intersection detector, continued *)

Section IntersectionEdgesMore.
Import Projection IntersectionEdges.
Local Open Scope float_scope.

Lemma Vector3_equals_refl :
  forall v, SpecWords.allNumbers v -> Vector3.equals v v = true.
Proof.
  intros [vx vy vz] [Hx [Hy Hz]]. cbn [Vector3.x Vector3.y Vector3.z] in *.
  unfold Vector3.equals. cbn [Vector3.x Vector3.y Vector3.z].
  unfold is_nan in *. apply negb_false_iff in Hx, Hy, Hz.
  rewrite Hx, Hy, Hz. reflexivity.
Qed.

(** X6.  When the traversal for an outer triangle admits that same triangle
    and its nine coordinates are numbers, the pair is dropped by the
    equality test: no segment is pushed for a triangle paired with
    itself, whatever the triangle intersection routine would report. *)
Theorem triangle_is_not_paired_with_itself :
  forall env bvh off j,
    SpecWords.allNumbers (MeshBVH.vertexAt (MeshBVH.geometry bvh) (3 * j)) ->
    SpecWords.allNumbers (MeshBVH.vertexAt (MeshBVH.geometry bvh) (3 * j + 1)) ->
    SpecWords.allNumbers (MeshBVH.vertexAt (MeshBVH.geometry bvh) (3 * j + 2)) ->
    SpecWords.pairEdges env bvh off (3 * j) j = [].
Proof.
  intros env bvh off j Ha Hb Hc.
  unfold SpecWords.pairEdges, pairEdge.
  assert (Heq : ExtendedTriangle.equals (outerTriangle (MeshBVH.geometry bvh) (3 * j))
                  (MeshBVH.setTriangle (MeshBVH.geometry bvh) (3 * j)) = true).
  { unfold ExtendedTriangle.equals, outerTriangle, MeshBVH.setTriangle,
      ExtendedTriangle.update, ExtendedTriangle.fromPoints.
    cbn [ExtendedTriangle.a ExtendedTriangle.b ExtendedTriangle.c].
    rewrite (Vector3_equals_refl _ Ha), (Vector3_equals_refl _ Hb), (Vector3_equals_refl _ Hc).
    reflexivity. }
  rewrite Heq. reflexivity.
Qed.

Lemma first_plate_is_not_paired_with_itself :
  SpecWords.pairEdges Examples.platesEnv Examples.plates (offsetVector Examples.yAxis)
    (3 * 0) 0 = [].
Proof.
  apply (triangle_is_not_paired_with_itself Examples.platesEnv Examples.plates
           (offsetVector Examples.yAxis) 0%nat);
    repeat split; vm_compute; reflexivity.
Defined.

Lemma pairEdge_conditions :
  forall env off _tri tri2 e,
    pairEdge env off _tri tri2 = Some e ->
    exists seg,
      ExtendedTriangle.equals _tri tri2 = false
      /\ JS.gtb (abs (Vector3.dot (Plane.normal (ExtendedTriangle.plane _tri))
                                  (Plane.normal (ExtendedTriangle.plane
                                                   (SpecWords.refreshed tri2)))))
                (1 - 1e-6) = false
      /\ Env.tri_intersectsTriangle env _tri (SpecWords.refreshed tri2) = Some seg
      /\ TriangleLineUtils.isLineTriangleEdge _tri seg = false
      /\ TriangleLineUtils.isLineTriangleEdge (SpecWords.refreshed tri2) seg = false
      /\ e = SpecWords.translated seg off.
Proof.
  intros env off _tri tri2 e. unfold pairEdge, SpecWords.refreshed.
  destruct (ExtendedTriangle.equals _tri tri2) eqn:H1; [ discriminate | ].
  set (t2 := if ExtendedTriangle.needsUpdate tri2 then ExtendedTriangle.update tri2 else tri2).
  destruct (JS.gtb _ _) eqn:H2; [ discriminate | ].
  destruct (Env.tri_intersectsTriangle env _tri t2) as [seg |] eqn:H3; [ | discriminate ].
  destruct (TriangleLineUtils.isLineTriangleEdge _tri seg) eqn:H4; [ discriminate | ].
  destruct (TriangleLineUtils.isLineTriangleEdge t2 seg) eqn:H5; [ discriminate | ].
  cbn [negb andb]. intros H. inversion H. exists seg.
  repeat split; assumption || reflexivity.
Qed.

(** X7.  Every edge the detector returns was pushed for an outer triangle
    and a triangle the traversal admitted for it such that: the two are not
    equal vertex for vertex, their plane normals are not within 1e-6 of
    parallel, the triangle intersection routine reported a segment for
    them, and that segment is an edge of neither triangle according to
    [isLineTriangleEdge]. *)
Theorem intersection_edges_come_from_crossing_pairs :
  forall env bvh projectionVector e,
    In e (generateIntersectionEdges env bvh projectionVector) ->
    exists i j seg,
      In i (outerIndices (vertCount (MeshBVH.geometry bvh)))
      /\ In j (SpecWords.admittedFor env bvh i)
      /\ ExtendedTriangle.equals (outerTriangle (MeshBVH.geometry bvh) i)
           (MeshBVH.setTriangle (MeshBVH.geometry bvh) (3 * j)) = false
      /\ JS.gtb (abs (Vector3.dot
                        (Plane.normal (ExtendedTriangle.plane
                                         (outerTriangle (MeshBVH.geometry bvh) i)))
                        (Plane.normal (ExtendedTriangle.plane
                                         (SpecWords.refreshed
                                            (MeshBVH.setTriangle (MeshBVH.geometry bvh)
                                               (3 * j)))))))
                (1 - 1e-6) = false
      /\ Env.tri_intersectsTriangle env (outerTriangle (MeshBVH.geometry bvh) i)
           (SpecWords.refreshed (MeshBVH.setTriangle (MeshBVH.geometry bvh) (3 * j)))
         = Some seg
      /\ TriangleLineUtils.isLineTriangleEdge (outerTriangle (MeshBVH.geometry bvh) i) seg
         = false
      /\ TriangleLineUtils.isLineTriangleEdge
           (SpecWords.refreshed (MeshBVH.setTriangle (MeshBVH.geometry bvh) (3 * j))) seg
         = false
      /\ e = SpecWords.translated seg (offsetVector projectionVector).
Proof.
  intros env bvh pv e He.
  rewrite generateIntersectionEdges_by_pairs in He.
  apply in_flat_map in He. destruct He as [i [Hi He]].
  unfold SpecWords.edgesOfOuter in He.
  apply in_flat_map in He. destruct He as [j [Hj He]].
  unfold SpecWords.pairEdges in He.
  destruct (pairEdge env (offsetVector pv) (outerTriangle (MeshBVH.geometry bvh) i)
              (MeshBVH.setTriangle (MeshBVH.geometry bvh) (3 * j))) as [e' |] eqn:Hpair;
    [ | contradiction ].
  destruct He as [<- | []].
  destruct (pairEdge_conditions env _ _ _ _ Hpair) as [seg [H1 [H2 [H3 [H4 [H5 H6]]]]]].
  exists i, j, seg. repeat split; assumption.
Qed.

Lemma plates_edge_comes_from_crossing_pair :
  In (SpecWords.translated Examples.crossing (offsetVector Examples.yAxis))
     (generateIntersectionEdges Examples.platesEnv Examples.plates Examples.yAxis)
  /\ exists i j seg,
      In i (outerIndices (vertCount (MeshBVH.geometry Examples.plates)))
      /\ In j (SpecWords.admittedFor Examples.platesEnv Examples.plates i)
      /\ ExtendedTriangle.equals (outerTriangle (MeshBVH.geometry Examples.plates) i)
           (MeshBVH.setTriangle (MeshBVH.geometry Examples.plates) (3 * j)) = false
      /\ JS.gtb (abs (Vector3.dot
                        (Plane.normal (ExtendedTriangle.plane
                                         (outerTriangle (MeshBVH.geometry Examples.plates) i)))
                        (Plane.normal (ExtendedTriangle.plane
                                         (SpecWords.refreshed
                                            (MeshBVH.setTriangle
                                               (MeshBVH.geometry Examples.plates) (3 * j)))))))
                (1 - 1e-6) = false
      /\ Env.tri_intersectsTriangle Examples.platesEnv
           (outerTriangle (MeshBVH.geometry Examples.plates) i)
           (SpecWords.refreshed (MeshBVH.setTriangle (MeshBVH.geometry Examples.plates) (3 * j)))
         = Some seg
      /\ TriangleLineUtils.isLineTriangleEdge
           (outerTriangle (MeshBVH.geometry Examples.plates) i) seg = false
      /\ TriangleLineUtils.isLineTriangleEdge
           (SpecWords.refreshed (MeshBVH.setTriangle (MeshBVH.geometry Examples.plates) (3 * j)))
           seg = false
      /\ SpecWords.translated Examples.crossing (offsetVector Examples.yAxis)
         = SpecWords.translated seg (offsetVector Examples.yAxis).
Proof.
  assert (Hin : In (SpecWords.translated Examples.crossing (offsetVector Examples.yAxis))
                   (generateIntersectionEdges Examples.platesEnv Examples.plates
                      Examples.yAxis)).
  { vm_compute. left. reflexivity. }
  split; [ exact Hin | ].
  exact (intersection_edges_come_from_crossing_pairs Examples.platesEnv Examples.plates
           Examples.yAxis _ Hin).
Defined.

End IntersectionEdgesMore.

(** ** The occlusion test of one triangle, continued *)

Section OcclusionMore.
Import Projection ProjectionGenerator Properties.
Local Open Scope float_scope.

(** X8.  A triangle whose vertex coordinates are finite numbers never hides
    any part of one of its own edges: for such an edge the per-triangle
    callback returns false and leaves the hidden intervals as they were,
    whatever the projection vector and the routines outside the tree do. *)
Theorem triangle_does_not_hide_its_own_edges :
  forall env projectionVector tri line hiddenOverlaps,
    finiteTriangle tri -> In line (edgesOf tri) ->
    intersectsTriangle env projectionVector line tri hiddenOverlaps = (false, hiddenOverlaps).
Proof.
  intros env pv tri line hidden Hfin Hin.
  unfold intersectsTriangle.
  destruct (triangleBelowLine line tri); [ reflexivity | ].
  unfold TriangleLineUtils.isProjectedTriangleDegenerate,
    TriangleLineUtils.isYProjectedTriangleDegenerate.
  set (tri' := if ExtendedTriangle.needsUpdate tri then ExtendedTriangle.update tri else tri).
  destruct (abs _ <=? _); [ reflexivity | ].
  assert (Hpoints : ExtendedTriangle.points tri' = ExtendedTriangle.points tri).
  { subst tri'. destruct (ExtendedTriangle.needsUpdate tri); reflexivity. }
  rewrite (isLineTriangleEdge_points tri' tri line Hpoints).
  rewrite (own_edge_is_recognised tri line Hfin Hin). reflexivity.
Qed.

Lemma right_triangle_does_not_hide_its_hypotenuse :
  finiteTriangle Examples.rightTriangle
  /\ intersectsTriangle Examples.platesEnv MoreExamples.zAxis
       (Line3.mk (Examples.vec 0 1 0) (Examples.vec 1 0 0)) Examples.rightTriangle []
     = (false, []).
Proof.
  assert (Hfin : finiteTriangle Examples.rightTriangle).
  { repeat split; vm_compute; reflexivity. }
  split; [ exact Hfin | ].
  apply (triangle_does_not_hide_its_own_edges Examples.platesEnv MoreExamples.zAxis
           Examples.rightTriangle (Line3.mk (Examples.vec 0 1 0) (Examples.vec 1 0 0)) []
           Hfin).
  vm_compute. right. right. right. right. left. reflexivity.
Defined.

Lemma Math_min_cases :
  forall a b : float,
    is_nan (JS.Math_min a b) = true
    \/ (JS.Math_min a b = a /\ (a <=? b) = true)
    \/ (JS.Math_min a b = b /\ (b <=? a) = true).
Proof.
  intros a b. unfold JS.Math_min.
  destruct (is_nan a || is_nan b) eqn:Hn; [ left; reflexivity | right ].
  apply orb_false_iff in Hn. destruct Hn as [Ha Hb].
  unfold is_nan in Ha, Hb. apply negb_false_iff in Ha, Hb.
  destruct (a <? b) eqn:Hab.
  - left. split; [ reflexivity | float_order ].
  - destruct (b <? a) eqn:Hba.
    + right. split; [ reflexivity | float_order ].
    + destruct (classify a);
        (left; split; [ reflexivity | float_order ])
        || (right; split; [ reflexivity | float_order ]).
Qed.

(** X9.  The bounds test of the occlusion query never prunes a box that
    contains the start of the edge: lowering the bottom of the box keeps
    the point inside. *)
Theorem box_around_edge_start_is_not_pruned :
  forall line box,
    Box3.containsPoint box (Line3.start line) = true ->
    intersectsBounds line box = true.
Proof.
  intros line box Hin. unfold intersectsBounds. cbn [Ray.origin].
  match goal with
  | |- (if ?c then true else _) = true => assert (Hc : c = true); [ | rewrite Hc; reflexivity ]
  end.
  unfold Box3.containsPoint in *. cbn [Box3.min Box3.max Vector3.x Vector3.y Vector3.z].
  destruct (Vector3.x (Line3.start line) <? Vector3.x (Box3.min box)); [ discriminate | ].
  destruct (Vector3.x (Box3.max box) <? Vector3.x (Line3.start line)); [ discriminate | ].
  destruct (Vector3.y (Line3.start line) <? Vector3.y (Box3.min box)) eqn:Hy;
    [ discriminate | ].
  cbn [orb] in *.
  match goal with
  | |- (if (?c || _ || _ || _) then false else true) = true =>
      assert (Hc : c = false); [ | rewrite Hc; exact Hin ]
  end.
  destruct (Math_min_cases (lowestLineY line - 1e-6) (Vector3.y (Box3.min box)))
    as [Hnan | [[-> Hle] | [-> Hle]]].
  - unfold is_nan in Hnan. apply negb_true_iff in Hnan. float_order.
  - float_order.
  - exact Hy.
Qed.

Lemma unit_box_is_not_pruned :
  Box3.containsPoint MoreExamples.unitBox (Line3.start MoreExamples.edgeFromInside) = true
  /\ intersectsBounds MoreExamples.edgeFromInside MoreExamples.unitBox = true.
Proof.
  assert (Hin : Box3.containsPoint MoreExamples.unitBox (Line3.start MoreExamples.edgeFromInside)
                = true) by (vm_compute; reflexivity).
  split; [ exact Hin | ].
  exact (box_around_edge_start_is_not_pruned _ _ Hin).
Defined.

End OcclusionMore.

(** ** The coordinate buffer of an edge set *)

Section LineGeometryFacts.
Import LineGeometry.
Import String.StringSyntax.
Local Open Scope string_scope.
Local Open Scope float_scope.

Lemma entry_length :
  forall projectionValue projectionAxis line,
    List.length (entry projectionValue projectionAxis line) = 6%nat.
Proof.
  intros v a line. unfold entry.
  destruct (String.eqb a _); [ reflexivity | ].
  destruct (String.eqb a _); reflexivity.
Qed.

Lemma entry_nth :
  forall projectionValue projectionAxis line k,
    (k < 6)%nat ->
    nth k (entry projectionValue projectionAxis line) 0
    = if Nat.eqb k (collapsedSlot projectionAxis) || Nat.eqb k (3 + collapsedSlot projectionAxis)
      then projectionValue else element line k.
Proof.
  intros v a line k Hk. unfold entry, collapsedSlot.
  destruct (String.eqb a _).
  - do 6 (destruct k as [| k]; [ reflexivity | ]). lia.
  - destruct (String.eqb a _);
      do 6 (destruct k as [| k]; [ reflexivity | ]); lia.
Qed.

Lemma blocks_length :
  forall (A : Type) (f : A -> list float) (n : nat) (l : list A),
    (forall x, List.length (f x) = n) ->
    List.length (flat_map f l) = (n * List.length l)%nat.
Proof.
  intros A f n l Hf. induction l as [| x rest IH]; cbn [flat_map List.length].
  - lia.
  - rewrite length_app, Hf, IH. lia.
Qed.

Lemma blocks_nth :
  forall (A : Type) (f : A -> list float) (n : nat) (l : list A) i x k d,
    (forall y, List.length (f y) = n) ->
    nth_error l i = Some x -> (k < n)%nat ->
    nth (n * i + k) (flat_map f l) d = nth k (f x) d.
Proof.
  intros A f n l i x k d Hf. revert i.
  induction l as [| y rest IH]; intros i Hi Hk.
  - destruct i; discriminate.
  - cbn [flat_map]. destruct i as [| i]; cbn [nth_error] in Hi.
    + inversion Hi. subst y. rewrite Nat.mul_0_r, Nat.add_0_l.
      apply app_nth1. rewrite Hf. exact Hk.
    + rewrite app_nth2 by (rewrite Hf; lia).
      rewrite Hf. replace (n * S i + k - n)%nat with (n * i + k)%nat by lia.
      apply IH; assumption.
Qed.

(** X10.  [getLineGeometry] writes six numbers for each entry of the edge
    set, in order, each rounded to single precision: the three coordinates
    of the first point and the three of the second, with the projection
    value in place of the coordinate the label names.  The label ['X']
    replaces the first coordinate, ['Z'] the third, and every other label
    the second; left out, the value is 0 and the label ['Y']. *)
Theorem getLineGeometry_layout :
  forall edges projectionValue projectionAxis,
    List.length (getLineGeometry edges (Some projectionValue) (Some projectionAxis))
    = (6 * List.length edges)%nat
    /\ (forall i line k,
          nth_error edges i = Some line -> (k < 6)%nat ->
          nth (6 * i + k) (getLineGeometry edges (Some projectionValue) (Some projectionAxis)) 0
          = Float32Array.store
              (if Nat.eqb k (collapsedSlot projectionAxis)
                  || Nat.eqb k (3 + collapsedSlot projectionAxis)
               then projectionValue else element line k))
    /\ (collapsedSlot projectionAxis = 0%nat <-> projectionAxis = "X")
    /\ (collapsedSlot projectionAxis = 2%nat <-> projectionAxis = "Z")
    /\ getLineGeometry edges None None
       = getLineGeometry edges (Some 0) (Some "Y").
Proof.
  intros edges v a. unfold getLineGeometry.
  split; [ | split; [ | split; [ | split ] ] ].
  - rewrite length_map. apply blocks_length. apply entry_length.
  - intros i line k Hi Hk.
    change 0 with (Float32Array.store 0) at 1. rewrite map_nth. f_equal.
    rewrite (blocks_nth _ (entry v a) 6 edges i line k 0 (entry_length v a) Hi Hk).
    apply entry_nth. exact Hk.
  - unfold collapsedSlot.
    destruct (String.eqb a "X") eqn:HX.
    + apply String.eqb_eq in HX. split; intros _; [ exact HX | reflexivity ].
    + apply String.eqb_neq in HX.
      destruct (String.eqb a "Z"); split; intros H; try discriminate; contradiction.
  - unfold collapsedSlot.
    destruct (String.eqb a "X") eqn:HX.
    + apply String.eqb_eq in HX. subst a. split; intros H; discriminate.
    + destruct (String.eqb a "Z") eqn:HZ.
      * apply String.eqb_eq in HZ. split; intros _; [ exact HZ | reflexivity ].
      * apply String.eqb_neq in HZ. split; intros H; try discriminate; contradiction.
  - reflexivity.
Qed.

End LineGeometryFacts.

(** ** The drawing [updateEdges] displays *)

Section EdgeProjectionFacts.
Import LineGeometry EdgeProjection Projection.
Import String.StringSyntax.
Local Open Scope string_scope.
Local Open Scope float_scope.

Lemma axis_label_cases :
  forall label : String.string,
    In label [ "X"; "Y"; "Z" ] ->
    collapsedSlot label = slotOf (dominantAxis (axisVector label)).
Proof.
  intros label [<- | [<- | [<- | []]]]; vm_compute; reflexivity.
Qed.

(** X11.  For each of the labels ['X'], ['Y'] and ['Z'], the coordinate
    [getLineGeometry] collapses is the one on the dominant axis of the
    projection vector [updateEdges] gives the generator, and every point of
    the position array [updateEdges] displays has that coordinate equal to
    0: the drawing lies in the plane through the origin across the
    projection axis.  The array holds two points for each edge of the edge
    set. *)
Theorem updateEdges_drawing_is_flat :
  forall env params runTime bvh buffer,
    In (projectionAxis params) [ "X"; "Y"; "Z" ] ->
    updateEdges env params runTime bvh = JS.Ok buffer ->
    collapsedSlot (projectionAxis params)
    = slotOf (dominantAxis (ProjectionGenerator.projectionVector (generatorFor params runTime)))
    /\ exists finalEdges,
         ProjectionGenerator.generate env (generatorFor params runTime) bvh = JS.Ok finalEdges
         /\ List.length buffer = (6 * List.length (ProjectionGenerator.edges finalEdges))%nat
         /\ forall point,
              (point < 2 * List.length (ProjectionGenerator.edges finalEdges))%nat ->
              nth (3 * point + collapsedSlot (projectionAxis params)) buffer 1 = 0.
Proof.
  intros env params runTime bvh buffer Hlabel Hrun.
  split; [ apply axis_label_cases; exact Hlabel | ].
  unfold updateEdges in Hrun.
  destruct (ProjectionGenerator.generate env (generatorFor params runTime) bvh)
    as [finalEdges | err]; [ | discriminate ].
  inversion Hrun as [Hbuf]. clear Hrun.
  exists finalEdges. split; [ reflexivity | ].
  set (lines := map coordinates (ProjectionGenerator.edges finalEdges)).
  assert (Hlen : List.length lines = List.length (ProjectionGenerator.edges finalEdges)).
  { subst lines. apply length_map. }
  unfold getLineGeometry. rewrite length_map.
  rewrite (blocks_length _ (entry 0 (projectionAxis params)) 6 lines
             (entry_length 0 (projectionAxis params))).
  rewrite Hlen. split; [ reflexivity | ].
  intros point Hpoint.
  assert (Hslot : (collapsedSlot (projectionAxis params) < 3)%nat).
  { unfold collapsedSlot. destruct (String.eqb _ _); [ lia | ].
    destruct (String.eqb _ _); lia. }
  set (slot := collapsedSlot (projectionAxis params)) in *.
  destruct (nth_error lines (point / 2)) as [line |] eqn:Hline.
  2:{ apply nth_error_None in Hline.
      pose proof (Nat.Div0.div_lt_upper_bound point 2 (List.length lines)). lia. }
  pose proof (Nat.div_mod_eq point 2) as Hdiv.
  pose proof (Nat.mod_upper_bound point 2) as Hmod.
  replace (3 * point + slot)%nat
    with (6 * (point / 2) + (3 * (point mod 2) + slot))%nat by lia.
  rewrite nth_indep with (d' := Float32Array.store 0).
  2:{ rewrite length_map.
      rewrite (blocks_length _ (entry 0 (projectionAxis params)) 6 lines
                 (entry_length 0 (projectionAxis params))).
      assert (point / 2 < List.length lines)%nat
        by (apply nth_error_Some; rewrite Hline; discriminate).
      lia. }
  rewrite map_nth.
  rewrite (blocks_nth _ (entry 0 (projectionAxis params)) 6 lines (point / 2) line _ 0
             (entry_length 0 (projectionAxis params)) Hline) by lia.
  rewrite entry_nth by lia. fold slot.
  destruct (point mod 2) as [| [| m]]; [ | | lia ].
  - cbn [Nat.mul Nat.add]. rewrite Nat.eqb_refl. reflexivity.
  - replace (3 * 1 + slot)%nat with (3 + slot)%nat by lia.
    rewrite Nat.eqb_refl, orb_true_r. reflexivity.
Qed.

Lemma plates_drawing_is_flat :
  In (projectionAxis MoreExamples.alongY) [ "X"; "Y"; "Z" ]
  /\ exists buffer,
       updateEdges Examples.platesEnv MoreExamples.alongY 30 Examples.plates = JS.Ok buffer
       /\ buffer <> []
       /\ collapsedSlot (projectionAxis MoreExamples.alongY)
          = slotOf (dominantAxis (ProjectionGenerator.projectionVector
                                    (generatorFor MoreExamples.alongY 30)))
       /\ exists finalEdges,
            ProjectionGenerator.generate Examples.platesEnv
              (generatorFor MoreExamples.alongY 30) Examples.plates = JS.Ok finalEdges
            /\ List.length buffer = (6 * List.length (ProjectionGenerator.edges finalEdges))%nat
            /\ forall point,
                 (point < 2 * List.length (ProjectionGenerator.edges finalEdges))%nat ->
                 nth (3 * point + collapsedSlot (projectionAxis MoreExamples.alongY)) buffer 1
                 = 0.
Proof.
  assert (Hlabel : In (projectionAxis MoreExamples.alongY)
                      [ "X"; "Y"; "Z" ]).
  { right. left. reflexivity. }
  split; [ exact Hlabel | ].
  eexists. split; [ vm_compute; reflexivity | ].
  split; [ discriminate | ].
  apply (updateEdges_drawing_is_flat Examples.platesEnv MoreExamples.alongY 30
           Examples.plates _ Hlabel).
  vm_compute. reflexivity.
Defined.

End EdgeProjectionFacts.

(** ** [generateAsync] *)

Section AsyncFacts.
Import Async.

Lemma abortedWithin_step :
  forall signal frame n,
    abortedWithin signal frame (S n)
    = aborted signal frame || abortedWithin signal (S frame) n.
Proof.
  intros signal frame n. reflexivity.
Qed.

Lemma abortedWithin_zero :
  forall signal frame, abortedWithin signal frame 0 = aborted signal frame.
Proof.
  intros signal frame. unfold abortedWithin. cbn. apply orb_false_r.
Qed.

Lemma run_from :
  forall (A : Type) (task : Task A) signal frame,
    run signal frame task
    = if abortedWithin signal frame (suspensions task) then Rejected Aborted
      else match ending task with
           | JS.Ok v => Resolved v
           | JS.Threw e =>
               if Nat.eqb (frame + suspensions task) 0 then Rejected (Thrown e) else Pending
           end.
Proof.
  intros A task signal. induction task as [v | e | rest IH]; intros frame.
  - cbn [run suspensions ending]. rewrite abortedWithin_zero. reflexivity.
  - cbn [run suspensions ending]. rewrite abortedWithin_zero, Nat.add_0_r. reflexivity.
  - cbn [run suspensions ending]. rewrite abortedWithin_step.
    destruct (aborted signal frame); cbn [orb]; [ reflexivity | ].
    rewrite IH. replace (frame + S (suspensions rest))%nat with (S frame + suspensions rest)%nat
      by lia.
    reflexivity.
Qed.

(** X12.  The promise of [generateAsync], for any generator.  The abort
    flag is read once per frame, before the generator is resumed.  If it is
    set in one of the frames up to the one in which the generator would
    end, the promise is rejected with the abort error, and never with a
    value.  Otherwise the promise is resolved with the value the generator
    returns; it is rejected with what the generator throws only when the
    generator throws before its first suspension, and stays pending for
    ever when the generator throws after a suspension. *)
Theorem generateAsync_settles :
  forall (A : Type) (task : Task A) signal,
    run signal 0 task
    = if abortedWithin signal 0 (suspensions task) then Rejected Aborted
      else match ending task with
           | JS.Ok v => Resolved v
           | JS.Threw e => if Nat.eqb (suspensions task) 0 then Rejected (Thrown e) else Pending
           end.
Proof.
  intros A task signal. rewrite run_from. reflexivity.
Qed.




End AsyncFacts.

(** ** The worker *)

Section WorkerFacts.
Import Worker.

Lemma onProgressCalls_progress :
  forall calls prevTime,
    Forall (fun m => exists p, m = Progress p) (onProgressCalls prevTime calls).
Proof.
  induction calls as [| [currTime progress] rest IH]; intros prevTime;
    cbn [onProgressCalls].
  - constructor.
  - destruct (_ || _).
    + constructor; [ exists progress; reflexivity | apply IH ].
    + apply IH.
Qed.

(** X14.  The worker never posts a result.  Whatever the request, the
    messages it posts are progress messages followed by one last message,
    and the last message carries an error: what the index constructor or
    [generate] threw, or a [TypeError] when the request has no options and
    also when [generate] returned, since the edge set it returns has no
    [attributes] to read the position array from. *)
Theorem worker_never_posts_a_result :
  forall env buildIndex startTime calls data,
    exists progress error,
      onmessage env buildIndex startTime calls data = progress ++ [ Error error ]
      /\ Forall (fun m => exists p, m = Progress p) progress
      /\ (options data = None -> error = TypeError)
      /\ (forall o e,
            options data = Some o ->
            buildIndex (index data) (position data) = JS.Threw e -> error = Thrown e)
      /\ (forall o bvh e,
            options data = Some o ->
            buildIndex (index data) (position data) = JS.Ok bvh ->
            ProjectionGenerator.generate env (generatorFor o) bvh = JS.Threw e ->
            error = Thrown e)
      /\ (forall o bvh finalEdges,
            options data = Some o ->
            buildIndex (index data) (position data) = JS.Ok bvh ->
            ProjectionGenerator.generate env (generatorFor o) bvh = JS.Ok finalEdges ->
            error = TypeError).
Proof.
  intros env buildIndex startTime calls data.
  exists (onProgressCalls startTime calls).
  unfold onmessage, tryBlock.
  destruct (options data) as [o |]; cbn [bind].
  2:{ exists TypeError. split; [ reflexivity | ].
      split; [ apply onProgressCalls_progress | ].
      repeat split; intros; try reflexivity; discriminate. }
  destruct (buildIndex (index data) (position data)) as [bvh | err]; cbn [ofResult bind].
  2:{ exists (Thrown err). split; [ reflexivity | ].
      split; [ apply onProgressCalls_progress | ].
      repeat split; intros; try discriminate.
      match goal with H : JS.Threw _ = JS.Threw _ |- _ => inversion H; reflexivity end. }
  destruct (ProjectionGenerator.generate env (generatorFor o) bvh) as [finalEdges | err]
    eqn:Hgen; cbn [ofResult bind].
  - exists TypeError. split; [ reflexivity | ].
    split; [ apply onProgressCalls_progress | ].
    repeat split; intros; try discriminate; try reflexivity.
    repeat match goal with
           | H : Some _ = Some _ |- _ => inversion H; clear H; subst
           | H : JS.Ok _ = JS.Ok _ |- _ => inversion H; clear H; subst
           end.
    congruence.
  - exists (Thrown err). split; [ reflexivity | ].
    split; [ apply onProgressCalls_progress | ].
    repeat split; intros; try discriminate.
    + repeat match goal with
             | H : Some _ = Some _ |- _ => inversion H; clear H; subst
             | H : JS.Ok _ = JS.Ok _ |- _ => inversion H; clear H; subst
             end.
      congruence.
    + repeat match goal with
             | H : Some _ = Some _ |- _ => inversion H; clear H; subst
             | H : JS.Ok _ = JS.Ok _ |- _ => inversion H; clear H; subst
             end.
      congruence.
Qed.

End WorkerFacts.

(** ** The spatial grid *)

Section KeyFacts.
Import PostProcessing.
Local Open Scope float_scope.

Lemma is_nan_code : forall u : float, is_nan u = true <-> nanOf u = 1%Z.
Proof.
  intros u. unfold is_nan. rewrite negb_true_iff.
  pose proof (nanOf_cases u) as Hc. pose proof (eqb_code u u) as He.
  destruct (u =? u).
  - split; [ discriminate | ]. intros H. destruct He as [He _]. specialize (He eq_refl). lia.
  - split; [ intros _ | reflexivity ].
    destruct Hc as [Hc | Hc]; [ | exact Hc ].
    destruct He as [_ He]. assert (false = true) by (apply He; lia). discriminate.
Qed.

Lemma sameNumeral_code :
  forall u v : float,
    sameNumeral u v = true
    <-> ((nanOf u = 0 /\ nanOf v = 0 /\ codeOf u = codeOf v) \/ (nanOf u = 1 /\ nanOf v = 1))%Z.
Proof.
  intros u v. unfold sameNumeral.
  rewrite orb_true_iff, andb_true_iff, eqb_code, !is_nan_code. tauto.
Qed.

Lemma sameNumeral_refl : forall u, sameNumeral u u = true.
Proof.
  intros u. apply sameNumeral_code. pose proof (nanOf_cases u). lia.
Qed.

Lemma sameNumeral_sym : forall u v, sameNumeral u v = true -> sameNumeral v u = true.
Proof.
  intros u v H. apply sameNumeral_code in H. apply sameNumeral_code. lia.
Qed.

Lemma sameNumeral_trans :
  forall u v w, sameNumeral u v = true -> sameNumeral v w = true -> sameNumeral u w = true.
Proof.
  intros u v w H1 H2. apply sameNumeral_code in H1, H2. apply sameNumeral_code. lia.
Qed.

(** Adding 0 to a number does not change the numeral it prints as. *)
Lemma sameNumeral_add_zero : forall u : float, sameNumeral (u + 0) u = true.
Proof.
  intros u. apply sameNumeral_code. unfold nanOf, codeOf.
  rewrite add_spec. unfold SF64add. change (Prim2SF 0) with (S754_zero false).
  destruct (Prim2SF u) as [[] | [] | | s m e]; vm_compute; intuition congruence.
Qed.

Lemma sameKey_refl : forall k, sameKey k k = true.
Proof.
  intros [[x y] z]. unfold sameKey. rewrite !sameNumeral_refl. reflexivity.
Qed.

Lemma sameKey_sym : forall k1 k2, sameKey k1 k2 = true -> sameKey k2 k1 = true.
Proof.
  intros [[x1 y1] z1] [[x2 y2] z2]. unfold sameKey.
  rewrite !andb_true_iff. intros [[Hx Hy] Hz].
  repeat split; apply sameNumeral_sym; assumption.
Qed.

Lemma sameKey_trans :
  forall k1 k2 k3, sameKey k1 k2 = true -> sameKey k2 k3 = true -> sameKey k1 k3 = true.
Proof.
  intros [[x1 y1] z1] [[x2 y2] z2] [[x3 y3] z3]. unfold sameKey.
  rewrite !andb_true_iff. intros [[Hx Hy] Hz] [[Hx' Hy'] Hz'].
  repeat split; eapply sameNumeral_trans; eassumption.
Qed.

End KeyFacts.

Section GridFacts.
Import PostProcessing Topology.
Local Open Scope float_scope.

Lemma gridGet_sameKey :
  forall cells k k', sameKey k k' = true -> gridGet cells k = gridGet cells k'.
Proof.
  intros cells k k' Hk. induction cells as [| [k0 lines] rest IH]; cbn [gridGet].
  - reflexivity.
  - destruct (sameKey k0 k) eqn:H0.
    + rewrite (sameKey_trans _ _ _ H0 Hk). reflexivity.
    + destruct (sameKey k0 k') eqn:H0'; [ | exact IH ].
      rewrite (sameKey_trans _ _ _ H0' (sameKey_sym _ _ Hk)) in H0. discriminate.
Qed.

Lemma gridGet_absent : forall cells k, gridHas cells k = false -> gridGet cells k = [].
Proof.
  intros cells k. unfold gridHas.
  induction cells as [| [k0 lines] rest IH]; cbn [existsb gridGet fst]; [ reflexivity | ].
  destruct (sameKey k0 k); [ discriminate | exact IH ].
Qed.

Lemma gridGet_app_empty :
  forall cells k k', gridGet (cells ++ [ (k, []) ]) k' = gridGet cells k'.
Proof.
  intros cells k k'. induction cells as [| [k0 lines] rest IH]; cbn [app gridGet].
  - destruct (sameKey k k'); reflexivity.
  - destruct (sameKey k0 k'); [ reflexivity | exact IH ].
Qed.

Lemma gridGet_ensure :
  forall cells k k', gridGet (gridEnsure cells k) k' = gridGet cells k'.
Proof.
  intros cells k k'. unfold gridEnsure.
  destruct (gridHas cells k); [ reflexivity | apply gridGet_app_empty ].
Qed.

Lemma gridHas_ensure :
  forall cells k k',
    gridHas (gridEnsure cells k) k' = gridHas cells k' || sameKey k k'.
Proof.
  intros cells k k'. unfold gridEnsure.
  destruct (gridHas cells k) eqn:Hk.
  - destruct (sameKey k k') eqn:Hkk'; [ | rewrite orb_false_r; reflexivity ].
    rewrite orb_true_r. unfold gridHas in *.
    apply existsb_exists in Hk. destruct Hk as [entry [Hin He]].
    apply existsb_exists. exists entry. split; [ exact Hin | ].
    eapply sameKey_trans; eassumption.
  - unfold gridHas. rewrite existsb_app. cbn [existsb fst]. rewrite orb_false_r. reflexivity.
Qed.

Lemma gridHas_push :
  forall cells k r k', gridHas (gridPush cells k r) k' = gridHas cells k'.
Proof.
  intros cells k r k'. unfold gridHas.
  induction cells as [| [k0 lines] rest IH]; cbn [gridPush existsb fst]; [ reflexivity | ].
  destruct (sameKey k0 k); cbn [existsb fst]; [ reflexivity | rewrite IH; reflexivity ].
Qed.

Lemma gridGet_push :
  forall cells k r k',
    gridGet (gridPush cells k r) k'
    = if gridHas cells k && sameKey k k' then gridGet cells k' ++ [ r ] else gridGet cells k'.
Proof.
  intros cells k r k'. unfold gridHas.
  induction cells as [| [k0 lines] rest IH]; cbn [gridPush gridGet existsb fst andb].
  - reflexivity.
  - destruct (sameKey k0 k) eqn:H0; cbn [gridGet orb andb].
    + destruct (sameKey k k') eqn:Hkk'.
      * rewrite (sameKey_trans _ _ _ H0 Hkk'). reflexivity.
      * destruct (sameKey k0 k') eqn:H0'; [ | reflexivity ].
        rewrite (sameKey_trans _ _ _ (sameKey_sym _ _ H0) H0') in Hkk'. discriminate.
    + destruct (sameKey k0 k') eqn:H0'; [ | exact IH ].
      destruct (sameKey k k') eqn:Hkk'; [ | rewrite andb_false_r; reflexivity ].
      rewrite (sameKey_trans _ _ _ H0' (sameKey_sym _ _ Hkk')) in H0. discriminate.
Qed.

(** What [addLine] does to the lines of a cell. *)
Lemma addLine_keeps :
  forall cellSize cells l r k x,
    In x (gridGet cells k) -> In x (gridGet (addLine cellSize cells l r) k).
Proof.
  intros cs cells l r k x Hx. unfold addLine.
  assert (Hpush : forall c key, In x (gridGet c k) -> In x (gridGet (gridPush c key r) k)).
  { intros c key Hc. rewrite gridGet_push.
    destruct (gridHas c key && sameKey key k); [ apply in_or_app; left | ]; exact Hc. }
  destruct (negb _); repeat apply Hpush; rewrite !gridGet_ensure; exact Hx.
Qed.

Lemma addLine_adds :
  forall cellSize cells l r k,
    sameKey (getGridKey cellSize (start l)) k = true
    \/ sameKey (getGridKey cellSize (end_ l)) k = true ->
    In r (gridGet (addLine cellSize cells l r) k).
Proof.
  intros cs cells l r k Hk. unfold addLine.
  set (sk := getGridKey cs (start l)) in *. set (ek := getGridKey cs (end_ l)) in *.
  set (c2 := gridEnsure (gridEnsure cells sk) ek).
  assert (Hs : gridHas c2 sk = true).
  { subst c2. rewrite !gridHas_ensure, sameKey_refl, orb_true_r. reflexivity. }
  assert (He : gridHas c2 ek = true).
  { subst c2. rewrite gridHas_ensure, sameKey_refl, orb_true_r. reflexivity. }
  assert (Hfirst : sameKey sk k = true -> In r (gridGet (gridPush c2 sk r) k)).
  { intros H. rewrite gridGet_push, Hs, H. apply in_or_app. right. left. reflexivity. }
  destruct (sameKey sk ek) eqn:Hse; cbn [negb].
  - destruct Hk as [Hk | Hk]; [ exact (Hfirst Hk) | ].
    apply Hfirst. eapply sameKey_trans; eassumption.
  - rewrite gridGet_push, gridHas_push, He. cbn [andb].
    destruct Hk as [Hk | Hk].
    + destruct (sameKey ek k); [ apply in_or_app; left | ]; exact (Hfirst Hk).
    + rewrite Hk. apply in_or_app. right. left. reflexivity.
Qed.

Lemma addLine_only :
  forall cellSize cells l r k x,
    In x (gridGet (addLine cellSize cells l r) k) -> x = r \/ In x (gridGet cells k).
Proof.
  intros cs cells l r k x. unfold addLine.
  assert (Hpush : forall c key, In x (gridGet (gridPush c key r) k) ->
                                x = r \/ In x (gridGet c k)).
  { intros c key. rewrite gridGet_push.
    destruct (gridHas c key && sameKey key k); [ | auto ].
    intros H. apply in_app_or in H. destruct H as [H | [H | []]]; auto. }
  destruct (negb _); intros H.
  - apply Hpush in H. destruct H as [H | H]; [ auto | ].
    apply Hpush in H. rewrite !gridGet_ensure in H. exact H.
  - apply Hpush in H. rewrite !gridGet_ensure in H. exact H.
Qed.

Lemma fillGrid_from :
  forall cellSize lines refs cells0 k x,
    In x (gridGet (fold_left (fun cells r => addLine cellSize cells (deref lines r) r)
                             refs cells0) k)
    <-> In x (gridGet cells0 k)
        \/ (In x refs
            /\ (sameKey (getGridKey cellSize (start (deref lines x))) k = true
                \/ sameKey (getGridKey cellSize (end_ (deref lines x))) k = true)).
Proof.
  intros cs lines refs. induction refs as [| r rest IH]; intros cells0 k x; cbn [fold_left].
  - cbn [In]. tauto.
  - rewrite IH. cbn [In]. split.
    + intros [H | [Hin Hk]]; [ | tauto ].
      destruct (sameKey (getGridKey cs (start (deref lines r))) k) eqn:Hs.
      * destruct (addLine_only _ _ _ _ _ _ H) as [-> | H']; [ right | left; exact H' ].
        split; [ left; reflexivity | left; exact Hs ].
      * destruct (sameKey (getGridKey cs (end_ (deref lines r))) k) eqn:He.
        -- destruct (addLine_only _ _ _ _ _ _ H) as [-> | H']; [ right | left; exact H' ].
           split; [ left; reflexivity | right; exact He ].
        -- left. revert H. unfold addLine.
           rewrite ?gridGet_push.
           destruct (negb _); rewrite ?gridGet_push, ?gridHas_push, ?Hs, ?He,
             ?andb_false_r, ?gridGet_ensure; tauto.
    + intros [H | [[<- | Hin] Hk]].
      * left. apply addLine_keeps. exact H.
      * left. apply addLine_adds. exact Hk.
      * right. split; assumption.
Qed.

(** The lines of a cell of the filled grid: those with an endpoint whose
    key is the key of the cell. *)
Lemma fillGrid_cell :
  forall cellSize lines k x,
    In x (gridGet (fillGrid cellSize lines) k)
    <-> (x < List.length lines)%nat
        /\ (sameKey (getGridKey cellSize (start (deref lines x))) k = true
            \/ sameKey (getGridKey cellSize (end_ (deref lines x))) k = true).
Proof.
  intros cs lines k x. unfold fillGrid. rewrite fillGrid_from. cbn [gridGet In].
  rewrite in_seq. split.
  - intros [[] | [Hx Hk]]. split; [ lia | exact Hk ].
  - intros [Hx Hk]. right. split; [ lia | exact Hk ].
Qed.

Lemma getNearbyLines_cells :
  forall cellSize cells point x,
    In x (getNearbyLines cellSize cells point) -> exists k, In x (gridGet cells k).
Proof.
  intros cs cells point x H. unfold getNearbyLines in H.
  apply in_flat_map in H. destruct H as [dx [_ H]].
  apply in_flat_map in H. destruct H as [dy [_ H]].
  apply in_flat_map in H. destruct H as [dz [_ H]].
  match type of H with
  | In x (if gridHas cells ?key then _ else _) => exists key; destruct (gridHas cells key)
  end; [ exact H | destruct H ].
Qed.

Lemma getNearbyLines_own_cell :
  forall cellSize cells point x,
    In x (gridGet cells (getGridKey cellSize point)) ->
    In x (getNearbyLines cellSize cells point).
Proof.
  intros cs cells point x H. unfold getNearbyLines.
  assert (H0 : In 0 offsets) by (right; left; reflexivity).
  apply in_flat_map. exists 0. split; [ exact H0 | ].
  apply in_flat_map. exists 0. split; [ exact H0 | ].
  apply in_flat_map. exists 0. split; [ exact H0 | ].
  set (key := (JS.Math_floor (Vector3.x point / cs) + 0,
               JS.Math_floor (Vector3.y point / cs) + 0,
               JS.Math_floor (Vector3.z point / cs) + 0)).
  assert (Hkey : sameKey key (getGridKey cs point) = true).
  { unfold key, getGridKey, sameKey. rewrite !sameNumeral_add_zero. reflexivity. }
  rewrite (gridGet_sameKey cells key _ Hkey).
  destruct (gridHas cells key) eqn:Hhas; [ exact H | ].
  rewrite <- (gridGet_sameKey cells key _ Hkey), (gridGet_absent _ _ Hhas) in H.
  destruct H.
Qed.

Lemma dedupe_In :
  forall l seen x, In x (dedupe seen l) <-> In x l /\ ~ In x seen.
Proof.
  induction l as [| r rest IH]; intros seen x; cbn [dedupe In].
  - tauto.
  - destruct (existsb (Nat.eqb r) seen) eqn:Hseen.
    + rewrite IH. apply existsb_exists in Hseen. destruct Hseen as [y [Hy Hry]].
      apply Nat.eqb_eq in Hry. subst y. split.
      * intros [H1 H2]. split; [ right; exact H1 | exact H2 ].
      * intros [[-> | H1] H2]; [ contradiction | split; assumption ].
    + assert (Hnot : ~ In r seen).
      { intros Hin. assert (existsb (Nat.eqb r) seen = true).
        { apply existsb_exists. exists r. split; [ exact Hin | apply Nat.eqb_refl ]. }
        congruence. }
      cbn [In]. rewrite IH. cbn [In]. split.
      * intros [<- | [H1 H2]]; [ split; [ left; reflexivity | exact Hnot ] | ].
        split; [ right; exact H1 | tauto ].
      * intros [[-> | H1] H2]; [ left; reflexivity | ].
        destruct (Nat.eq_dec r x) as [-> | Hne]; [ left; reflexivity | right ].
        split; [ exact H1 | ]. intros [E | Hin]; [ exact (Hne E) | exact (H2 Hin) ].
Qed.

End GridFacts.

(** ** [buildTopology] *)

Section UpdateFacts.
Import PostProcessing Topology.

Lemma update_length : forall h r f, List.length (update h r f) = List.length h.
Proof.
  induction h as [| l rest IH]; intros r f; [ reflexivity | ].
  destruct r; cbn [update List.length]; [ reflexivity | rewrite IH; reflexivity ].
Qed.

Lemma deref_update_same :
  forall h r f, (r < List.length h)%nat -> deref (update h r f) r = f (deref h r).
Proof.
  unfold deref. induction h as [| l rest IH]; intros r f Hr; cbn [List.length] in Hr.
  - lia.
  - destruct r; cbn [update nth]; [ reflexivity | apply IH; lia ].
Qed.

Lemma deref_update_other :
  forall h r f j, j <> r -> deref (update h r f) j = deref h j.
Proof.
  unfold deref. induction h as [| l rest IH]; intros r f j Hj.
  - reflexivity.
  - destruct r, j; cbn [update nth]; try reflexivity; try congruence.
    apply IH. congruence.
Qed.

Lemma addConnection_In :
  forall c l x, In x (connections (addConnection c l)) <-> x = c \/ In x (connections l).
Proof.
  intros c l x. unfold addConnection. cbn [connections].
  destruct (existsb (Nat.eqb c) (connections l)) eqn:Hc.
  - apply existsb_exists in Hc. destruct Hc as [y [Hy Hcy]].
    apply Nat.eqb_eq in Hcy. subst y.
    split; [ auto | intros [-> | H]; assumption ].
  - rewrite in_app_iff. cbn [In]. split; intros [H | H]; auto.
    + destruct H as [H | []]. auto.
Qed.

Lemma addConnection_NoDup :
  forall c l, NoDup (connections l) -> NoDup (connections (addConnection c l)).
Proof.
  intros c l Hnd. unfold addConnection. cbn [connections].
  destruct (existsb (Nat.eqb c) (connections l)) eqn:Hc; [ exact Hnd | ].
  apply NoDup_app; [ exact Hnd | constructor; [ simpl; tauto | constructor ] | ].
  intros x Hx [Heq | []]. subst x.
  assert (existsb (Nat.eqb c) (connections l) = true).
  { apply existsb_exists. exists c. split; [ exact Hx | apply Nat.eqb_refl ]. }
  congruence.
Qed.

End UpdateFacts.

Section ConnectFacts.
Import PostProcessing Topology Linked.

Lemma segment_start : forall l l', segment l = segment l' -> start l = start l'.
Proof.
  intros l l' H. exact (f_equal (fun t => fst (fst (fst (fst t)))) H).
Qed.

Lemma segment_end : forall l l', segment l = segment l' -> end_ l = end_ l'.
Proof.
  intros l l' H. exact (f_equal (fun t => snd (fst (fst (fst t)))) H).
Qed.

Lemma segment_direction : forall l l', segment l = segment l' -> direction l = direction l'.
Proof.
  intros l l' H. exact (f_equal (fun t => snd (fst t)) H).
Qed.


Lemma getDistanceTo_segment :
  forall l l' p, segment l = segment l' -> getDistanceTo l p = getDistanceTo l' p.
Proof.
  intros l l' p H.
  unfold getDistanceTo. rewrite (segment_start _ _ H), (segment_end _ _ H). reflexivity.
Qed.

Lemma touches_segment :
  forall l l' n n',
    segment l = segment l' -> segment n = segment n' -> touches l n = touches l' n'.
Proof.
  intros l l' n n' Hl Hn. unfold touches.
  rewrite !(getDistanceTo_segment l l' _ Hl), !(getDistanceTo_segment n n' _ Hn).
  rewrite (segment_start _ _ Hl), (segment_end _ _ Hl),
    (segment_start _ _ Hn), (segment_end _ _ Hn).
  reflexivity.
Qed.

Lemma hasC1ContinuityWith_segment :
  forall l l' n n',
    segment l = segment l' -> segment n = segment n' ->
    hasC1ContinuityWith l n = hasC1ContinuityWith l' n'.
Proof.
  intros l l' n n' Hl Hn. unfold hasC1ContinuityWith.
  rewrite !(getDistanceTo_segment l l' _ Hl), !(getDistanceTo_segment n n' _ Hn).
  rewrite (segment_start _ _ Hl), (segment_end _ _ Hl), (segment_direction _ _ Hl),
    (segment_start _ _ Hn), (segment_end _ _ Hn), (segment_direction _ _ Hn).
  reflexivity.
Qed.

Lemma touches_sym : forall l n, touches l n = touches n l.
Proof.
  intros l n. unfold touches. apply orb_comm.
Qed.

Lemma Extends_refl : forall h, Extends h h.
Proof.
  intros h i c H. exact H.
Qed.

Lemma Extends_trans : forall h1 h2 h3, Extends h1 h2 -> Extends h2 h3 -> Extends h1 h3.
Proof.
  intros h1 h2 h3 H12 H23 i c H. apply H23, H12, H.
Qed.

(** One pass through the body of the inner loop: either nothing is
    written, or the two lines are connected on both sides and, when the
    continuity test holds, both are flagged. *)
Lemma connect_cases :
  forall line h nearby,
    (line < List.length h)%nat -> (nearby < List.length h)%nat ->
    ((nearby = line \/ touches (deref h line) (deref h nearby) = false)
     /\ connect line h nearby = h)
    \/ (nearby <> line
        /\ touches (deref h line) (deref h nearby) = true
        /\ exists flag,
             flag = hasC1ContinuityWith (deref h line) (deref h nearby)
             /\ List.length (connect line h nearby) = List.length h
             /\ forall i,
                  deref (connect line h nearby) i
                  = if Nat.eqb i line
                    then (if flag then setC1 (addConnection nearby (deref h i))
                          else addConnection nearby (deref h i))
                    else if Nat.eqb i nearby
                         then (if flag then setC1 (addConnection line (deref h i))
                               else addConnection line (deref h i))
                         else deref h i).
Proof.
  intros line h nearby Hline Hnearby. unfold connect.
  destruct (Nat.eqb nearby line) eqn:Hsame.
  { left. apply Nat.eqb_eq in Hsame. auto. }
  apply Nat.eqb_neq in Hsame.
  destruct (touches (deref h line) (deref h nearby)) eqn:Htouch; [ right | left; auto ].
  split; [ exact Hsame | ]. split; [ reflexivity | ].
  set (h1 := update h line (addConnection nearby)).
  set (h2 := update h1 nearby (addConnection line)).
  assert (H2line : deref h2 line = addConnection nearby (deref h line)).
  { subst h2 h1. rewrite deref_update_other by congruence.
    apply deref_update_same. exact Hline. }
  assert (H2nearby : deref h2 nearby = addConnection line (deref h nearby)).
  { subst h2 h1. rewrite deref_update_same by (rewrite update_length; exact Hnearby).
    rewrite deref_update_other by exact Hsame. reflexivity. }
  assert (H2other : forall i, i <> line -> i <> nearby -> deref h2 i = deref h i).
  { intros i H1 H2. subst h2 h1. rewrite !deref_update_other by assumption. reflexivity. }
  assert (Hlen2 : List.length h2 = List.length h).
  { subst h2 h1. rewrite !update_length. reflexivity. }
  exists (hasC1ContinuityWith (deref h line) (deref h nearby)).
  assert (Hflag : hasC1ContinuityWith (deref h2 line) (deref h2 nearby)
                  = hasC1ContinuityWith (deref h line) (deref h nearby)).
  { rewrite H2line, H2nearby. apply hasC1ContinuityWith_segment; reflexivity. }
  rewrite Hflag. split; [ reflexivity | ].
  destruct (hasC1ContinuityWith (deref h line) (deref h nearby)).
  - split; [ rewrite !update_length; exact Hlen2 | ].
    intros i. destruct (Nat.eqb i line) eqn:Hil.
    + apply Nat.eqb_eq in Hil. subst i.
      rewrite deref_update_other by congruence.
      rewrite deref_update_same by (rewrite Hlen2; exact Hline).
      rewrite H2line. reflexivity.
    + apply Nat.eqb_neq in Hil. destruct (Nat.eqb i nearby) eqn:Hin.
      * apply Nat.eqb_eq in Hin. subst i.
        rewrite deref_update_same by (rewrite update_length, Hlen2; exact Hnearby).
        rewrite deref_update_other by exact Hil.
        rewrite H2nearby. reflexivity.
      * apply Nat.eqb_neq in Hin.
        rewrite !deref_update_other by assumption. apply H2other; assumption.
  - split; [ exact Hlen2 | ].
    intros i. destruct (Nat.eqb i line) eqn:Hil.
    + apply Nat.eqb_eq in Hil. subst i. exact H2line.
    + apply Nat.eqb_neq in Hil. destruct (Nat.eqb i nearby) eqn:Hin.
      * apply Nat.eqb_eq in Hin. subst i. exact H2nearby.
      * apply Nat.eqb_neq in Hin. apply H2other; assumption.
Qed.

Lemma Links_step :
  forall lines h h' line nearby flag,
    Links lines h ->
    (line < List.length h)%nat -> (nearby < List.length h)%nat -> nearby <> line ->
    touches (deref h line) (deref h nearby) = true ->
    flag = hasC1ContinuityWith (deref h line) (deref h nearby) ->
    List.length h' = List.length h ->
    (forall i,
        deref h' i
        = if Nat.eqb i line
          then (if flag then setC1 (addConnection nearby (deref h i))
                else addConnection nearby (deref h i))
          else if Nat.eqb i nearby
               then (if flag then setC1 (addConnection line (deref h i))
                     else addConnection line (deref h i))
               else deref h i) ->
    Links lines h' /\ Extends h h'
    /\ In nearby (connections (deref h' line)) /\ In line (connections (deref h' nearby)).
Proof.
  intros lines h h' line nearby flag [Hlen Hseg Hcid [Hrange Hloop Hboth Honce] Htouch Hflag]
    Hline Hnearby Hne Htouches Hc1 Hlen' Hderef.
  assert (Hconn : forall i x,
            In x (connections (deref h' i))
            <-> In x (connections (deref h i))
                \/ (i = line /\ x = nearby) \/ (i = nearby /\ x = line)).
  { intros i x. rewrite Hderef.
    destruct (Nat.eqb i line) eqn:Hil.
    - apply Nat.eqb_eq in Hil. subst i.
      assert (E : connections (if flag then setC1 (addConnection nearby (deref h line))
                               else addConnection nearby (deref h line))
                  = connections (addConnection nearby (deref h line)))
        by (destruct flag; reflexivity).
      rewrite E, addConnection_In. intuition congruence.
    - apply Nat.eqb_neq in Hil. destruct (Nat.eqb i nearby) eqn:Hin.
      + apply Nat.eqb_eq in Hin. subst i.
        assert (E : connections (if flag then setC1 (addConnection line (deref h nearby))
                                 else addConnection line (deref h nearby))
                    = connections (addConnection line (deref h nearby)))
          by (destruct flag; reflexivity).
        rewrite E, addConnection_In. intuition congruence.
      + apply Nat.eqb_neq in Hin. intuition congruence. }
  assert (Hseg' : forall i, segment (deref h' i) = segment (deref h i)).
  { intros i. rewrite Hderef.
    destruct (Nat.eqb i line); [ destruct flag; reflexivity | ].
    destruct (Nat.eqb i nearby); [ destruct flag; reflexivity | reflexivity ]. }
  assert (Hcid' : forall i, componentId (deref h' i) = componentId (deref h i)).
  { intros i. rewrite Hderef.
    destruct (Nat.eqb i line); [ destruct flag; reflexivity | ].
    destruct (Nat.eqb i nearby); [ destruct flag; reflexivity | reflexivity ]. }
  assert (Hflag' : forall i, hasC1Continuity (deref h' i) = true ->
                             hasC1Continuity (deref h i) = true
                             \/ (flag = true /\ (i = line \/ i = nearby))).
  { intros i. rewrite Hderef.
    destruct (Nat.eqb i line) eqn:Hil.
    - apply Nat.eqb_eq in Hil. destruct flag; cbn [addConnection setC1 hasC1Continuity]; auto.
    - destruct (Nat.eqb i nearby) eqn:Hin; [ | auto ].
      apply Nat.eqb_eq in Hin. destruct flag; cbn [addConnection setC1 hasC1Continuity]; auto. }
  assert (Honce' : forall i, (i < List.length h)%nat -> NoDup (connections (deref h' i))).
  { intros i Hi. rewrite Hderef.
    destruct (Nat.eqb i line).
    - destruct flag; cbn [setC1 connections]; apply addConnection_NoDup, Honce, Hi.
    - destruct (Nat.eqb i nearby); [ | apply Honce, Hi ].
      destruct flag; cbn [setC1 connections]; apply addConnection_NoDup, Honce, Hi. }
  assert (Hpair : touches (deref lines line) (deref lines nearby) = true).
  { rewrite <- Htouches. apply touches_segment; symmetry; apply Hseg. }
  split; [ | split; [ | split ] ].
  - constructor.
    + congruence.
    + intros i. rewrite Hseg'. apply Hseg.
    + intros i. rewrite Hcid'. apply Hcid.
    + constructor.
      * intros i c Hi Hc. rewrite Hlen' in *. apply Hconn in Hc.
        destruct Hc as [Hc | [[-> ->] | [-> ->]]]; [ eapply Hrange; eassumption | | ];
          assumption.
      * intros i Hi Hc. rewrite Hlen' in *. apply Hconn in Hc.
        destruct Hc as [Hc | [[H1 H2] | [H1 H2]]]; [ exact (Hloop i Hi Hc) | | ]; congruence.
      * intros i c Hi Hc. rewrite Hlen' in *. apply Hconn in Hc. apply Hconn.
        destruct Hc as [Hc | [[-> ->] | [-> ->]]]; [ left; apply Hboth; assumption | | ];
          auto.
      * intros i Hi. rewrite Hlen' in Hi. apply Honce', Hi.
    + intros i c Hi Hc. rewrite Hlen' in *. apply Hconn in Hc.
      destruct Hc as [Hc | [[-> ->] | [-> ->]]]; [ apply Htouch; assumption | exact Hpair | ].
      rewrite touches_sym. exact Hpair.
    + intros i Hi Hc. rewrite Hlen' in *. apply Hflag' in Hc.
      destruct Hc as [Hc | [Hf [-> | ->]]].
      * destruct (Hflag i Hi Hc) as [c [Hin Hor]]. exists c.
        split; [ apply Hconn; left; exact Hin | exact Hor ].
      * exists nearby. split; [ apply Hconn; auto | left ].
        rewrite <- Hf, Hc1. apply hasC1ContinuityWith_segment; symmetry; apply Hseg.
      * exists line. split; [ apply Hconn; auto | right ].
        rewrite <- Hf, Hc1. apply hasC1ContinuityWith_segment; symmetry; apply Hseg.
  - intros i c Hc. apply Hconn. left. exact Hc.
  - apply Hconn. auto.
  - apply Hconn. auto.
Qed.

Lemma fold_connect :
  forall lines line nearbyLines h,
    Links lines h -> (line < List.length lines)%nat ->
    (forall x, In x nearbyLines -> (x < List.length lines)%nat) ->
    Links lines (fold_left (connect line) nearbyLines h)
    /\ Extends h (fold_left (connect line) nearbyLines h)
    /\ forall j,
         In j nearbyLines -> j <> line ->
         touches (deref lines line) (deref lines j) = true ->
         In j (connections (deref (fold_left (connect line) nearbyLines h) line))
         /\ In line (connections (deref (fold_left (connect line) nearbyLines h) j)).
Proof.
  intros lines line nearbyLines.
  induction nearbyLines as [| x rest IH]; intros h Hlinks Hline Hrange; cbn [fold_left].
  - split; [ exact Hlinks | ]. split; [ apply Extends_refl | intros j [] ].
  - assert (Hx : (x < List.length h)%nat).
    { rewrite (links_length _ _ Hlinks). apply Hrange. left. reflexivity. }
    assert (Hl : (line < List.length h)%nat).
    { rewrite (links_length _ _ Hlinks). exact Hline. }
    assert (Hrest : forall y, In y rest -> (y < List.length lines)%nat).
    { intros y Hy. apply Hrange. right. exact Hy. }
    destruct (connect_cases line h x Hl Hx)
      as [[Hskip Heq] | [Hne [Htouch [flag [Hflag [Hlen Hderef]]]]]].
    + rewrite Heq. destruct (IH h Hlinks Hline Hrest) as [L [E C]].
      split; [ exact L | ]. split; [ exact E | ].
      intros j [<- | Hj] Hjl Hjt; [ | apply C; assumption ].
      exfalso. destruct Hskip as [Hskip | Hskip]; [ exact (Hjl Hskip) | ].
      rewrite (touches_segment _ (deref lines line) _ (deref lines x)
                 (links_segment _ _ Hlinks line) (links_segment _ _ Hlinks x)) in Hskip.
      congruence.
    + destruct (Links_step lines h (connect line h x) line x flag Hlinks Hl Hx Hne Htouch
                  Hflag Hlen Hderef) as [L1 [E1 [C1 C2]]].
      destruct (IH (connect line h x) L1 Hline Hrest) as [L [E C]].
      split; [ exact L | ]. split; [ eapply Extends_trans; eassumption | ].
      intros j [<- | Hj] Hjl Hjt; [ | apply C; assumption ].
      split; apply E; assumption.
Qed.

End ConnectFacts.

Section BuildTopologyFacts.
Import PostProcessing Topology Linked.
Local Open Scope float_scope.

Variable positions : list float.

Lemma nearby_in_range :
  forall cellSize point x,
    In x (getNearbyLines cellSize (fillGrid cellSize (createLines positions)) point) ->
    (x < List.length (createLines positions))%nat.
Proof.
  intros cs point x H. apply getNearbyLines_cells in H. destruct H as [k H].
  apply fillGrid_cell in H. tauto.
Qed.

Lemma nearby_shared_endpoint :
  forall cellSize h i j,
    Links (createLines positions) h ->
    (j < List.length (createLines positions))%nat ->
    shareEndpoint (deref (createLines positions) i) (deref (createLines positions) j) ->
    In j (dedupe []
            (getNearbyLines cellSize (fillGrid cellSize (createLines positions))
               (start (deref h i))
             ++ getNearbyLines cellSize (fillGrid cellSize (createLines positions))
                  (end_ (deref h i)))).
Proof.
  intros cs h i j Hlinks Hj Hshare.
  apply dedupe_In. split; [ | simpl; tauto ].
  pose proof (links_segment _ _ Hlinks i) as Hseg.
  rewrite (segment_start _ _ Hseg), (segment_end _ _ Hseg). apply in_or_app.
  destruct Hshare as [H | [H | [H | H]]]; [ left | left | right | right ];
    apply getNearbyLines_own_cell; apply fillGrid_cell; (split; [ exact Hj | ]);
    rewrite H; [ left | right | left | right ]; apply sameKey_refl.
Qed.

Lemma linkLine_Links :
  forall cellSize h i,
    Links (createLines positions) h ->
    (i < List.length (createLines positions))%nat ->
    Links (createLines positions)
      (linkLine cellSize (fillGrid cellSize (createLines positions)) h i)
    /\ Extends h (linkLine cellSize (fillGrid cellSize (createLines positions)) h i)
    /\ forall j,
         (j < List.length (createLines positions))%nat -> j <> i ->
         shareEndpoint (deref (createLines positions) i) (deref (createLines positions) j) ->
         touches (deref (createLines positions) i) (deref (createLines positions) j) = true ->
         In j (connections
                 (deref (linkLine cellSize (fillGrid cellSize (createLines positions)) h i) i))
         /\ In i (connections
                    (deref (linkLine cellSize (fillGrid cellSize (createLines positions)) h i)
                       j)).
Proof.
  intros cs h i Hlinks Hi. unfold linkLine.
  match goal with
  | |- Links _ (fold_left _ ?l _) /\ _ => set (nearbyLines := l)
  end.
  assert (Hrange : forall x, In x nearbyLines -> (x < List.length (createLines positions))%nat).
  { intros x Hx. subst nearbyLines. apply dedupe_In in Hx. destruct Hx as [Hx _].
    apply in_app_or in Hx. destruct Hx as [Hx | Hx]; eapply nearby_in_range; exact Hx. }
  destruct (fold_connect (createLines positions) i nearbyLines h Hlinks Hi Hrange)
    as [L [E C]].
  split; [ exact L | ]. split; [ exact E | ].
  intros j Hj Hji Hshare Htouch. apply C; [ | exact Hji | exact Htouch ].
  subst nearbyLines. apply nearby_shared_endpoint; assumption.
Qed.

Lemma fold_linkLine :
  forall cellSize refs h,
    Links (createLines positions) h ->
    (forall r, In r refs -> (r < List.length (createLines positions))%nat) ->
    Links (createLines positions)
      (fold_left (linkLine cellSize (fillGrid cellSize (createLines positions))) refs h)
    /\ Extends h
         (fold_left (linkLine cellSize (fillGrid cellSize (createLines positions))) refs h)
    /\ forall i j,
         In i refs -> (j < List.length (createLines positions))%nat -> j <> i ->
         shareEndpoint (deref (createLines positions) i) (deref (createLines positions) j) ->
         touches (deref (createLines positions) i) (deref (createLines positions) j) = true ->
         In j (connections
                 (deref (fold_left (linkLine cellSize
                                      (fillGrid cellSize (createLines positions))) refs h) i))
         /\ In i (connections
                    (deref (fold_left (linkLine cellSize
                                         (fillGrid cellSize (createLines positions))) refs h)
                       j)).
Proof.
  intros cs refs. induction refs as [| r rest IH]; intros h Hlinks Hrange; cbn [fold_left].
  - split; [ exact Hlinks | ]. split; [ apply Extends_refl | intros i j [] ].
  - destruct (linkLine_Links cs h r Hlinks (Hrange r (or_introl eq_refl))) as [L1 [E1 C1]].
    destruct (IH _ L1 (fun y Hy => Hrange y (or_intror Hy))) as [L [E C]].
    split; [ exact L | ]. split; [ eapply Extends_trans; eassumption | ].
    intros i j [<- | Hi] Hj Hji Hshare Htouch; [ | apply C; assumption ].
    destruct (C1 j Hj Hji Hshare Htouch) as [A B]. split; apply E; assumption.
Qed.

Lemma createLines_length :
  List.length (createLines positions) = ((List.length positions + 5) / 6)%nat.
Proof.
  unfold createLines, lineStarts. rewrite !length_map, length_seq. reflexivity.
Qed.

Lemma createLines_deref :
  forall k, (k < List.length (createLines positions))%nat ->
            deref (createLines positions) k = lineAt positions (6 * k).
Proof.
  intros k Hk. rewrite createLines_length in Hk.
  unfold deref, createLines, lineStarts.
  rewrite nth_indep with (d' := lineAt positions (6 * 0))
    by (rewrite !length_map, length_seq; exact Hk).
  rewrite map_nth.
  rewrite (map_nth (fun k => (6 * k)%nat)). rewrite seq_nth by exact Hk. reflexivity.
Qed.

Lemma createLines_plain :
  forall k, connections (deref (createLines positions) k) = []
            /\ hasC1Continuity (deref (createLines positions) k) = false
            /\ (k < List.length (createLines positions) ->
                componentId (deref (createLines positions) k) = (-1)%Z)%nat.
Proof.
  intros k. destruct (Nat.lt_ge_cases k (List.length (createLines positions))) as [Hk | Hk].
  - rewrite (createLines_deref k Hk). repeat split.
  - rewrite (deref_out_of_range _ _ Hk). repeat split. lia.
Qed.

Lemma createLines_Links : Links (createLines positions) (createLines positions).
Proof.
  constructor; try reflexivity.
  - constructor.
    + intros i c _ Hc. destruct (createLines_plain i) as [E _]. rewrite E in Hc. destruct Hc.
    + intros i _ Hc. destruct (createLines_plain i) as [E _]. rewrite E in Hc. destruct Hc.
    + intros i c _ Hc. destruct (createLines_plain i) as [E _]. rewrite E in Hc. destruct Hc.
    + intros i _. destruct (createLines_plain i) as [E _]. rewrite E. constructor.
  - intros i c _ Hc. destruct (createLines_plain i) as [E _]. rewrite E in Hc. destruct Hc.
  - intros i _ Hc. destruct (createLines_plain i) as [_ [E _]]. congruence.
Qed.

Lemma buildTopology_Links :
  Links (createLines positions) (buildTopology positions)
  /\ forall i j,
       (i < List.length (createLines positions))%nat ->
       (j < List.length (createLines positions))%nat -> j <> i ->
       shareEndpoint (deref (createLines positions) i) (deref (createLines positions) j) ->
       touches (deref (createLines positions) i) (deref (createLines positions) j) = true ->
       In j (connections (deref (buildTopology positions) i))
       /\ In i (connections (deref (buildTopology positions) j)).
Proof.
  unfold buildTopology.
  destruct (fold_linkLine (MAX_PARALLEL_DISTANCE * 2)
              (seq 0 (List.length (createLines positions))) (createLines positions)
              createLines_Links) as [L [_ C]].
  { intros r Hr. apply in_seq in Hr. lia. }
  split; [ exact L | ].
  intros i j Hi Hj. apply C; [ apply in_seq; lia | exact Hj ].
Qed.

Lemma buildTopology_fresh : Labelled.fresh (buildTopology positions).
Proof.
  destruct buildTopology_Links as [L _].
  unfold Labelled.fresh. apply Forall_forall. intros l Hl.
  destruct (In_nth _ _ danglingLine Hl) as [k [Hk <-]].
  fold (deref (buildTopology positions) k).
  rewrite (links_unlabelled _ _ L k).
  apply createLines_plain. rewrite <- (links_length _ _ L). exact Hk.
Qed.

End BuildTopologyFacts.

Section BuildTopologyTheorems.
Import PostProcessing Topology Linked.
Local Open Scope float_scope.

(** X15.  [buildTopology] makes one line for every six numbers of the
    position array, the last one from the numbers that are left and zeros.
    In the array of lines it returns, every line has the endpoints, length
    and direction it was created with and no component number; the
    connections form a graph on the array: each is another line of the
    array, recorded once and on both sides; two lines are connected only if
    the distance test of the inner loop holds for them; and a line is
    flagged continuous only if the continuity test holds between it and one
    of its connections. *)
Theorem buildTopology_makes_a_graph :
  forall positions,
    List.length (buildTopology positions) = ((List.length positions + 5) / 6)%nat
    /\ (forall k, (k < List.length (buildTopology positions))%nat ->
                  segment (deref (buildTopology positions) k)
                  = segment (lineAt positions (6 * k)))
    /\ Labelled.fresh (buildTopology positions)
    /\ Graph (buildTopology positions)
    /\ (forall i c,
          (i < List.length (buildTopology positions))%nat ->
          In c (connections (deref (buildTopology positions) i)) ->
          touches (deref (buildTopology positions) i) (deref (buildTopology positions) c)
          = true)
    /\ (forall i,
          (i < List.length (buildTopology positions))%nat ->
          hasC1Continuity (deref (buildTopology positions) i) = true ->
          exists c,
            In c (connections (deref (buildTopology positions) i))
            /\ (hasC1ContinuityWith (deref (buildTopology positions) i)
                  (deref (buildTopology positions) c) = true
                \/ hasC1ContinuityWith (deref (buildTopology positions) c)
                     (deref (buildTopology positions) i) = true)).
Proof.
  intros positions.
  destruct (buildTopology_Links positions) as [L _].
  pose proof (links_length _ _ L) as Hlen.
  split; [ rewrite Hlen; apply createLines_length | ].
  split.
  { intros k Hk. rewrite (links_segment _ _ L k).
    rewrite createLines_deref by (rewrite <- Hlen; exact Hk). reflexivity. }
  split; [ apply buildTopology_fresh | ].
  split; [ exact (links_graph _ _ L) | ].
  split.
  - intros i c Hi Hc.
    rewrite (touches_segment _ (deref (createLines positions) i) _
               (deref (createLines positions) c)
               (links_segment _ _ L i) (links_segment _ _ L c)).
    exact (links_touch _ _ L i c Hi Hc).
  - intros i Hi Hflag. destruct (links_flag _ _ L i Hi Hflag) as [c [Hc Hor]].
    exists c. split; [ exact Hc | ].
    rewrite (hasC1ContinuityWith_segment _ (deref (createLines positions) i) _
               (deref (createLines positions) c)
               (links_segment _ _ L i) (links_segment _ _ L c)).
    rewrite (hasC1ContinuityWith_segment _ (deref (createLines positions) c) _
               (deref (createLines positions) i)
               (links_segment _ _ L c) (links_segment _ _ L i)).
    exact Hor.
Qed.

(** X16.  The grid does not lose a pair of lines with a common endpoint:
    two different lines of the array that have an endpoint in common, and
    for which the distance test of the inner loop holds, are connected to
    each other in the array [buildTopology] returns. *)
Theorem lines_sharing_an_endpoint_are_connected :
  forall positions i j,
    (i < List.length (buildTopology positions))%nat ->
    (j < List.length (buildTopology positions))%nat ->
    i <> j ->
    shareEndpoint (deref (buildTopology positions) i) (deref (buildTopology positions) j) ->
    touches (deref (buildTopology positions) i) (deref (buildTopology positions) j) = true ->
    In j (connections (deref (buildTopology positions) i))
    /\ In i (connections (deref (buildTopology positions) j)).
Proof.
  intros positions i j Hi Hj Hij Hshare Htouch.
  destruct (buildTopology_Links positions) as [L C].
  pose proof (links_length _ _ L) as Hlen. rewrite Hlen in Hi, Hj.
  pose proof (links_segment _ _ L i) as Si. pose proof (links_segment _ _ L j) as Sj.
  apply C; try assumption; try congruence.
  - unfold shareEndpoint in *.
    rewrite <- (segment_start _ _ Si), <- (segment_end _ _ Si),
      <- (segment_start _ _ Sj), <- (segment_end _ _ Sj).
    exact Hshare.
  - rewrite <- Htouch. apply touches_segment; symmetry; assumption.
Qed.

Lemma square_corner_is_connected :
  ((0 < List.length (buildTopology MoreExamples.square))%nat
   /\ (1 < List.length (buildTopology MoreExamples.square))%nat
   /\ 0%nat <> 1%nat
   /\ shareEndpoint (deref (buildTopology MoreExamples.square) 0)
        (deref (buildTopology MoreExamples.square) 1)
   /\ touches (deref (buildTopology MoreExamples.square) 0)
        (deref (buildTopology MoreExamples.square) 1) = true)
  /\ In 1%nat (connections (deref (buildTopology MoreExamples.square) 0))
  /\ In 0%nat (connections (deref (buildTopology MoreExamples.square) 1)).
Proof.
  assert (H0 : (0 < List.length (buildTopology MoreExamples.square))%nat)
    by (vm_compute; lia).
  assert (H1 : (1 < List.length (buildTopology MoreExamples.square))%nat)
    by (vm_compute; lia).
  assert (Hne : 0%nat <> 1%nat) by discriminate.
  assert (Hshare : shareEndpoint (deref (buildTopology MoreExamples.square) 0)
                     (deref (buildTopology MoreExamples.square) 1)).
  { right. right. left. vm_compute. reflexivity. }
  assert (Htouch : touches (deref (buildTopology MoreExamples.square) 0)
                     (deref (buildTopology MoreExamples.square) 1) = true)
    by (vm_compute; reflexivity).
  split; [ repeat split; assumption | ].
  exact (lines_sharing_an_endpoint_are_connected MoreExamples.square 0 1 H0 H1 Hne Hshare
           Htouch).
Defined.

End BuildTopologyTheorems.

(** ** The components of a graph of lines *)

Section SearchFacts.
Import PostProcessing Labelled Linked.

Lemma write_connections :
  forall h r cid j,
    connections (deref (writeComponentId h r cid) j) = connections (deref h j).
Proof.
  intros h r cid j. destruct (Nat.eq_dec j r) as [-> | Hne].
  - destruct (Nat.lt_ge_cases r (List.length h)) as [Hr | Hr].
    + rewrite deref_write_same by exact Hr. reflexivity.
    + rewrite !deref_out_of_range; [ reflexivity | exact Hr | ].
      rewrite writeComponentId_length. exact Hr.
  - rewrite deref_write_other by exact Hne. reflexivity.
Qed.

Lemma Keeps_refl : forall st, Keeps st st.
Proof.
  intros st j _. reflexivity.
Qed.

Lemma Keeps_trans : forall st1 st2 st3, Keeps st1 st2 -> Keeps st2 st3 -> Keeps st1 st3.
Proof.
  intros st1 st2 st3 H12 H23 j Hj.
  rewrite H23; [ apply H12, Hj | rewrite H12; exact Hj ].
Qed.

Variable h0 : Heap.
Hypothesis graph : Graph h0.

(** The two writes that open [dfs] put the line on the stack. *)
Lemma label_search :
  forall stack st r,
    Search h0 stack st -> unlabelled st r = true ->
    Search h0 (r :: stack) (label st r)
    /\ Keeps st (label st r)
    /\ componentId (deref (heap (label st r)) r) = currentComponent st.
Proof.
  intros stack st r [Hlen Hconn Hcur Hclosed Hstack] Hun.
  destruct (unlabelled_in_range st r Hun) as [Hr Hcid].
  assert (Hsame : componentId (deref (heap (label st r)) r) = currentComponent st).
  { cbn [label heap]. rewrite deref_write_same by exact Hr. reflexivity. }
  assert (Hother : forall j, j <> r -> deref (heap (label st r)) j = deref (heap st) j).
  { intros j Hj. cbn [label heap]. apply deref_write_other. exact Hj. }
  split; [ | split; [ | exact Hsame ] ].
  - constructor.
    + cbn [label heap]. rewrite writeComponentId_length. exact Hlen.
    + intros j. cbn [label heap]. rewrite write_connections. apply Hconn.
    + exact Hcur.
    + intros j c Hj Hlab Hnot Hc.
      assert (Hjr : j <> r) by (intros ->; apply Hnot; left; reflexivity).
      rewrite (Hother j Hjr) in *.
      assert (Hcc : componentId (deref (heap st) c) = componentId (deref (heap st) j)).
      { apply Hclosed; try assumption. intros Hin. apply Hnot. right. exact Hin. }
      assert (Hcr : c <> r) by (intros ->; congruence).
      rewrite (Hother c Hcr). exact Hcc.
    + intros s [<- | Hs]; [ exact Hsame | ].
      assert (Hsr : s <> r).
      { intros ->. specialize (Hstack r Hs). rewrite Hcid in Hstack. lia. }
      rewrite (Hother s Hsr). cbn [label currentComponent]. apply Hstack, Hs.
  - intros j Hj.
    assert (Hjr : j <> r) by (intros ->; congruence).
    rewrite (Hother j Hjr). reflexivity.
Qed.

Lemma forConnections_search :
  forall visit r stack,
    (r < List.length h0)%nat ->
    (forall c st st',
        Search h0 (r :: stack) st -> unlabelled st c = true -> visit c st = Some st' ->
        Search h0 (r :: stack) st' /\ Keeps st st'
        /\ currentComponent st' = currentComponent st
        /\ componentId (deref (heap st') c) = currentComponent st) ->
    forall conns st st',
      Search h0 (r :: stack) st ->
      (forall c, In c conns -> In c (connections (deref h0 r))) ->
      forConnections visit conns st = Some st' ->
      Search h0 (r :: stack) st' /\ Keeps st st'
      /\ currentComponent st' = currentComponent st
      /\ forall c, In c conns -> componentId (deref (heap st') c) = currentComponent st.
Proof.
  intros visit r stack Hr Hvisit.
  induction conns as [| c rest IH]; intros st st' Hsearch Hsub Hrun; cbn [forConnections] in Hrun.
  - inversion Hrun. subst st'.
    split; [ exact Hsearch | ]. split; [ apply Keeps_refl | ]. split; [ reflexivity | intros c [] ].
  - assert (Hrest : forall x, In x rest -> In x (connections (deref h0 r))).
    { intros x Hx. apply Hsub. right. exact Hx. }
    destruct (unlabelled st c) eqn:Hc.
    + destruct (visit c st) as [st1 |] eqn:Hv; [ | discriminate ].
      destruct (Hvisit c st st1 Hsearch Hc Hv) as [S1 [K1 [C1 L1]]].
      destruct (IH st1 st' S1 Hrest Hrun) as [S2 [K2 [C2 L2]]].
      split; [ exact S2 | ]. split; [ eapply Keeps_trans; eassumption | ].
      split; [ congruence | ].
      intros x [<- | Hx]; [ | rewrite L2 by exact Hx; exact C1 ].
      rewrite K2; [ exact L1 | ].
      rewrite L1. pose proof (search_current _ _ _ Hsearch). lia.
    + destruct (IH st st' Hsearch Hrest Hrun) as [S2 [K2 [C2 L2]]].
      split; [ exact S2 | ]. split; [ exact K2 | ]. split; [ exact C2 | ].
      intros x [<- | Hx]; [ | apply L2, Hx ].
      apply labelled_iff in Hc.
      rewrite K2 by exact Hc.
      assert (Hin : In c (connections (deref h0 r))) by (apply Hsub; left; reflexivity).
      destruct (in_dec Nat.eq_dec c (r :: stack)) as [Hon | Hoff].
      * apply (search_stack _ _ _ Hsearch). exact Hon.
      * assert (Hcr : componentId (deref (heap st) r) = componentId (deref (heap st) c)).
        { apply (search_closed _ _ _ Hsearch); try assumption.
          - eapply (in_range _ graph); eassumption.
          - apply (both_sides _ graph); assumption. }
        rewrite <- Hcr. apply (search_stack _ _ _ Hsearch). left. reflexivity.
Qed.

(** When a call of [dfs] returns, the line it was called on is in the
    current component, and it has left the stack: its connections are in
    the current component too. *)
Lemma dfs_search :
  forall depth r stack st st',
    Search h0 stack st -> unlabelled st r = true -> dfs depth r st = Some st' ->
    Search h0 stack st' /\ Keeps st st'
    /\ currentComponent st' = currentComponent st
    /\ componentId (deref (heap st') r) = currentComponent st.
Proof.
  induction depth as [| depth IH]; intros r stack st st' Hsearch Hun Hrun; cbn [dfs] in Hrun.
  - discriminate.
  - rewrite Hun in Hrun. cbn [negb] in Hrun.
    destruct (unlabelled_in_range st r Hun) as [Hr Hcid].
    rewrite (search_length _ _ _ Hsearch) in Hr.
    destruct (label_search stack st r Hsearch Hun) as [S1 [K1 L1]].
    destruct (forConnections_search (dfs depth) r stack Hr
                (fun c s s' => IH c (r :: stack) s s')
                (connections (deref (heap (label st r)) r)) (label st r) st' S1)
      as [S2 [K2 [C2 L2]]].
    { intros c Hc. rewrite (search_connections _ _ _ S1) in Hc. exact Hc. }
    { exact Hrun. }
    assert (Hcur : (0 <= currentComponent st)%Z) by exact (search_current _ _ _ Hsearch).
    assert (Hr' : componentId (deref (heap st') r) = currentComponent st).
    { rewrite K2; [ exact L1 | rewrite L1; lia ]. }
    split; [ | split; [ eapply Keeps_trans; eassumption | split; [ exact C2 | exact Hr' ] ] ].
    constructor.
    + exact (search_length _ _ _ S2).
    + exact (search_connections _ _ _ S2).
    + exact (search_current _ _ _ S2).
    + intros j c Hj Hlab Hnot Hc.
      destruct (Nat.eq_dec j r) as [-> | Hjr].
      * rewrite Hr'. apply L2. rewrite (search_connections _ _ _ S1). exact Hc.
      * apply (search_closed _ _ _ S2); try assumption.
        intros [E | Hin]; [ exact (Hjr (eq_sym E)) | exact (Hnot Hin) ].
    + intros s Hs. apply (search_stack _ _ _ S2). right. exact Hs.
Qed.

Lemma labelAll_search :
  forall lines st st',
    Search h0 [] st -> labelAll lines st = Some st' ->
    Search h0 [] st' /\ Keeps st st'.
Proof.
  induction lines as [| line rest IH]; intros st st' Hsearch Hrun; cbn [labelAll] in Hrun.
  - inversion Hrun. subst st'. split; [ exact Hsearch | apply Keeps_refl ].
  - destruct (unlabelled st line) eqn:Hun; [ | apply IH; assumption ].
    destruct (dfs (List.length (heap st)) line st) as [st1 |] eqn:Hdfs; [ | discriminate ].
    destruct (dfs_search _ _ _ _ _ Hsearch Hun Hdfs) as [S1 [K1 [C1 L1]]].
    set (st2 := mkLabelling (heap st1) (components st1) (currentComponent st1 + 1)) in *.
    assert (S2 : Search h0 [] st2).
    { destruct S1 as [A B C D E]. constructor; cbn [heap currentComponent st2]; auto.
      - lia.
      - intros s []. }
    destruct (IH st2 st' S2 Hrun) as [S3 K3].
    split; [ exact S3 | ].
    intros j Hj. rewrite (K3 j); [ apply K1, Hj | ].
    cbn [st2 heap]. rewrite K1; exact Hj.
Qed.

Lemma fresh_search : Labelled.fresh h0 -> Search h0 [] (mkLabelling h0 [] 0).
Proof.
  intros Hfresh. constructor; cbn [heap currentComponent]; try reflexivity; try lia.
  - intros j c Hj Hlab. exfalso. apply Hlab.
    unfold Labelled.fresh in Hfresh. rewrite Forall_forall in Hfresh.
    apply Hfresh. unfold deref. apply nth_In. exact Hj.
  - intros s [].
Qed.

(** The labelling of a fresh graph. *)
Lemma findConnectedComponents_closed :
  forall lines,
    Labelled.fresh h0 ->
    exists st,
      labelAll lines (mkLabelling h0 [] 0) = Some st
      /\ Consistent st /\ Grows (mkLabelling h0 [] 0) st
      /\ (forall r, In r lines -> componentId (deref (heap st) r) <> (-1)%Z)
      /\ (forall j c,
            (j < List.length h0)%nat -> componentId (deref (heap st) j) <> (-1)%Z ->
            In c (connections (deref h0 j)) ->
            componentId (deref (heap st) c) = componentId (deref (heap st) j)).
Proof.
  intros lines Hfresh.
  destruct (labelAll_labels lines (mkLabelling h0 [] 0) (fresh_consistent h0 Hfresh))
    as [st [Hrun [Hst [Hg Hall]]]].
  destruct (labelAll_search lines _ st (fresh_search Hfresh) Hrun) as [S _].
  exists st. split; [ exact Hrun | ]. split; [ exact Hst | ]. split; [ exact Hg | ].
  split.
  - intros r Hr. apply labelled_iff. apply Hall, Hr.
  - intros j c Hj Hlab Hc. apply (search_closed _ _ _ S); try assumption. intros [].
Qed.

End SearchFacts.

Section MembersFacts.
Import PostProcessing Labelled Linked.

(** The labelling of a fresh graph, with the map it builds. *)
Lemma findConnectedComponents_members :
  forall h lines,
    fresh h -> Graph h ->
    exists st,
      labelAll lines (mkLabelling h [] 0) = Some st
      /\ Consistent st /\ Grows (mkLabelling h [] 0) st
      /\ (forall r, In r lines -> componentId (deref (heap st) r) <> (-1)%Z)
      /\ (forall j c,
            (j < List.length h)%nat -> componentId (deref (heap st) j) <> (-1)%Z ->
            In c (connections (deref h j)) ->
            componentId (deref (heap st) c) = componentId (deref (heap st) j))
      /\ (forall j,
            (j < List.length h)%nat -> componentId (deref (heap st) j) <> (-1)%Z ->
            exists members,
              componentsGet (components st) (componentId (deref (heap st) j)) = Some members
              /\ In j members
              /\ forall c, In c (connections (deref h j)) -> In c members).
Proof.
  intros h lines Hfresh Hgraph.
  destruct (findConnectedComponents_closed h Hgraph lines Hfresh)
    as [st [Hrun [Hst [Hg [Hall Hclosed]]]]].
  exists st. split; [ exact Hrun | ]. split; [ exact Hst | ]. split; [ exact Hg | ].
  split; [ exact Hall | ]. split; [ exact Hclosed | ].
  intros j Hj Hlab.
  pose proof (same_length _ _ Hg) as Hlen. cbn [heap] in Hlen.
  destruct (labelled_member st Hst j) as [members [Hget Hin]];
    [ rewrite Hlen; exact Hj | exact Hlab | ].
  exists members. split; [ exact Hget | ]. split; [ exact Hin | ].
  intros c Hc.
  pose proof (Hclosed j c Hj Hlab Hc) as Hsame.
  destruct (labelled_member st Hst c) as [members' [Hget' Hin']].
  - rewrite Hlen. eapply (in_range _ Hgraph); eassumption.
  - rewrite Hsame. exact Hlab.
  - rewrite Hsame, Hget in Hget'. inversion Hget'. subst members'. exact Hin'.
Qed.

Lemma three_members :
  forall (l : list nat) a b c,
    In a l -> In b l -> In c l -> a <> b -> a <> c -> b <> c -> (3 <= List.length l)%nat.
Proof.
  intros l a b c Ha Hb Hc Hab Hac Hbc.
  change 3%nat with (List.length [a; b; c]).
  apply NoDup_incl_length.
  - constructor; [ simpl; intuition congruence | ].
    constructor; [ simpl; intuition congruence | ].
    constructor; [ simpl; tauto | constructor ].
  - intros x [<- | [<- | [<- | []]]]; assumption.
Qed.

Lemma fields_of :
  forall l l', setComponentId l 0 = setComponentId l' 0 ->
               segment l = segment l' /\ connections l = connections l'
               /\ hasC1Continuity l = hasC1Continuity l'
               /\ isAxisAligned l = isAxisAligned l'
               /\ densityKey l = densityKey l'.
Proof.
  intros l l' H.
  assert (Hs : start l = start l') by exact (f_equal start H).
  assert (He : end_ l = end_ l') by exact (f_equal end_ H).
  assert (Hl : length l = length l') by exact (f_equal length H).
  assert (Hd : direction l = direction l') by exact (f_equal direction H).
  assert (Hv : isValid l = isValid l') by exact (f_equal isValid H).
  assert (Hc : connections l = connections l') by exact (f_equal connections H).
  assert (Hf : hasC1Continuity l = hasC1Continuity l') by exact (f_equal hasC1Continuity H).
  unfold segment, isAxisAligned, densityKey.
  rewrite Hs, He, Hl, Hd, Hv. auto.
Qed.

(** On a fresh graph the second pass of [filterLines] keeps every line the
    first pass kept. *)
Lemma secondPass_identity :
  forall h,
    fresh h -> Graph h ->
    exists st,
      secondPass h (firstPass h (seq 0 (List.length h)))
      = Some (heap st, components st, firstPass h (seq 0 (List.length h)))
      /\ Grows (mkLabelling h [] 0) st.
Proof.
  intros h Hfresh Hgraph.
  set (lines := firstPass h (seq 0 (List.length h))).
  destruct (findConnectedComponents_members h lines Hfresh Hgraph)
    as [st [Hrun [Hst [Hg [Hall [Hclosed Hmembers]]]]]].
  exists st. split; [ | exact Hg ].
  unfold secondPass, findConnectedComponents. rewrite Hrun.
  f_equal. f_equal. apply forallb_filter_id. apply forallb_forall. intros r Hr.
  assert (Hrange : (r < List.length h)%nat) by (apply firstPass_in_range; exact Hr).
  destruct (Hmembers r Hrange (Hall r Hr)) as [members [Hget [Hin Hconns]]].
  apply (validComponents_has _ _ _ (keys_distinct st Hst)).
  exists members. split; [ exact Hget | ].
  destruct (fields_of _ _ (fields_kept _ _ Hg r)) as [_ [_ [Hflag [Haxis _]]]].
  cbn [heap] in Hflag, Haxis.
  unfold componentIsValid. rewrite !orb_true_iff.
  apply filter_In in Hr. destruct Hr as [_ Hkeep]. unfold firstPassKeeps in Hkeep.
  destruct (isAxisAligned (deref h r)) eqn:Hax.
  { right. apply existsb_exists. exists r. split; [ exact Hin | exact Haxis ]. }
  apply orb_true_iff in Hkeep. destruct Hkeep as [Hkeep | Hkeep].
  2:{ left. right. apply existsb_exists. exists r. split; [ exact Hin | ].
      rewrite Hflag. exact Hkeep. }
  left. left. apply andb_true_iff in Hkeep. destruct Hkeep as [_ Hgood].
  apply Nat.leb_le in Hgood. unfold MIN_CONNECTED_LINES in Hgood.
  pose proof (listed_once _ Hgraph r Hrange) as Hnd.
  pose proof (no_loop _ Hgraph r Hrange) as Hloop.
  destruct (connections (deref h r)) as [| c1 [| c2 rest]] eqn:Hc;
    cbn [List.length] in Hgood; try lia.
  apply Nat.leb_le. unfold MIN_COMPONENT_SIZE.
  inversion Hnd as [| ? ? Hnotin _]; subst.
  apply (three_members members r c1 c2).
  - exact Hin.
  - apply Hconns. left. reflexivity.
  - apply Hconns. right. left. reflexivity.
  - intros ->. apply Hloop. left. reflexivity.
  - intros ->. apply Hloop. right. left. reflexivity.
  - intros ->. apply Hnotin. left. reflexivity.
Qed.



Lemma drawing_is_a_graph : Graph Examples.drawing.
Proof.
  assert (Hcases : forall i, (i < List.length Examples.drawing)%nat ->
                             i = 0%nat \/ i = 1%nat \/ i = 2%nat \/ i = 3%nat \/ i = 4%nat).
  { intros i Hi. cbn [List.length Examples.drawing] in Hi. lia. }
  constructor.
  - intros i c Hi Hc.
    destruct (Hcases i Hi) as [-> | [-> | [-> | [-> | ->]]]];
      vm_compute in Hc; cbn [List.length Examples.drawing]; intuition lia.
  - intros i Hi Hc.
    destruct (Hcases i Hi) as [-> | [-> | [-> | [-> | ->]]]];
      vm_compute in Hc; intuition discriminate.
  - intros i c Hi Hc.
    destruct (Hcases i Hi) as [-> | [-> | [-> | [-> | ->]]]];
      vm_compute in Hc; intuition (subst; vm_compute; tauto).
  - intros i Hi.
    destruct (Hcases i Hi) as [-> | [-> | [-> | [-> | ->]]]];
      vm_compute;
      repeat (constructor; [ simpl; intuition discriminate | ]); constructor.
Qed.

Lemma drawing_is_fresh : fresh Examples.drawing.
Proof.
  repeat constructor.
Qed.

End MembersFacts.

Section ComponentTheorems.
Import PostProcessing Labelled Linked Topology.
Local Open Scope float_scope.



(** X18.  On the lines of a graph, none labelled, the component pass of
    [filterLines] removes nothing: it returns, and the lines it keeps are
    exactly the lines the first pass kept, in the same order.  A line that
    passed the first filter is axis-aligned, or flagged continuous, or has
    two connections, which with the line itself make a component of
    three. *)
Theorem component_pass_removes_nothing :
  forall h,
    fresh h -> Graph h ->
    exists h' comps,
      secondPass h (firstPass h (seq 0 (List.length h)))
      = Some (h', comps, firstPass h (seq 0 (List.length h))).
Proof.
  intros h Hfresh Hgraph.
  destruct (secondPass_identity h Hfresh Hgraph) as [st [Hrun _]].
  exists (heap st), (components st). exact Hrun.
Qed.

Lemma drawing_component_pass_removes_nothing :
  fresh Examples.drawing /\ Graph Examples.drawing
  /\ firstPass Examples.drawing (seq 0 (List.length Examples.drawing)) = [ 0; 1; 2 ]%nat
  /\ exists h' comps,
       secondPass Examples.drawing
         (firstPass Examples.drawing (seq 0 (List.length Examples.drawing)))
       = Some (h', comps, firstPass Examples.drawing (seq 0 (List.length Examples.drawing))).
Proof.
  split; [ exact drawing_is_fresh | ]. split; [ exact drawing_is_a_graph | ].
  split; [ vm_compute; reflexivity | ].
  exact (component_pass_removes_nothing Examples.drawing drawing_is_fresh drawing_is_a_graph).
Defined.


End ComponentTheorems.

Section GridTheorems.
Import PostProcessing Topology.
Local Open Scope float_scope.

(** X20.  The spatial grid after every line of an array has been added to
    it.  The cell of a key holds exactly the lines of the array that have
    an endpoint with that key.  [getNearbyLines] returns lines of the array
    only, and for any point it returns every line that has an endpoint in
    the cell of the point. *)
Theorem grid_cells_hold_lines_by_endpoint :
  forall cellSize lines,
    (forall key x,
        In x (gridGet (fillGrid cellSize lines) key)
        <-> (x < List.length lines)%nat
            /\ (sameKey (getGridKey cellSize (start (deref lines x))) key = true
                \/ sameKey (getGridKey cellSize (end_ (deref lines x))) key = true))
    /\ (forall point x,
          In x (getNearbyLines cellSize (fillGrid cellSize lines) point) ->
          (x < List.length lines)%nat)
    /\ (forall point x,
          (x < List.length lines)%nat ->
          sameKey (getGridKey cellSize (start (deref lines x))) (getGridKey cellSize point) = true
          \/ sameKey (getGridKey cellSize (end_ (deref lines x))) (getGridKey cellSize point)
             = true ->
          In x (getNearbyLines cellSize (fillGrid cellSize lines) point)).
Proof.
  intros cs lines. split; [ | split ].
  - intros key x. apply fillGrid_cell.
  - intros point x H. apply getNearbyLines_cells in H. destruct H as [k H].
    apply fillGrid_cell in H. tauto.
  - intros point x Hx Hkey. apply getNearbyLines_own_cell. apply fillGrid_cell.
    split; assumption.
Qed.

End GridTheorems.
